(** * compute_derived_state_vars: derived state of a VIC grid cell

    A shallow embedding of
    [vic/drivers/shared_all/src/compute_derived_state_vars.c] and the
    properties of its two passes over the (vegetation, band) tiles.

    Conventions of the embedding.
    - A C [double] is an IEEE 754 binary64 number: Rocq's primitive
      [float], with the kernel's operations, each rounded to nearest (ties
      to even), with infinities and NaN; [x > y] is false when one side is
      NaN.  An expression is evaluated operation by operation in binary64
      (no excess precision, no fused operation).  An [int] literal beside
      a [double] is the [double] of the same value.
    - [pow] is the routine of [math.h]: a field of [collaborators] like
      the routines of VIC, since the C standard does not fix its result
      to the last bit.
    - [size_t] counters are [nat] (no wrap-around at [SIZE_MAX]).
    - Arrays owned by the caller ([cell], [energy], the arrays inside the
      structs) are total maps from the index to the element: the caller
      hands in storage of adequate dimension.
    - The two automatic arrays [moist] and [ice] are finite maps from the
      index tuple to the stored value: an entry is absent until it is
      assigned, and an access whose index reaches the declared dimension
      stops the run ([OutOfRange]).
    - The structs are declared in [vic_def.h]; a record has the members
      that this file names, with the types that its uses of them imply.
    - The routines the function calls live in other files of VIC; they are
      the fields of [collaborators], with the arguments the call sites pass
      and the objects they receive a pointer to for output.  The spec has
      the soil parameters read-only and the node temperatures unchanged, so
      a routine returns new content only for the objects that the spec has
      it produce.
    - Every call of a routine and every [log_err] appends an [event] to the
      [trace] of the run. *)

From Stdlib Require Import Floats ZArith List Lia Bool.
From stdpp Require Import base gmap list.
Import ListNotations.

Set Implicit Arguments.

(** ** Data model *)

(** A C array of doubles in caller-owned storage. *)
Definition doubles := nat -> float.

Record option_struct := {
  SNOW_BAND : nat;
  Nlayer : nat;
  Nfrost : nat;
  Nnode : nat;
  FULL_ENERGY : bool;
  FROZEN_SOIL : bool;
  QUICK_FLUX : bool;
  IMPLICIT : bool
}.

Record global_param_struct := { dt : float }.

Record veg_con_struct := {
  vegetat_type_num : nat;
  Cv : float
}.

Record soil_con_struct := {
  AreaFract : doubles;
  Zsum_node : doubles;
  max_moist_node : doubles;
  expt_node : doubles;
  bubble_node : doubles;
  alpha : doubles;
  beta : doubles;
  gamma : doubles;
  depth : doubles;
  max_moist : doubles;
  expt : doubles;
  bubble : doubles;
  soil_dens_min : doubles;
  bulk_dens_min : doubles;
  quartz : doubles;
  soil_density : doubles;
  bulk_density : doubles;
  organic : doubles;
  dz_node : doubles;
  frost_fract : doubles;
  frost_slope : float;
  dp : float;
  avg_temp : float;
  FS_ACTIVE : bool
}.

Module Layer.
Record layer_data_struct := {
  moist : float;
  ice : nat -> float
}.
End Layer.

(** Modelled from the spec: [cell_data_struct] is declared in [vic_def.h],
    which is not part of this file.  [asat] and [layer] are the members the
    file names; [zwt] stands for the water-table depth estimate that the
    spec has [wrap_compute_zwt] write into the tile. *)
Record cell_data_struct := {
  asat : float;
  zwt : float;
  layer : nat -> Layer.layer_data_struct
}.

Module Energy.
(** Modelled from the spec: [energy_bal_struct] is declared in [vic_def.h],
    which is not part of this file.  The file names the first five members;
    [fdepth] and [tdepth] stand for the depths of the freezing and thawing
    fronts that the spec has [find_0_degree_fronts] record. *)
Record energy_bal_struct := {
  moist : doubles;
  ice : doubles;
  kappa_node : doubles;
  Cs_node : doubles;
  T : doubles;
  fdepth : doubles;
  tdepth : doubles
}.
End Energy.

(** Constants of [vic_def.h] that this file uses. *)
Record constants := {
  MAX_VEG : nat;
  MAX_BANDS : nat;
  MAX_LAYERS : nat;
  MAX_FROST_AREAS : nat;
  ERROR : Z
}.

(** The routines called, with the call sites' argument order.  A pointer
    argument that the routine fills is an argument (its content at the call)
    and a component of the result (its content at the return). *)
Record collaborators := {
  (* soil_con, moist, inflow; returns what A and runoff point to *)
  compute_runoff_and_asat : soil_con_struct -> list float -> float -> float * float;
  (* soil_con, cell; returns what cell points to *)
  wrap_compute_zwt : soil_con_struct -> cell_data_struct -> cell_data_struct;
  (* Zsum_node, max_moist_node, expt_node, bubble_node, alpha, beta, gamma,
     depth, max_moist, expt, bubble, Nnode, Nlayer; returns the first seven *)
  set_node_parameters :
    doubles -> doubles -> doubles -> doubles -> doubles -> doubles -> doubles ->
    doubles -> doubles -> doubles -> doubles -> nat -> nat ->
    doubles * doubles * doubles * doubles * doubles * doubles * doubles;
  (* moist_node, ice_node, kappa_node, Cs_node, Zsum_node, T_node,
     max_moist_node, expt_node, bubble_node, moist, depth, soil_dens_min,
     bulk_dens_min, quartz, soil_density, bulk_density, organic, Nnode,
     Nlayer, FS_ACTIVE; returns the flag and the first four *)
  distribute_node_moisture_properties :
    doubles -> doubles -> doubles -> doubles -> doubles -> doubles -> doubles -> doubles -> doubles ->
    list float -> doubles -> doubles -> doubles -> doubles -> doubles -> doubles -> doubles ->
    nat -> nat -> bool -> Z * (doubles * doubles * doubles * doubles);
  (* layer, depth, dp, T[0], T[1], avg_temp, max_moist, expt, bubble,
     frost_fract, frost_slope, FS_ACTIVE; returns the flag and layer *)
  estimate_layer_ice_content_quick_flux :
    (nat -> Layer.layer_data_struct) -> doubles -> float -> float -> float -> float ->
    doubles -> doubles -> doubles -> doubles -> float -> bool ->
    Z * (nat -> Layer.layer_data_struct);
  (* layer, Zsum_node, T, depth, max_moist, expt, bubble, frost_fract,
     frost_slope, Nnode, Nlayer, FS_ACTIVE; returns the flag and layer *)
  estimate_layer_ice_content :
    (nat -> Layer.layer_data_struct) -> doubles -> doubles -> doubles ->
    doubles -> doubles -> doubles -> doubles -> float -> nat -> nat -> bool ->
    Z * (nat -> Layer.layer_data_struct);
  (* energy, Zsum_node, T, Nnode; returns what energy points to *)
  find_0_degree_fronts :
    Energy.energy_bal_struct -> doubles -> doubles -> nat -> Energy.energy_bal_struct;
  (* x, y; returns x raised to the power y (math.h) *)
  pow : float -> float -> float
}.

(** ** Trace *)

(** The four messages of the file, with the values their format prints. *)
Inductive message :=
| node_properties_failed
| explicit_step_too_large (dt dz_node1 Cs_node1 kappa_node1 dt_thresh : float)
| quick_flux_failed
| ice_content_failed.

Inductive event :=
| runoff_asat_call (veg band : nat) (row : list float)
| zwt_call (veg band : nat)
| node_parameters_call
| distribute_call (veg band : nat) (soil : soil_con_struct) (row : list float)
    (flag : Z)
| quick_flux_call (veg band : nat) (soil : soil_con_struct)
    (layer_in : nat -> Layer.layer_data_struct) (T0 T1 : float) (flag : Z)
    (layer_out : nat -> Layer.layer_data_struct)
| ice_content_call (veg band : nat) (soil : soil_con_struct)
    (layer_in : nat -> Layer.layer_data_struct) (T : doubles) (flag : Z)
    (layer_out : nat -> Layer.layer_data_struct)
| fronts_call (veg band : nat) (soil : soil_con_struct)
| logged (m : message).

(** ** State: the objects reachable from the arguments, and the locals *)

Record state := mkState {
  cell : nat -> nat -> cell_data_struct;           (* all_vars->cell *)
  energy : nat -> nat -> Energy.energy_bal_struct; (* all_vars->energy *)
  soil_con : soil_con_struct;
  FIRST_VEG : option bool;
  ErrorFlag : option Z;
  moist : gmap (nat * nat * nat) float;
  ice : gmap (nat * nat * nat * nat) float;
  dt_thresh : option float;
  tmp_runoff : option float;
  trace : list event
}.

Definition set_cell (f : nat -> nat -> cell_data_struct) (s : state) :=
  mkState f (energy s) (soil_con s) (FIRST_VEG s) (ErrorFlag s) (moist s)
    (ice s) (dt_thresh s) (tmp_runoff s) (trace s).
Definition set_energy (f : nat -> nat -> Energy.energy_bal_struct) (s : state) :=
  mkState (cell s) f (soil_con s) (FIRST_VEG s) (ErrorFlag s) (moist s)
    (ice s) (dt_thresh s) (tmp_runoff s) (trace s).
Definition set_soil_con (c : soil_con_struct) (s : state) :=
  mkState (cell s) (energy s) c (FIRST_VEG s) (ErrorFlag s) (moist s)
    (ice s) (dt_thresh s) (tmp_runoff s) (trace s).
Definition set_FIRST_VEG (b : bool) (s : state) :=
  mkState (cell s) (energy s) (soil_con s) (Some b) (ErrorFlag s) (moist s)
    (ice s) (dt_thresh s) (tmp_runoff s) (trace s).
Definition set_ErrorFlag (z : Z) (s : state) :=
  mkState (cell s) (energy s) (soil_con s) (FIRST_VEG s) (Some z) (moist s)
    (ice s) (dt_thresh s) (tmp_runoff s) (trace s).
Definition set_moist (m : gmap (nat * nat * nat) float) (s : state) :=
  mkState (cell s) (energy s) (soil_con s) (FIRST_VEG s) (ErrorFlag s) m
    (ice s) (dt_thresh s) (tmp_runoff s) (trace s).
Definition set_ice (m : gmap (nat * nat * nat * nat) float) (s : state) :=
  mkState (cell s) (energy s) (soil_con s) (FIRST_VEG s) (ErrorFlag s)
    (moist s) m (dt_thresh s) (tmp_runoff s) (trace s).
Definition set_dt_thresh (q : float) (s : state) :=
  mkState (cell s) (energy s) (soil_con s) (FIRST_VEG s) (ErrorFlag s)
    (moist s) (ice s) (Some q) (tmp_runoff s) (trace s).
Definition set_tmp_runoff (q : float) (s : state) :=
  mkState (cell s) (energy s) (soil_con s) (FIRST_VEG s) (ErrorFlag s)
    (moist s) (ice s) (dt_thresh s) (Some q) (trace s).
Definition emit (e : event) (s : state) :=
  mkState (cell s) (energy s) (soil_con s) (FIRST_VEG s) (ErrorFlag s)
    (moist s) (ice s) (dt_thresh s) (tmp_runoff s) (trace s ++ [e]).

(** Update of one element of a two-dimensional array. *)
Definition upd2 {A} (f : nat -> nat -> A) (i j : nat) (x : A) : nat -> nat -> A :=
  fun i' j' => if (i' =? i) && (j' =? j) then x else f i' j'.
Definition upd1 {A} (f : nat -> A) (i : nat) (x : A) : nat -> A :=
  fun i' => if i' =? i then x else f i'.

(** ** The monad: state, and the ways a run stops *)

Inductive stop :=
| Exited          (* log_err *)
| OutOfRange      (* index beyond a dimension of moist or ice *)
| Uninitialised.  (* read of a local that was never assigned *)

Inductive result (A : Type) :=
| Ret (a : A)
| Stop (k : stop).
Arguments Stop {A} k.

Definition M (A : Type) := state -> result A * state.

Definition ret {A} (a : A) : M A := fun s => (Ret a, s).
Definition bind {A B} (m : M A) (f : A -> M B) : M B :=
  fun s => match m s with
           | (Ret a, s') => f a s'
           | (Stop k, s') => (Stop k, s')
           end.
Definition halt {A} (k : stop) : M A := fun s => (Stop k, s).
Definition get : M state := fun s => (Ret s, s).
Definition modify (f : state -> state) : M unit := fun s => (Ret tt, f s).

Declare Scope monad_scope.
Delimit Scope monad_scope with monad.
Notation "x <- m ;; k" := (bind m (fun x => k))
  (at level 100, m at next level, right associativity) : monad_scope.
Notation "m ;; k" := (bind m (fun _ => k))
  (at level 100, right associativity) : monad_scope.
Open Scope monad_scope.

(** [for (i = 0; i < n; i++) body] is [for_each (seq 0 n) body]. *)
Fixpoint for_each {X} (l : list X) (body : X -> M unit) : M unit :=
  match l with
  | [] => ret tt
  | x :: l' => body x ;; for_each l' body
  end.

Definition when (b : bool) (m : M unit) : M unit := if b then m else ret tt.

(** [x > y] on doubles: false when [x] or [y] is NaN. *)
Definition double_gt (x y : float) : bool := PrimFloat.ltb y x.
Arguments double_gt (x y)%_float.

(** A double that is at most 0 is not above 0. *)
Lemma leb_zero_not_gt (x : float) :
  PrimFloat.leb x 0 = true -> double_gt x 0 = false.
Proof.
  unfold double_gt. rewrite leb_spec, ltb_spec.
  change (Prim2SF 0) with (S754_zero false).
  destruct (Prim2SF x) as [[]|[]| |[] m e]; cbn; congruence.
Qed.

Module AllVars.
(** The members of [all_vars_struct] that the function uses. *)
Record all_vars_struct := {
  cell : nat -> nat -> cell_data_struct;
  energy : nat -> nat -> Energy.energy_bal_struct
}.
End AllVars.

(** Assignments to one member of a struct. *)
Definition with_asat (a : float) (c : cell_data_struct) : cell_data_struct :=
  {| asat := a; zwt := zwt c; layer := layer c |}.
Definition with_layer (l : nat -> Layer.layer_data_struct) (c : cell_data_struct) :
  cell_data_struct :=
  {| asat := asat c; zwt := zwt c; layer := l |}.
Definition with_layer_moist (lidx : nat) (x : float) (c : cell_data_struct) :
  cell_data_struct :=
  with_layer
    (upd1 (layer c) lidx
       {| Layer.moist := x; Layer.ice := Layer.ice (layer c lidx) |}) c.
Definition with_layer_ice (lidx frost_area : nat) (x : float) (c : cell_data_struct) :
  cell_data_struct :=
  with_layer
    (upd1 (layer c) lidx
       {| Layer.moist := Layer.moist (layer c lidx);
          Layer.ice := upd1 (Layer.ice (layer c lidx)) frost_area x |}) c.

Definition with_node_properties (o : doubles * doubles * doubles * doubles)
  (e : Energy.energy_bal_struct) : Energy.energy_bal_struct :=
  let '(m, i, k, c) := o in
  {| Energy.moist := m; Energy.ice := i; Energy.kappa_node := k;
     Energy.Cs_node := c; Energy.T := Energy.T e;
     Energy.fdepth := Energy.fdepth e; Energy.tdepth := Energy.tdepth e |}.

Definition with_node_parameters (o : doubles * doubles * doubles * doubles * doubles * doubles * doubles)
  (c : soil_con_struct) : soil_con_struct :=
  let '(z, mm, ex, bu, al, be, ga) := o in
  {| AreaFract := AreaFract c; Zsum_node := z; max_moist_node := mm;
     expt_node := ex; bubble_node := bu; alpha := al; beta := be; gamma := ga;
     depth := depth c; max_moist := max_moist c; expt := expt c;
     bubble := bubble c; soil_dens_min := soil_dens_min c;
     bulk_dens_min := bulk_dens_min c; quartz := quartz c;
     soil_density := soil_density c; bulk_density := bulk_density c;
     organic := organic c; dz_node := dz_node c; frost_fract := frost_fract c;
     frost_slope := frost_slope c; dp := dp c; avg_temp := avg_temp c;
     FS_ACTIVE := FS_ACTIVE c |}.

(** ** The function *)

Section Program.

Context (K : constants) (X : collaborators).
Context (options : option_struct) (global_param : global_param_struct).
Context (veg_con : nat -> veg_con_struct).

(** *** Accesses to the automatic arrays
    [double moist[MAX_VEG][MAX_BANDS][MAX_LAYERS]] and
    [double ice[MAX_VEG][MAX_BANDS][MAX_LAYERS][MAX_FROST_AREAS]]. *)

Definition moist_index_ok (veg band lidx : nat) : bool :=
  (veg <? MAX_VEG K) && (band <? MAX_BANDS K) && (lidx <? MAX_LAYERS K).
Definition ice_index_ok (veg band lidx frost_area : nat) : bool :=
  moist_index_ok veg band lidx && (frost_area <? MAX_FROST_AREAS K).

Definition store_moist (veg band lidx : nat) (x : float) : M unit :=
  if moist_index_ok veg band lidx
  then modify (fun s => set_moist (<[(veg, band, lidx) := x]> (moist s)) s)
  else halt OutOfRange.

Definition load_moist (veg band lidx : nat) : M float :=
  if moist_index_ok veg band lidx
  then fun s => match moist s !! (veg, band, lidx) with
                | Some x => (Ret x, s)
                | None => (Stop Uninitialised, s)
                end
  else halt OutOfRange.

Definition store_ice (veg band lidx frost_area : nat) (x : float) : M unit :=
  if ice_index_ok veg band lidx frost_area
  then modify (fun s =>
                 set_ice (<[(veg, band, lidx, frost_area) := x]> (ice s)) s)
  else halt OutOfRange.

Definition load_ice (veg band lidx frost_area : nat) : M float :=
  if ice_index_ok veg band lidx frost_area
  then fun s => match ice s !! (veg, band, lidx, frost_area) with
                | Some x => (Ret x, s)
                | None => (Stop Uninitialised, s)
                end
  else halt OutOfRange.

(** The row [moist[veg][band]] as a callee reads it: its first
    [options.Nlayer] elements. *)
Fixpoint load_row (veg band : nat) (lidxs : list nat) : M (list float) :=
  match lidxs with
  | [] => ret []
  | lidx :: rest =>
      x <- load_moist veg band lidx ;;
      xs <- load_row veg band rest ;;
      ret (x :: xs)
  end.
Definition moist_row (veg band : nat) : M (list float) :=
  load_row veg band (seq 0 (Nlayer options)).

(** *** log_err *)

(** Modelled from the spec: the macro [log_err] is defined in [vic_log.h],
    which is not part of this file.  The spec has the errors that this
    file reports through it (a failed node distribution, a failed
    ice-content estimate) abort the processing of the cell at once, and
    the file has no other statement that could do so after the report;
    so [log_err] writes its message and ends the run.  The stability
    check of lines 165-182 reports through the same macro. *)
Definition log_err (m : message) : M unit :=
  fun s => (Stop Exited, emit (logged m) s).

(** *** The loop nest that heads both passes (lines 68-75, 103-110) *)

Definition Nveg : nat := vegetat_type_num (veg_con 0).

Definition for_tiles (body : nat -> nat -> M unit) : M unit :=
  for_each (seq 0 (S Nveg)) (fun veg =>
    let Cv := Cv (veg_con veg) in
    when (double_gt Cv 0)
      (for_each (seq 0 (SNOW_BAND options)) (fun band =>
         s <- get ;;
         when (double_gt (AreaFract (soil_con s) band) 0) (body veg band)))).

(** *** First pass (lines 76-92) *)

(* lines 80-85 *)
Definition snapshot_ice (veg band lidx : nat) : M unit :=
  for_each (seq 0 (Nfrost options)) (fun frost_area =>
    s <- get ;;
    store_ice veg band lidx frost_area
      (Layer.ice (layer (cell s veg band) lidx) frost_area)).

(* lines 78-85 *)
Definition snapshot_layer (veg band lidx : nat) : M unit :=
  s <- get ;;
  store_moist veg band lidx (Layer.moist (layer (cell s veg band) lidx)) ;;
  snapshot_ice veg band lidx.

(* lines 77-86 *)
Definition snapshot_tile (veg band : nat) : M unit :=
  for_each (seq 0 (Nlayer options)) (snapshot_layer veg band).

Definition call_compute_runoff_and_asat (veg band : nat) (row : list float)
  (s : state) : state :=
  let '(A, runoff) := compute_runoff_and_asat X (soil_con s) row 0 in
  emit (runoff_asat_call veg band row)
    (set_tmp_runoff runoff
       (set_cell (upd2 (cell s) veg band (with_asat A (cell s veg band))) s)).

Definition call_wrap_compute_zwt (veg band : nat) (s : state) : state :=
  emit (zwt_call veg band)
    (set_cell
       (upd2 (cell s) veg band
          (wrap_compute_zwt X (soil_con s) (cell s veg band))) s).

Definition first_pass_tile (veg band : nat) : M unit :=
  snapshot_tile veg band ;;
  row <- moist_row veg band ;;
  modify (call_compute_runoff_and_asat veg band row) ;;
  modify (call_wrap_compute_zwt veg band).

(** *** Second pass (lines 111-238) *)

(* soil_con after the call of lines 114-122 *)
Definition node_parameters_set (c : soil_con_struct) : soil_con_struct :=
  with_node_parameters
    (set_node_parameters X (Zsum_node c) (max_moist_node c) (expt_node c)
       (bubble_node c) (alpha c) (beta c) (gamma c) (depth c) (max_moist c)
       (expt c) (bubble c) (Nnode options) (Nlayer options)) c.

Definition call_set_node_parameters (s : state) : state :=
  emit node_parameters_call
    (set_soil_con (node_parameters_set (soil_con s)) s).

Definition node_parameters_once : M unit :=
  s <- get ;;
  match FIRST_VEG s with
  | None => halt Uninitialised
  | Some true =>
      modify (set_FIRST_VEG false) ;; modify call_set_node_parameters
  | Some false => ret tt
  end.

Definition call_distribute (veg band : nat) (row : list float) : M Z :=
  fun s =>
    let c := soil_con s in
    let e := energy s veg band in
    let '(flag, out) :=
      distribute_node_moisture_properties X
        (Energy.moist e) (Energy.ice e) (Energy.kappa_node e)
        (Energy.Cs_node e) (Zsum_node c) (Energy.T e) (max_moist_node c)
        (expt_node c) (bubble_node c) row (depth c) (soil_dens_min c)
        (bulk_dens_min c) (quartz c) (soil_density c) (bulk_density c)
        (organic c) (Nnode options) (Nlayer options) (FS_ACTIVE c) in
    (Ret flag,
     emit (distribute_call veg band c row flag)
       (set_ErrorFlag flag
          (set_energy
             (upd2 (energy s) veg band (with_node_properties out e)) s))).

Definition node_moisture (veg band : nat) : M unit :=
  when (FULL_ENERGY options || FROZEN_SOIL options)
    (row <- moist_row veg band ;;
     flag <- call_distribute veg band row ;;
     when (flag =? ERROR K)%Z (log_err node_properties_failed)).

(** The bound of lines 161-164, with C's left-to-right grouping:
    [((0.5 * Cs_node[1]) / kappa_node[1]) * pow(dz_node[1], 2)]. *)
Definition stable_step (Cs_node1 kappa_node1 dz_node1 : float) : float :=
  (0.5 * Cs_node1 / kappa_node1 * pow X dz_node1 2)%float.

Definition check_node_spacing (veg band : nat) : M unit :=
  when (FROZEN_SOIL options && negb (QUICK_FLUX options)
        && negb (IMPLICIT options))
    (s <- get ;;
     let e := energy s veg band in
     let dz := dz_node (soil_con s) 1 in
     let th := stable_step (Energy.Cs_node e 1) (Energy.kappa_node e 1) dz in
     modify (set_dt_thresh th) ;;
     when (double_gt (dt global_param) th)
       (log_err
          (explicit_step_too_large (dt global_param) dz (Energy.Cs_node e 1)
             (Energy.kappa_node e 1) th))).

Definition assign_layer_moist (veg band lidx : nat) (x : float) (s : state) :
  state :=
  set_cell
    (upd2 (cell s) veg band (with_layer_moist lidx x (cell s veg band))) s.

Definition assign_layer_ice (veg band lidx frost_area : nat) (x : float)
  (s : state) : state :=
  set_cell
    (upd2 (cell s) veg band
       (with_layer_ice lidx frost_area x (cell s veg band))) s.

(* lines 189-194 *)
Definition restore_ice (veg band lidx : nat) : M unit :=
  for_each (seq 0 (Nfrost options)) (fun frost_area =>
    x <- load_ice veg band lidx frost_area ;;
    modify (assign_layer_ice veg band lidx frost_area x)).

(* lines 187-194 *)
Definition restore_layer (veg band lidx : nat) : M unit :=
  x <- load_moist veg band lidx ;;
  modify (assign_layer_moist veg band lidx x) ;;
  restore_ice veg band lidx.

(* lines 186-195 *)
Definition restore_tile (veg band : nat) : M unit :=
  for_each (seq 0 (Nlayer options)) (restore_layer veg band).

Definition call_quick_flux (veg band : nat) : M Z :=
  fun s =>
    let c := soil_con s in
    let e := energy s veg band in
    let l := layer (cell s veg band) in
    let '(flag, l') :=
      estimate_layer_ice_content_quick_flux X l (depth c) (dp c)
        (Energy.T e 0) (Energy.T e 1) (avg_temp c) (max_moist c) (expt c)
        (bubble c) (frost_fract c) (frost_slope c) (FS_ACTIVE c) in
    (Ret flag,
     emit (quick_flux_call veg band c l (Energy.T e 0) (Energy.T e 1) flag l')
       (set_ErrorFlag flag
          (set_cell
             (upd2 (cell s) veg band (with_layer l' (cell s veg band))) s))).

Definition call_ice_content (veg band : nat) : M Z :=
  fun s =>
    let c := soil_con s in
    let e := energy s veg band in
    let l := layer (cell s veg band) in
    let '(flag, l') :=
      estimate_layer_ice_content X l (Zsum_node c) (Energy.T e) (depth c)
        (max_moist c) (expt c) (bubble c) (frost_fract c) (frost_slope c)
        (Nnode options) (Nlayer options) (FS_ACTIVE c) in
    (Ret flag,
     emit (ice_content_call veg band c l (Energy.T e) flag l')
       (set_ErrorFlag flag
          (set_cell
             (upd2 (cell s) veg band (with_layer l' (cell s veg band))) s))).

Definition ice_content (veg band : nat) : M unit :=
  if QUICK_FLUX options
  then flag <- call_quick_flux veg band ;;
       when (flag =? ERROR K)%Z (log_err quick_flux_failed)
  else flag <- call_ice_content veg band ;;
       when (flag =? ERROR K)%Z (log_err ice_content_failed).

Definition call_find_0_degree_fronts (veg band : nat) (s : state) : state :=
  let c := soil_con s in
  let e := energy s veg band in
  emit (fronts_call veg band c)
    (set_energy
       (upd2 (energy s) veg band
          (find_0_degree_fronts X e (Zsum_node c) (Energy.T e)
             (Nnode options))) s).

Definition fronts (veg band : nat) : M unit :=
  s <- get ;;
  when (negb (QUICK_FLUX options) && FS_ACTIVE (soil_con s))
    (modify (call_find_0_degree_fronts veg band)).

Definition second_pass_tile (veg band : nat) : M unit :=
  node_parameters_once ;;
  node_moisture veg band ;;
  check_node_spacing veg band ;;
  restore_tile veg band ;;
  ice_content veg band ;;
  fronts veg band.

(** *** The whole function *)

Definition body : M unit :=
  for_tiles first_pass_tile ;;
  modify (set_FIRST_VEG true) ;;
  for_tiles second_pass_tile.

(** The state on entry: the locals are not yet assigned, nothing has
    happened. *)
Definition entry (all_vars : AllVars.all_vars_struct)
  (soil_con : soil_con_struct) : state :=
  mkState (AllVars.cell all_vars) (AllVars.energy all_vars) soil_con
    None None ∅ ∅ None None [].

Definition compute_derived_state_vars (all_vars : AllVars.all_vars_struct)
  (soil_con : soil_con_struct) : result unit * state :=
  body (entry all_vars soil_con).

End Program.

(** ** Reasoning about runs *)

Lemma upd2_same {A} (f : nat -> nat -> A) i j x : upd2 f i j x i j = x.
Proof. unfold upd2. now rewrite !Nat.eqb_refl. Qed.

Lemma upd2_other {A} (f : nat -> nat -> A) i j x i' j' :
  (i', j') <> (i, j) -> upd2 f i j x i' j' = f i' j'.
Proof.
  unfold upd2. intros H.
  destruct (Nat.eqb_spec i' i), (Nat.eqb_spec j' j); simpl; congruence.
Qed.

Lemma upd1_same {A} (f : nat -> A) i x : upd1 f i x i = x.
Proof. unfold upd1. now rewrite Nat.eqb_refl. Qed.

Lemma upd1_other {A} (f : nat -> A) i x i' : i' <> i -> upd1 f i x i' = f i'.
Proof. unfold upd1. intros H. destruct (Nat.eqb_spec i' i); congruence. Qed.

(** *** Loops *)

Lemma for_each_app {X} (l1 l2 : list X) (body : X -> M unit) s :
  for_each (l1 ++ l2) body s = (for_each l1 body ;; for_each l2 body) s.
Proof.
  revert s. induction l1 as [|x l1 IH]; intros s; simpl.
  - reflexivity.
  - unfold bind in *. destruct (body x s) as [[[]|k] s']; [|reflexivity].
    apply IH.
Qed.

Lemma for_each_map {X Y} (g : X -> Y) (l : list X) (body : Y -> M unit) s :
  for_each (map g l) body s = for_each l (fun x => body (g x)) s.
Proof.
  revert s. induction l as [|x l IH]; intros s; simpl; [reflexivity|].
  unfold bind. destruct (body (g x) s) as [[[]|k] s']; [apply IH|reflexivity].
Qed.

Lemma bind_run {A B} (m : M A) (f : A -> M B) s :
  bind m f s =
  match m s with
  | (Ret a, s') => f a s'
  | (Stop k, s') => (Stop k, s')
  end.
Proof. reflexivity. Qed.

(** *** Changes that stay inside a preorder on states *)

Section Changes.

Context (Rel : state -> state -> Prop).
Context (Rel_refl : forall s, Rel s s).
Context (Rel_trans : forall s1 s2 s3, Rel s1 s2 -> Rel s2 s3 -> Rel s1 s3).

Definition changes {A} (m : M A) : Prop := forall s, Rel s (snd (m s)).

Lemma changes_ret {A} (a : A) : changes (ret a).
Proof. intros s. apply Rel_refl. Qed.

Lemma changes_halt {A} k : changes (@halt A k).
Proof. intros s. apply Rel_refl. Qed.

Lemma changes_modify f : (forall s, Rel s (f s)) -> changes (modify f).
Proof. intros H s. apply H. Qed.

Lemma changes_bind {A B} (m : M A) (f : A -> M B) :
  changes m -> (forall a, changes (f a)) -> changes (bind m f).
Proof.
  intros Hm Hf s. unfold bind. specialize (Hm s).
  destruct (m s) as [[a|k] s']; simpl in *; [|exact Hm].
  eapply Rel_trans; [exact Hm|apply Hf].
Qed.

Lemma changes_get_bind {B} (f : state -> M B) :
  (forall s, changes (f s)) -> changes (bind get f).
Proof. intros H s. unfold bind, get. apply H. Qed.

Lemma changes_when b m : changes m -> changes (when b m).
Proof. intros H. destruct b; [exact H|apply changes_ret]. Qed.

Lemma changes_for_each {X} (l : list X) (body : X -> M unit) :
  (forall x, In x l -> changes (body x)) -> changes (for_each l body).
Proof.
  induction l as [|x l IH]; intros H; simpl.
  - apply changes_ret.
  - apply changes_bind; [apply H; now left|].
    intros _. apply IH. intros y Hy. apply H. now right.
Qed.

End Changes.

(** Reads of the automatic arrays leave the state as it is. *)
Section Reads.

Context (K : constants) (options : option_struct).

Lemma load_moist_state veg band lidx s :
  snd (load_moist K veg band lidx s) = s.
Proof.
  unfold load_moist, halt.
  destruct (moist_index_ok K veg band lidx); [|reflexivity].
  destruct (moist s !! (veg, band, lidx)); reflexivity.
Qed.

Lemma load_ice_state veg band lidx frost_area s :
  snd (load_ice K veg band lidx frost_area s) = s.
Proof.
  unfold load_ice, halt.
  destruct (ice_index_ok K veg band lidx frost_area); [|reflexivity].
  destruct (ice s !! (veg, band, lidx, frost_area)); reflexivity.
Qed.

Lemma load_row_state veg band lidxs s :
  snd (load_row K veg band lidxs s) = s.
Proof.
  induction lidxs as [|lidx rest IH]; simpl; [reflexivity|].
  unfold bind. pose proof (load_moist_state veg band lidx s) as H.
  destruct (load_moist K veg band lidx s) as [[x|k] s1]; simpl in H; subst s1;
    [|reflexivity].
  destruct (load_row K veg band rest s) as [[xs|k] s2]; simpl in IH; subst s2;
    reflexivity.
Qed.

Lemma moist_row_state veg band s :
  snd (moist_row K options veg band s) = s.
Proof. apply load_row_state. Qed.

Context (Rel : state -> state -> Prop) (Rel_refl : forall s, Rel s s).

Lemma changes_load_moist veg band lidx :
  changes Rel (load_moist K veg band lidx).
Proof. intros s. rewrite load_moist_state. apply Rel_refl. Qed.

Lemma changes_load_ice veg band lidx frost_area :
  changes Rel (load_ice K veg band lidx frost_area).
Proof. intros s. rewrite load_ice_state. apply Rel_refl. Qed.

Lemma changes_moist_row veg band :
  changes Rel (moist_row K options veg band).
Proof. intros s. rewrite moist_row_state. apply Rel_refl. Qed.

End Reads.

(** Walks the structure of a monadic term for a [changes] goal; [r] and [t]
    prove that the relation is reflexive and transitive.  What remains are
    the assignments and calls. *)
Ltac changes_walk r t :=
  repeat match goal with
    | |- changes _ (ret _) => apply changes_ret; exact r
    | |- changes _ (halt _) => apply changes_halt; exact r
    | |- changes _ (load_moist _ _ _ _) => apply changes_load_moist; exact r
    | |- changes _ (load_ice _ _ _ _ _) => apply changes_load_ice; exact r
    | |- changes _ (moist_row _ _ _ _) => apply changes_moist_row; exact r
    | |- changes _ (when _ _) => apply changes_when; [exact r|]
    | |- changes _ (bind get _) => apply changes_get_bind; intros ?
    | |- changes _ (bind _ _) => apply changes_bind; [exact t| |intros ?]
    | |- changes _ (for_each _ _) =>
        apply changes_for_each; [exact r|exact t|intros ? _]
    | |- changes _ (if ?b then _ else _) => destruct b
    | |- changes _ (match ?o with Some _ => _ | None => _ end) => destruct o
    end.

Ltac unfold_calls :=
  unfold store_moist, store_ice, log_err, call_distribute, call_quick_flux,
    call_ice_content, call_compute_runoff_and_asat, call_wrap_compute_zwt,
    call_set_node_parameters, node_parameters_set, call_find_0_degree_fronts,
    with_node_parameters,
    with_node_properties, assign_layer_moist, assign_layer_ice, halt, modify,
    ret.

Ltac break_match :=
  repeat match goal with
    | |- context [let (_, _) := ?e in _] => destruct e
    | |- context [if ?b then _ else _] => destruct b
    end.

(** *** What a tile's processing can touch *)

(** The processing of tile [(veg, band)] leaves the band fractions and
    every other tile's [cell] and [energy] entries as they are. *)
Definition tile_rel (veg band : nat) (s s' : state) : Prop :=
  AreaFract (soil_con s') = AreaFract (soil_con s) /\
  forall v b, (v, b) <> (veg, band) ->
    cell s' v b = cell s v b /\ energy s' v b = energy s v b.

Lemma tile_rel_refl veg band s : tile_rel veg band s s.
Proof. split; auto. Qed.

Lemma tile_rel_trans veg band s1 s2 s3 :
  tile_rel veg band s1 s2 -> tile_rel veg band s2 s3 -> tile_rel veg band s1 s3.
Proof.
  intros [A1 F1] [A2 F2]. split; [congruence|].
  intros v b H. destruct (F1 v b H), (F2 v b H). split; congruence.
Qed.

Ltac tile_rel_leaf :=
  let s := fresh "s" in
  let v := fresh "v" in
  let b := fresh "b" in
  let Hvb := fresh "Hvb" in
  intros s; unfold_calls; simpl; break_match; simpl;
  (split; [reflexivity|]); intros v b Hvb; simpl;
  rewrite ?upd2_other by exact Hvb; split; reflexivity.

Section TileFrame.

Context (K : constants) (X : collaborators).
Context (options : option_struct) (global_param : global_param_struct).

Lemma first_pass_tile_rel veg band :
  changes (tile_rel veg band) (first_pass_tile K X options veg band).
Proof.
  unfold first_pass_tile, snapshot_tile, snapshot_layer, snapshot_ice.
  changes_walk (tile_rel_refl veg band) (@tile_rel_trans veg band);
    tile_rel_leaf.
Qed.

Lemma second_pass_tile_rel veg band :
  changes (tile_rel veg band)
    (second_pass_tile K X options global_param veg band).
Proof.
  unfold second_pass_tile, node_parameters_once, node_moisture,
    check_node_spacing, restore_tile, restore_layer, restore_ice,
    ice_content, fronts.
  changes_walk (tile_rel_refl veg band) (@tile_rel_trans veg band);
    tile_rel_leaf.
Qed.

End TileFrame.

(** *** The loop nest as one loop over the selected tiles *)

Section Tiles.

Context (options : option_struct) (veg_con : nat -> veg_con_struct).

(** The guard of lines 72 and 75 (and 107, 110). *)
Definition selected (AreaFract : doubles) (veg band : nat) : bool :=
  double_gt (Cv (veg_con veg)) 0 && double_gt (AreaFract band) 0.

(** All (vegetation, band) pairs, vegetation index major. *)
Definition all_tiles : list (nat * nat) :=
  list_prod (seq 0 (S (Nveg veg_con))) (seq 0 (SNOW_BAND options)).

Definition selected_tiles (AreaFract : doubles) : list (nat * nat) :=
  List.filter (fun t => selected AreaFract (fst t) (snd t)) all_tiles.

Lemma selected_tiles_flat AreaFract :
  selected_tiles AreaFract =
  flat_map
    (fun veg =>
       if double_gt (Cv (veg_con veg)) 0
       then map (pair veg)
              (List.filter (fun band => double_gt (AreaFract band) 0)
                 (seq 0 (SNOW_BAND options)))
       else [])
    (seq 0 (S (Nveg veg_con))).
Proof.
  unfold selected_tiles, all_tiles.
  generalize (seq 0 (S (Nveg veg_con))) as vegs.
  generalize (seq 0 (SNOW_BAND options)) as bands.
  intros bands vegs. induction vegs as [|veg vegs IH]; [reflexivity|].
  cbn [list_prod flat_map]. rewrite List.filter_app, IH. f_equal.
  unfold selected. clear IH.
  induction bands as [|band bands IHb]; cbn [map List.filter fst snd].
  - now destruct (double_gt (Cv (veg_con veg)) 0).
  - rewrite IHb.
    destruct (double_gt (Cv (veg_con veg)) 0); cbn [andb]; [|reflexivity].
    destruct (double_gt (AreaFract band) 0); reflexivity.
Qed.

Lemma selected_tiles_spec AreaFract veg band :
  In (veg, band) (selected_tiles AreaFract) <->
  veg <= Nveg veg_con /\ band < SNOW_BAND options /\
  selected AreaFract veg band = true.
Proof.
  unfold selected_tiles, all_tiles.
  rewrite List.filter_In, in_prod_iff, !in_seq. cbn [fst snd].
  intuition lia.
Qed.

Lemma NoDup_selected_tiles AreaFract : List.NoDup (selected_tiles AreaFract).
Proof.
  apply List.NoDup_filter.
  unfold all_tiles.
  generalize (seq_NoDup (SNOW_BAND options) 0).
  generalize (seq 0 (SNOW_BAND options)) as bands.
  generalize (seq_NoDup (S (Nveg veg_con)) 0).
  generalize (seq 0 (S (Nveg veg_con))) as vegs.
  intros vegs Hv bands Hb.
  apply NoDup_ListNoDup. apply NoDup_ListNoDup in Hb.
  induction Hv as [|veg vegs Hn Hv IH]; cbn [list_prod]; [constructor|].
  apply NoDup_app. split; [|split].
  - apply NoDup_fmap_2; [intros ? ? E; now inversion E|exact Hb].
  - intros [v b] H1 H2. apply list_elem_of_In in H1, H2.
    apply in_map_iff in H1 as (? & E & _). inversion E; subst.
    apply in_prod_iff in H2 as [? _]. contradiction.
  - exact IH.
Qed.

Definition keeps_AreaFract (s s' : state) : Prop :=
  AreaFract (soil_con s') = AreaFract (soil_con s).

Lemma for_tiles_flat (body : nat -> nat -> M unit) :
  (forall veg band, changes keeps_AreaFract (body veg band)) ->
  forall s,
    for_tiles options veg_con body s =
    for_each (selected_tiles (AreaFract (soil_con s)))
      (fun t => body (fst t) (snd t)) s.
Proof.
  intros Hbody s. rewrite selected_tiles_flat. unfold for_tiles.
  generalize (seq 0 (S (Nveg veg_con))) as vegs.
  generalize (seq 0 (SNOW_BAND options)) as bands. intros bands vegs.
  remember (AreaFract (soil_con s)) as af eqn:Haf. revert s Haf.
  assert (Hinner : forall veg bs s, af = AreaFract (soil_con s) ->
    for_each bs
      (fun band => s0 <- get ;;
         when (double_gt (AreaFract (soil_con s0) band) 0) (body veg band)) s =
    for_each (List.filter (fun band => double_gt (af band) 0) bs) (body veg) s).
  { intros veg bs. induction bs as [|band bs IH]; intros s Haf;
      [reflexivity|].
    cbn [for_each List.filter]. rewrite !bind_run. unfold get at 1.
    rewrite <- Haf.
    destruct (double_gt (af band) 0); cbn [when for_each].
    - rewrite bind_run. pose proof (Hbody veg band s) as Hk.
      destruct (body veg band s) as [[[]|k] s']; [|reflexivity].
      apply IH. unfold keeps_AreaFract in Hk. simpl in Hk. congruence.
    - unfold ret. apply IH, Haf. }
  assert (Hkeep : forall veg bs,
    changes keeps_AreaFract (for_each bs (body veg))).
  { intros veg bs. apply changes_for_each; unfold keeps_AreaFract;
      [reflexivity|congruence|auto]. }
  induction vegs as [|veg vegs IH]; intros s Haf; [reflexivity|].
  cbn [for_each flat_map]. rewrite for_each_app, !bind_run.
  destruct (double_gt (Cv (veg_con veg)) 0); cbn [when].
  - rewrite for_each_map, (Hinner veg bands s Haf).
    pose proof (Hkeep veg
      (List.filter (fun band => double_gt (af band) 0) bands) s) as Hk.
    cbn [fst snd].
    destruct (for_each _ (body veg) s) as [[[]|k] s']; [|reflexivity].
    apply IH. unfold keeps_AreaFract in Hk. simpl in Hk. congruence.
  - cbn [for_each]. unfold ret. apply IH, Haf.
Qed.

End Tiles.

(** *** Pre- and postconditions *)

Definition hoare {A} (P : state -> Prop) (m : M A)
  (Q : result A -> state -> Prop) : Prop :=
  forall s, P s -> Q (fst (m s)) (snd (m s)).

Lemma hoare_conseq {A} (P P' : state -> Prop) (m : M A)
  (Q Q' : result A -> state -> Prop) :
  (forall s, P s -> P' s) -> hoare P' m Q' ->
  (forall r s, Q' r s -> Q r s) -> hoare P m Q.
Proof. intros HP H HQ s Hs. apply HQ, H, HP, Hs. Qed.

(** A counted loop, with an invariant indexed by the number of completed
    iterations. *)
Lemma hoare_for_seq (n : nat) (body : nat -> M unit) (I : nat -> state -> Prop)
  (E : stop -> state -> Prop) :
  (forall j, j < n ->
     hoare (I j) (body j)
       (fun r s => match r with Ret _ => I (S j) s | Stop k => E k s end)) ->
  hoare (I 0) (for_each (seq 0 n) body)
    (fun r s => match r with Ret _ => I n s | Stop k => E k s end).
Proof.
  intros H.
  assert (G : forall len start, start + len = n ->
    hoare (I start) (for_each (seq start len) body)
      (fun r s => match r with Ret _ => I n s | Stop k => E k s end)).
  { induction len as [|len IH]; intros start Hn s Hs; cbn [seq for_each].
    - simpl. replace n with start by lia. exact Hs.
    - rewrite bind_run. assert (Hj : start < n) by lia.
      specialize (H start Hj s Hs).
      destruct (body start s) as [[[]|k] s']; simpl in H; [|exact H].
      apply (IH (S start)); [lia|exact H]. }
  apply (G n 0). lia.
Qed.

(** A loop over a list, with an invariant indexed by the elements already
    processed. *)
Lemma hoare_for_list {X} (l : list X) (body : X -> M unit)
  (I : list X -> state -> Prop) (E : stop -> state -> Prop) :
  (forall done x rest, l = done ++ x :: rest ->
     hoare (I done) (body x)
       (fun r s => match r with
                   | Ret _ => I (done ++ [x]) s
                   | Stop k => E k s
                   end)) ->
  hoare (I []) (for_each l body)
    (fun r s => match r with Ret _ => I l s | Stop k => E k s end).
Proof.
  intros H.
  assert (G : forall rest done, l = done ++ rest ->
    hoare (I done) (for_each rest body)
      (fun r s => match r with Ret _ => I l s | Stop k => E k s end)).
  { induction rest as [|x rest IH]; intros done Hl s Hs; cbn [for_each].
    - simpl. rewrite Hl, app_nil_r. exact Hs.
    - rewrite bind_run. specialize (H done x rest Hl s Hs).
      destruct (body x s) as [[[]|k] s']; simpl in H; [|exact H].
      apply (IH (done ++ [x])); [|exact H].
      rewrite <- app_assoc. exact Hl. }
  apply (G l []). reflexivity.
Qed.

(** *** What the copies between the tile's layers and the automatic arrays do *)

(** Everything but the automatic arrays. *)
Definition same_but_arrays (s s' : state) : Prop :=
  cell s' = cell s /\ energy s' = energy s /\ soil_con s' = soil_con s /\
  FIRST_VEG s' = FIRST_VEG s /\ trace s' = trace s.

Lemma same_but_arrays_refl s : same_but_arrays s s.
Proof. repeat split. Qed.

Lemma same_but_arrays_trans s1 s2 s3 :
  same_but_arrays s1 s2 -> same_but_arrays s2 s3 -> same_but_arrays s1 s3.
Proof.
  unfold same_but_arrays. intros (? & ? & ? & ? & ?) (? & ? & ? & ? & ?).
  repeat split; congruence.
Qed.

Section Copies.

Context (K : constants) (options : option_struct).

Definition holds_ice (veg band lidx n : nat) (c : cell_data_struct)
  (s : state) : Prop :=
  forall frost_area, frost_area < n ->
    ice_index_ok K veg band lidx frost_area = true /\
    ice s !! (veg, band, lidx, frost_area)
    = Some (Layer.ice (layer c lidx) frost_area).

Definition holds_moist (veg band lidx : nat) (c : cell_data_struct)
  (s : state) : Prop :=
  moist_index_ok K veg band lidx = true /\
  moist s !! (veg, band, lidx) = Some (Layer.moist (layer c lidx)).

Lemma snapshot_ice_spec veg band lidx s0 :
  hoare (fun s => s = s0) (snapshot_ice K options veg band lidx)
    (fun r s =>
       same_but_arrays s0 s /\ moist s = moist s0 /\
       (forall v b l fa, (v, b, l) <> (veg, band, lidx) ->
          ice s !! (v, b, l, fa) = ice s0 !! (v, b, l, fa)) /\
       match r with
       | Ret _ => holds_ice veg band lidx (Nfrost options) (cell s0 veg band) s
       | Stop k => k = OutOfRange
       end).
Proof.
  pose (F := fun s =>
    same_but_arrays s0 s /\ moist s = moist s0 /\
    forall v b l fa, (v, b, l) <> (veg, band, lidx) ->
      ice s !! (v, b, l, fa) = ice s0 !! (v, b, l, fa)).
  eapply hoare_conseq with
    (P' := fun s => F s /\ holds_ice veg band lidx 0 (cell s0 veg band) s)
    (Q' := fun r s =>
       match r with
       | Ret _ => F s /\
                  holds_ice veg band lidx (Nfrost options) (cell s0 veg band) s
       | Stop k => F s /\ k = OutOfRange
       end).
  - intros s ->. split.
    + split; [apply same_but_arrays_refl|]. split; [reflexivity|]. auto.
    + intros fa Hfa. lia.
  - apply hoare_for_seq with (I := fun j s =>
      F s /\ holds_ice veg band lidx j (cell s0 veg band) s).
    intros fa Hfa s [(HS & HM & HO) HI].
    unfold store_ice.
    destruct (ice_index_ok K veg band lidx fa) eqn:Hok;
      cbn [bind get modify halt fst snd].
    + assert (Hc : cell s veg band = cell s0 veg band).
      { destruct HS as [-> _]. reflexivity. }
      split; [split; [exact HS|split; [exact HM|]]|].
      * intros v b l fa' Hne. cbn [ice set_ice].
        rewrite lookup_insert_ne by congruence. apply HO, Hne.
      * intros fa' Hfa'. cbn [ice set_ice].
        destruct (Nat.eq_dec fa' fa) as [->|Hne].
        -- rewrite lookup_insert_eq, Hc. auto.
        -- rewrite lookup_insert_ne by congruence. apply HI. lia.
    + split; [|reflexivity]. split; [exact HS|split; [exact HM|exact HO]].
  - intros [[]|k] s; cbn beta iota.
    + intros [(HS & HM & HO) HI]. auto.
    + intros [(HS & HM & HO) ->]. auto.
Qed.


Lemma snapshot_layer_spec veg band lidx s0 :
  hoare (fun s => s = s0) (snapshot_layer K options veg band lidx)
    (fun r s =>
       same_but_arrays s0 s /\
       (forall v b l, (v, b, l) <> (veg, band, lidx) ->
          moist s !! (v, b, l) = moist s0 !! (v, b, l)) /\
       (forall v b l fa, (v, b, l) <> (veg, band, lidx) ->
          ice s !! (v, b, l, fa) = ice s0 !! (v, b, l, fa)) /\
       match r with
       | Ret _ =>
           holds_moist veg band lidx (cell s0 veg band) s /\
           holds_ice veg band lidx (Nfrost options) (cell s0 veg band) s
       | Stop k => k = OutOfRange
       end).
Proof.
  intros s ->. unfold snapshot_layer, store_moist.
  destruct (moist_index_ok K veg band lidx) eqn:Hok;
    cbn [bind get modify halt fst snd].
  - set (s1 := set_moist _ s0).
    pose proof (snapshot_ice_spec veg band lidx (s0:=s1) eq_refl) as H.
    destruct (snapshot_ice K options veg band lidx s1) as [r s2].
    cbn [fst snd] in *. destruct H as (HS & HM & HO & HR).
    split; [exact HS|]. split; [|split; [exact HO|]].
    + intros v b l Hne. rewrite HM. subst s1. cbn [moist set_moist].
      apply lookup_insert_ne. congruence.
    + destruct r as [[]|k]; [|exact HR]. split; [|exact HR].
      split; [exact Hok|]. rewrite HM. subst s1. cbn [moist set_moist].
      apply lookup_insert_eq.
  - split; [apply same_but_arrays_refl|]. auto.
Qed.

(** The tile's entries of the automatic arrays hold the layer values of
    [c]. *)
Definition holds_tile (veg band : nat) (c : cell_data_struct) (s : state) :
  Prop :=
  forall lidx, lidx < Nlayer options ->
    holds_moist veg band lidx c s /\
    holds_ice veg band lidx (Nfrost options) c s.

(** The entries of the other tiles are those of [s]. *)
Definition keeps_other_tiles (veg band : nat) (s s' : state) : Prop :=
  forall v b, (v, b) <> (veg, band) ->
    (forall lidx, moist s' !! (v, b, lidx) = moist s !! (v, b, lidx)) /\
    (forall lidx frost_area,
        ice s' !! (v, b, lidx, frost_area)
        = ice s !! (v, b, lidx, frost_area)).

Lemma snapshot_tile_spec veg band s0 :
  hoare (fun s => s = s0) (snapshot_tile K options veg band)
    (fun r s =>
       same_but_arrays s0 s /\ keeps_other_tiles veg band s0 s /\
       match r with
       | Ret _ => holds_tile veg band (cell s0 veg band) s
       | Stop k => k = OutOfRange
       end).
Proof.
  pose (c := cell s0 veg band).
  pose (F := fun s =>
    same_but_arrays s0 s /\ keeps_other_tiles veg band s0 s).
  pose (I := fun (j : nat) s =>
    F s /\ forall l, l < j ->
      holds_moist veg band l c s /\ holds_ice veg band l (Nfrost options) c s).
  eapply hoare_conseq with
    (P' := I 0)
    (Q' := fun r s => match r with
                      | Ret _ => I (Nlayer options) s
                      | Stop k => F s /\ k = OutOfRange
                      end).
  - intros s ->. split; [|intros l Hl; lia].
    split; [apply same_but_arrays_refl|]. intros v b _. auto.
  - apply hoare_for_seq with (I := I). intros lidx Hl s [[HS HK] HI].
    pose proof (snapshot_layer_spec veg band lidx (s0:=s) eq_refl) as H.
    destruct (snapshot_layer K options veg band lidx s) as [r s1].
    cbn [fst snd] in *. destruct H as (HS1 & HM & HO & HR).
    assert (HF : F s1).
    { split; [eapply same_but_arrays_trans; eassumption|].
      intros v b Hvb. destruct (HK v b Hvb) as [Hm Hi]. split.
      - intros l. rewrite HM by congruence. apply Hm.
      - intros l fa. rewrite HO by congruence. apply Hi. }
    destruct r as [[]|k]; [|auto].
    split; [exact HF|]. intros l Hlt.
    assert (Hc : cell s veg band = c).
    { destruct HS as [-> _]. reflexivity. }
    rewrite Hc in HR.
    destruct (Nat.eq_dec l lidx) as [->|Hne]; [exact HR|].
    assert (Hl' : l < lidx) by lia. destruct (HI l Hl') as [[Ho Hv] Hice].
    split; [split; [exact Ho|]|].
    + rewrite HM by congruence. exact Hv.
    + intros fa Hfa. destruct (Hice fa Hfa) as [Ho' Hv'].
      split; [exact Ho'|]. rewrite HO by congruence. exact Hv'.
  - intros [[]|k] s; cbn beta iota.
    + intros [[HS HK] HI]. auto.
    + intros [[HS HK] ->]. auto.
Qed.

End Copies.

(** Everything but [cell[veg][band].layer]. *)
Definition same_but_layers (veg band : nat) (s s' : state) : Prop :=
  (forall v b, (v, b) <> (veg, band) -> cell s' v b = cell s v b) /\
  asat (cell s' veg band) = asat (cell s veg band) /\
  zwt (cell s' veg band) = zwt (cell s veg band) /\
  energy s' = energy s /\ soil_con s' = soil_con s /\
  FIRST_VEG s' = FIRST_VEG s /\ trace s' = trace s /\
  moist s' = moist s /\ ice s' = ice s.

Lemma same_but_layers_refl veg band s : same_but_layers veg band s s.
Proof. repeat split. Qed.

Lemma same_but_layers_trans veg band s1 s2 s3 :
  same_but_layers veg band s1 s2 -> same_but_layers veg band s2 s3 ->
  same_but_layers veg band s1 s3.
Proof.
  unfold same_but_layers.
  intros (Ha & ? & ? & ? & ? & ? & ? & ? & ?)
         (Hb & ? & ? & ? & ? & ? & ? & ? & ?).
  split; [|repeat split; congruence].
  intros v b Hvb. rewrite (Hb v b Hvb). apply Ha, Hvb.
Qed.

Lemma same_but_layers_set veg band s c :
  asat c = asat (cell s veg band) -> zwt c = zwt (cell s veg band) ->
  same_but_layers veg band s (set_cell (upd2 (cell s) veg band c) s).
Proof.
  intros Ha Hz. unfold same_but_layers. cbn [cell set_cell].
  rewrite !upd2_same. split; [|repeat split; assumption].
  intros v b Hvb. apply upd2_other, Hvb.
Qed.

Section Restore.

Context (K : constants) (options : option_struct).

Lemma restore_ice_spec veg band lidx s0 :
  hoare (fun s => s = s0) (restore_ice K options veg band lidx)
    (fun r s =>
       same_but_layers veg band s0 s /\
       (forall l, l <> lidx ->
          layer (cell s veg band) l = layer (cell s0 veg band) l) /\
       Layer.moist (layer (cell s veg band) lidx)
       = Layer.moist (layer (cell s0 veg band) lidx) /\
       match r with
       | Ret _ =>
           forall frost_area, frost_area < Nfrost options ->
             ice s0 !! (veg, band, lidx, frost_area)
             = Some (Layer.ice (layer (cell s veg band) lidx) frost_area)
       | Stop k =>
           k <> Exited /\
           forall c, ~ holds_ice K veg band lidx (Nfrost options) c s0
       end).
Proof.
  pose (F := fun s =>
    same_but_layers veg band s0 s /\
    (forall l, l <> lidx ->
       layer (cell s veg band) l = layer (cell s0 veg band) l) /\
    Layer.moist (layer (cell s veg band) lidx)
    = Layer.moist (layer (cell s0 veg band) lidx)).
  pose (I := fun (j : nat) s =>
    F s /\ forall fa, fa < j ->
      ice s0 !! (veg, band, lidx, fa)
      = Some (Layer.ice (layer (cell s veg band) lidx) fa)).
  eapply hoare_conseq with
    (P' := I 0)
    (Q' := fun r s =>
       match r with
       | Ret _ => I (Nfrost options) s
       | Stop k =>
           F s /\ k <> Exited /\
           forall c, ~ holds_ice K veg band lidx (Nfrost options) c s0
       end).
  - intros s ->. split; [|intros fa Hfa; lia].
    split; [apply same_but_layers_refl|]. auto.
  - apply hoare_for_seq with (I := I). intros fa Hfa s [(HS & HL & HM) HI].
    assert (Hice : ice s = ice s0) by apply HS.
    unfold load_ice, bind, halt, modify.
    destruct (ice_index_ok K veg band lidx fa) eqn:Hok; cbn [fst snd].
    2:{ split; [exact (conj HS (conj HL HM))|]. split; [discriminate|].
        intros c Hc. destruct (Hc fa Hfa) as [E _]. congruence. }
    rewrite Hice.
    destruct (ice s0 !! (veg, band, lidx, fa)) as [y|] eqn:Hy;
      cbn [fst snd].
    2:{ split; [exact (conj HS (conj HL HM))|]. split; [discriminate|].
        intros c Hc. destruct (Hc fa Hfa) as [_ E]. congruence. }
    unfold I, F, assign_layer_ice. cbn [cell set_cell]. rewrite !upd2_same.
    cbn [layer with_layer_ice with_layer]. rewrite !upd1_same.
    cbn [Layer.ice Layer.moist].
    split; [split; [|split]|].
    + eapply same_but_layers_trans; [exact HS|].
      apply same_but_layers_set; reflexivity.
    + intros l Hl. rewrite upd1_other by exact Hl. apply HL, Hl.
    + exact HM.
    + intros fa' Hfa'. destruct (Nat.eq_dec fa' fa) as [->|Hne].
      * rewrite upd1_same. exact Hy.
      * rewrite upd1_other by exact Hne. apply HI. lia.
  - intros [[]|k] s; cbn beta iota.
    + intros [(HS & HL & HM) HI]. auto.
    + intros [(HS & HL & HM) HI]. auto.
Qed.


Lemma restore_layer_spec veg band lidx s0 :
  hoare (fun s => s = s0) (restore_layer K options veg band lidx)
    (fun r s =>
       same_but_layers veg band s0 s /\
       (forall l, l <> lidx ->
          layer (cell s veg band) l = layer (cell s0 veg band) l) /\
       match r with
       | Ret _ =>
           moist s0 !! (veg, band, lidx)
           = Some (Layer.moist (layer (cell s veg band) lidx)) /\
           forall frost_area, frost_area < Nfrost options ->
             ice s0 !! (veg, band, lidx, frost_area)
             = Some (Layer.ice (layer (cell s veg band) lidx) frost_area)
       | Stop k =>
           k <> Exited /\
           forall c, ~ (holds_moist K veg band lidx c s0 /\
                        holds_ice K veg band lidx (Nfrost options) c s0)
       end).
Proof.
  intros s ->. unfold restore_layer, load_moist.
  rewrite bind_run.
  destruct (moist_index_ok K veg band lidx) eqn:Hok; cbn [halt fst snd].
  2:{ split; [apply same_but_layers_refl|]. split; [reflexivity|].
      split; [discriminate|]. intros c [[E _] _]. congruence. }
  destruct (moist s0 !! (veg, band, lidx)) as [x|] eqn:Hx; cbn [fst snd].
  2:{ split; [apply same_but_layers_refl|]. split; [reflexivity|].
      split; [discriminate|]. intros c [[_ E] _]. congruence. }
  rewrite bind_run. cbn [modify].
  set (s1 := assign_layer_moist veg band lidx x s0).
  assert (H01 : same_but_layers veg band s0 s1).
  { apply same_but_layers_set; reflexivity. }
  assert (Hl1 : forall l, l <> lidx ->
    layer (cell s1 veg band) l = layer (cell s0 veg band) l).
  { intros l Hl. subst s1. unfold assign_layer_moist. cbn [cell set_cell].
    rewrite upd2_same. cbn [layer with_layer_moist with_layer].
    apply upd1_other, Hl. }
  assert (Hm1 : Layer.moist (layer (cell s1 veg band) lidx) = x).
  { subst s1. unfold assign_layer_moist. cbn [cell set_cell].
    rewrite upd2_same. cbn [layer with_layer_moist with_layer].
    rewrite upd1_same. reflexivity. }
  assert (Hice : ice s1 = ice s0) by reflexivity.
  pose proof (restore_ice_spec veg band lidx (s0:=s1) eq_refl) as H.
  destruct (restore_ice K options veg band lidx s1) as [r s2].
  cbn [fst snd] in *. destruct H as (HS & HL & HM & HR).
  split; [eapply same_but_layers_trans; eassumption|].
  split; [intros l Hl; rewrite HL by exact Hl; apply Hl1, Hl|].
  destruct r as [[]|k].
  - split; [congruence|]. intros fa Hfa. rewrite <- Hice. apply HR, Hfa.
  - destruct HR as [Hk Hn]. split; [exact Hk|]. intros c [_ Hc].
    apply (Hn c). intros fa Hfa. rewrite Hice. apply Hc, Hfa.
Qed.

Lemma restore_tile_spec veg band s0 :
  hoare (fun s => s = s0) (restore_tile K options veg band)
    (fun r s =>
       same_but_layers veg band s0 s /\
       match r with
       | Ret _ =>
           forall lidx, lidx < Nlayer options ->
             moist s0 !! (veg, band, lidx)
             = Some (Layer.moist (layer (cell s veg band) lidx)) /\
             forall frost_area, frost_area < Nfrost options ->
               ice s0 !! (veg, band, lidx, frost_area)
               = Some (Layer.ice (layer (cell s veg band) lidx) frost_area)
       | Stop k =>
           k <> Exited /\ forall c, ~ holds_tile K options veg band c s0
       end).
Proof.
  pose (I := fun (j : nat) s =>
    same_but_layers veg band s0 s /\
    forall l, l < j ->
      moist s0 !! (veg, band, l)
      = Some (Layer.moist (layer (cell s veg band) l)) /\
      forall fa, fa < Nfrost options ->
        ice s0 !! (veg, band, l, fa)
        = Some (Layer.ice (layer (cell s veg band) l) fa)).
  eapply hoare_conseq with
    (P' := I 0)
    (Q' := fun r s =>
       match r with
       | Ret _ => I (Nlayer options) s
       | Stop k =>
           same_but_layers veg band s0 s /\ k <> Exited /\
           forall c, ~ holds_tile K options veg band c s0
       end).
  - intros s ->. split; [apply same_but_layers_refl|]. intros l Hl. lia.
  - apply hoare_for_seq with (I := I). intros lidx Hl s [HS HI].
    pose proof (restore_layer_spec veg band lidx (s0:=s) eq_refl) as H.
    destruct (restore_layer K options veg band lidx s) as [r s1].
    cbn [fst snd] in *. destruct H as (HS1 & HL & HR).
    assert (Hm : moist s = moist s0) by apply HS.
    assert (Hi : ice s = ice s0) by apply HS.
    assert (HS01 : same_but_layers veg band s0 s1).
    { eapply same_but_layers_trans; eassumption. }
    destruct r as [[]|k].
    + split; [exact HS01|]. intros l Hlt.
      destruct (Nat.eq_dec l lidx) as [->|Hne].
      * rewrite <- Hm, <- Hi. exact HR.
      * rewrite (HL l Hne). apply HI. lia.
    + destruct HR as [Hk Hn]. split; [exact HS01|]. split; [exact Hk|].
      intros c Hc. apply (Hn c). destruct (Hc lidx Hl) as [[Ho Hv] Hice].
      split; [split; [exact Ho|rewrite Hm; exact Hv]|].
      intros fa Hfa. rewrite Hi. apply Hice, Hfa.
  - intros [[]|k] s; cbn beta iota.
    + intros [HS HI]. auto.
    + intros (HS & Hk & Hn). auto.
Qed.

(** The row handed to a callee. *)
Lemma moist_row_spec veg band s :
  match fst (moist_row K options veg band s) with
  | Ret _ => True
  | Stop k => k <> Exited /\ forall c, ~ holds_tile K options veg band c s
  end.
Proof.
  unfold moist_row.
  assert (G : forall n start,
    match fst (load_row K veg band (seq start n) s) with
    | Ret _ => True
    | Stop k =>
        k <> Exited /\
        exists l, start <= l < start + n /\
          forall c, ~ holds_moist K veg band l c s
    end).
  { induction n as [|n IH]; intros start; cbn [seq load_row]; [exact I|].
    rewrite bind_run. unfold load_moist at 1.
    destruct (moist_index_ok K veg band start) eqn:Hok; cbn [halt fst snd].
    2:{ split; [discriminate|]. exists start. split; [lia|].
        intros c [E _]. congruence. }
    destruct (moist s !! (veg, band, start)) eqn:Hx; cbn [fst snd].
    2:{ split; [discriminate|]. exists start. split; [lia|].
        intros c [_ E]. congruence. }
    rewrite bind_run. specialize (IH (S start)).
    pose proof (load_row_state K veg band (seq (S start) n) s) as Hs.
    destruct (load_row K veg band (seq (S start) n) s) as [[xs|k] s1];
      cbn [fst snd] in *; [exact I|].
    destruct IH as [Hk (l & Hl & Hn)]. split; [exact Hk|].
    exists l. split; [lia|exact Hn]. }
  specialize (G (Nlayer options) 0).
  destruct (fst (load_row _ _ _ _ _)) as [xs|k]; [exact I|].
  destruct G as [Hk (l & Hl & Hn)]. split; [exact Hk|].
  intros c Hc. apply (Hn c). apply Hc. lia.
Qed.

End Restore.

(** *** What the events of a run say *)

(** The tile of a first-pass event. *)
Definition pass1_tile (e : event) : option (nat * nat) :=
  match e with
  | runoff_asat_call veg band _ => Some (veg, band)
  | _ => None
  end.

(** The tile of a call of one of the two ice-content estimators. *)
Definition estimate_tile (e : event) : option (nat * nat) :=
  match e with
  | quick_flux_call veg band _ _ _ _ _ _ => Some (veg, band)
  | ice_content_call veg band _ _ _ _ _ => Some (veg, band)
  | _ => None
  end.

Definition first_pass_tiles (tr : list event) : list (nat * nat) :=
  omap pass1_tile tr.
Definition second_pass_tiles (tr : list event) : list (nat * nat) :=
  omap estimate_tile tr.

(** The layers an estimator was handed. *)
Definition layer_in_of (e : event) :
  option (nat * nat * (nat -> Layer.layer_data_struct)) :=
  match e with
  | quick_flux_call veg band _ l _ _ _ _ => Some (veg, band, l)
  | ice_content_call veg band _ l _ _ _ => Some (veg, band, l)
  | _ => None
  end.

(** The soil parameters a second-pass routine was handed. *)
Definition soil_seen (e : event) : option soil_con_struct :=
  match e with
  | distribute_call _ _ c _ _ => Some c
  | quick_flux_call _ _ c _ _ _ _ _ => Some c
  | ice_content_call _ _ c _ _ _ _ => Some c
  | fronts_call _ _ c => Some c
  | _ => None
  end.

Definition is_first_pass_event (e : event) : Prop :=
  match e with
  | runoff_asat_call _ _ _ | zwt_call _ _ => True
  | _ => False
  end.

(** An event of the second pass after the node parameters are set: one of
    the four per-tile calls, handed the soil parameters [c], or a report. *)
Definition is_tile_event (c : soil_con_struct) (e : event) : Prop :=
  match e with
  | runoff_asat_call _ _ _ | zwt_call _ _ | node_parameters_call => False
  | logged _ => True
  | _ => soil_seen e = Some c
  end.

Section Discipline.

Context (K : constants) (X : collaborators) (options : option_struct)
  (global_param : global_param_struct).

(** An event after which the run goes on. *)
Definition quiet (e : event) : Prop :=
  match e with
  | distribute_call _ _ _ _ flag => flag <> ERROR K
  | quick_flux_call _ _ _ _ _ _ flag _ => flag <> ERROR K
  | ice_content_call _ _ _ _ _ flag _ => flag <> ERROR K
  | logged _ => False
  | _ => True
  end.

(** The four ways a run ends in [log_err]. *)
Inductive alarm : list event -> Prop :=
| alarm_node_properties veg band c row :
    alarm [distribute_call veg band c row (ERROR K);
           logged node_properties_failed]
| alarm_explicit_step dz Cs kappa :
    FROZEN_SOIL options = true -> QUICK_FLUX options = false ->
    IMPLICIT options = false ->
    PrimFloat.ltb (0.5 * Cs / kappa * pow X dz 2) (dt global_param) = true ->
    alarm [logged (explicit_step_too_large (dt global_param) dz Cs kappa
                     (0.5 * Cs / kappa * pow X dz 2))]
| alarm_quick_flux veg band c l T0 T1 l' :
    alarm [quick_flux_call veg band c l T0 T1 (ERROR K) l';
           logged quick_flux_failed]
| alarm_ice_content veg band c l T l' :
    alarm [ice_content_call veg band c l T (ERROR K) l';
           logged ice_content_failed].

(** What the events [tr] show of how the run went on or ended. *)
Definition disciplined (r : result unit) (tr : list event) : Prop :=
  match r with
  | Stop Exited =>
      exists before tail,
        tr = before ++ tail /\ Forall quiet before /\ alarm tail
  | _ => Forall quiet tr
  end.

(** The layers handed to an estimator for tile [(veg, band)] carry the
    moisture and ice of [c]. *)
Definition restored_from (veg band : nat) (c : cell_data_struct)
  (e : event) : Prop :=
  forall v b l, layer_in_of e = Some (v, b, l) ->
    (v, b) = (veg, band) /\
    forall lidx, lidx < Nlayer options ->
      Layer.moist (l lidx) = Layer.moist (layer c lidx) /\
      forall frost_area, frost_area < Nfrost options ->
        Layer.ice (l lidx) frost_area = Layer.ice (layer c lidx) frost_area.

End Discipline.

Section TileSpecs.

Context (K : constants) (X : collaborators).
Context (options : option_struct) (global_param : global_param_struct).

Lemma holds_tile_same veg band c s s' :
  moist s' = moist s -> ice s' = ice s ->
  holds_tile K options veg band c s -> holds_tile K options veg band c s'.
Proof.
  intros Hm Hi H l Hl. destruct (H l Hl) as [[Ho Hv] Hice].
  split; [split; [exact Ho|rewrite Hm; exact Hv]|].
  intros fa Hfa. rewrite Hi. apply Hice, Hfa.
Qed.

(** The first pass on one tile (lines 76-92). *)
Lemma first_pass_tile_spec veg band s0 :
  hoare (fun s => s = s0) (first_pass_tile K X options veg band)
    (fun r s =>
       keeps_other_tiles veg band s0 s /\
       (forall v b, (v, b) <> (veg, band) -> cell s v b = cell s0 v b) /\
       energy s = energy s0 /\ soil_con s = soil_con s0 /\
       FIRST_VEG s = FIRST_VEG s0 /\
       match r with
       | Ret _ =>
           holds_tile K options veg band (cell s0 veg band) s /\
           exists row,
             trace s = trace s0 ++ [runoff_asat_call veg band row;
                                    zwt_call veg band]
       | Stop k => k = OutOfRange /\ trace s = trace s0
       end).
Proof.
  intros s ->. unfold first_pass_tile. rewrite bind_run.
  pose proof (snapshot_tile_spec K options veg band (s0:=s0) eq_refl) as H.
  destruct (snapshot_tile K options veg band s0) as [r s1].
  cbn [fst snd] in H. destruct H as ((Hc & He & Hs & Hf & Ht) & HK & HR).
  destruct r as [[]|k].
  2:{ cbn [fst snd]. rewrite Hc, He, Hs, Hf, Ht. auto 10. }
  rewrite bind_run.
  pose proof (moist_row_spec K options veg band s1) as Hrow.
  pose proof (moist_row_state K options veg band s1) as Hst.
  destruct (moist_row K options veg band s1) as [[row|k] s2];
    cbn [fst snd] in Hrow, Hst; subst s2.
  2:{ destruct Hrow as [_ Hn]. exfalso. exact (Hn _ HR). }
  cbn [bind modify fst snd]. unfold call_wrap_compute_zwt,
    call_compute_runoff_and_asat.
  destruct (compute_runoff_and_asat X (soil_con s1) row 0) as [A runoff].
  cbn [cell energy soil_con FIRST_VEG trace moist ice emit set_tmp_runoff
         set_cell].
  split; [exact HK|]. split.
  { intros v b Hvb. rewrite !upd2_other by exact Hvb. now rewrite Hc. }
  split; [exact He|]. split; [exact Hs|]. split; [exact Hf|]. split.
  - intros l Hl. apply HR, Hl.
  - exists row. rewrite Ht, <- app_assoc. reflexivity.
Qed.

End TileSpecs.

(** *** The steps of the second pass on one tile *)

Lemma bind_assoc {A B C} (m : M A) (f : A -> M B) (g : B -> M C) s :
  bind (bind m f) g s = bind m (fun a => bind (f a) g) s.
Proof. rewrite !bind_run. destruct (m s) as [[a|k] s']; reflexivity. Qed.

(** [Forall] over an explicit list, each element by [tac]. *)
Ltac forall_list tac :=
  cbn [app]; repeat (apply List.Forall_cons; [tac|]); apply List.Forall_nil.
Ltac tile_event_ok := first [exact I | reflexivity].
Ltac no_layers := let E := fresh in intros ? ? ? E; discriminate E.

Section TileSteps.

Context (K : constants) (X : collaborators).
Context (options : option_struct) (global_param : global_param_struct).

Local Abbreviation quiet := (quiet K).
Local Abbreviation disciplined := (disciplined K X options global_param).
Local Abbreviation alarm := (alarm K X options global_param).
Local Abbreviation holds_tile := (holds_tile K options).
Local Abbreviation restored_from := (restored_from options).

(** What the steps after the node parameters leave as it is. *)
Definition second_pass_frame (s s' : state) : Prop :=
  moist s' = moist s /\ ice s' = ice s /\ FIRST_VEG s' = FIRST_VEG s /\
  soil_con s' = soil_con s.

(** The events [new] of steps of tile [(veg, band)] that ended with [r];
    [ts] lists the tiles whose estimator ran to its end. *)
Definition tile_events (veg band : nat) (c : cell_data_struct)
  (soil : soil_con_struct) (ts : list (nat * nat)) (r : result unit)
  (new : list event) : Prop :=
  Forall (is_tile_event soil) new /\
  Forall (restored_from veg band c) new /\
  first_pass_tiles new = [] /\
  (r = Ret tt -> second_pass_tiles new = ts) /\
  disciplined r new.

Definition tile_step (veg band : nat) (c : cell_data_struct)
  (ts : list (nat * nat)) (m : M unit) : Prop :=
  forall s, holds_tile veg band c s ->
    second_pass_frame s (snd (m s)) /\
    fst (m s) <> Stop Uninitialised /\ fst (m s) <> Stop OutOfRange /\
    exists new,
      trace (snd (m s)) = trace s ++ new /\
      tile_events veg band c (soil_con s) ts (fst (m s)) new.

Lemma disciplined_app r tr1 tr2 :
  Forall quiet tr1 -> disciplined r tr2 -> disciplined r (tr1 ++ tr2).
Proof.
  intros H1 H2. destruct r as [[]|[]]; cbn in *;
    try (apply Forall_app; split; assumption).
  destruct H2 as (before & tail & -> & Hq & Ha).
  exists (tr1 ++ before), tail. rewrite app_assoc.
  split; [reflexivity|]. split; [|exact Ha].
  apply Forall_app. split; assumption.
Qed.

Lemma tile_events_app veg band c soil ts1 ts2 r new1 new2 :
  tile_events veg band c soil ts1 (Ret tt) new1 ->
  tile_events veg band c soil ts2 r new2 ->
  tile_events veg band c soil (ts1 ++ ts2) r (new1 ++ new2).
Proof.
  intros (A1 & B1 & C1 & D1 & E1) (A2 & B2 & C2 & D2 & E2).
  unfold tile_events, first_pass_tiles, second_pass_tiles in *.
  rewrite !omap_app, C1, C2, (D1 eq_refl).
  split; [apply Forall_app; split; assumption|].
  split; [apply Forall_app; split; assumption|].
  split; [reflexivity|]. split.
  - intros Hr. now rewrite (D2 Hr).
  - apply disciplined_app; assumption.
Qed.

Lemma tile_step_seq veg band c ts1 ts2 (m1 m2 : M unit) :
  tile_step veg band c ts1 m1 -> tile_step veg band c ts2 m2 ->
  tile_step veg band c (ts1 ++ ts2) (m1 ;; m2).
Proof.
  intros H1 H2 s Hs. rewrite bind_run.
  destruct (H1 s Hs) as ((Hm & Hi & Hf & Hc) & Hu & Ho & new1 & Ht & He).
  destruct (m1 s) as [[[]|k] s1]; cbn [fst snd] in *.
  - assert (Hs1 : holds_tile veg band c s1).
    { eapply holds_tile_same; eassumption. }
    destruct (H2 s1 Hs1)
      as ((Hm2 & Hi2 & Hf2 & Hc2) & Hu2 & Ho2 & new2 & Ht2 & He2).
    split; [repeat split; congruence|].
    split; [exact Hu2|]. split; [exact Ho2|].
    exists (new1 ++ new2). split; [rewrite Ht2, Ht; symmetry; apply app_assoc|].
    rewrite Hc in He2. apply tile_events_app; assumption.
  - split; [repeat split; assumption|].
    split; [exact Hu|]. split; [exact Ho|].
    exists new1. split; [exact Ht|].
    destruct He as (A1 & B1 & C1 & D1 & E1).
    repeat split; try assumption. discriminate.
Qed.


Lemma tile_events_nil veg band c soil :
  tile_events veg band c soil [] (Ret tt) [].
Proof. repeat split; constructor. Qed.

Lemma second_pass_frame_refl s : second_pass_frame s s.
Proof. repeat split. Qed.

Lemma tile_step_ret veg band c : tile_step veg band c [] (ret tt).
Proof.
  intros s _. cbn [ret fst snd]. split; [apply second_pass_frame_refl|].
  split; [discriminate|]. split; [discriminate|].
  exists []. rewrite app_nil_r. split; [reflexivity|apply tile_events_nil].
Qed.

(** Lines 126-152. *)
Lemma node_moisture_step veg band c :
  tile_step veg band c [] (node_moisture K X options veg band).
Proof.
  unfold node_moisture.
  destruct (FULL_ENERGY options || FROZEN_SOIL options);
    [|apply tile_step_ret].
  intros s Hs. cbn [when]. rewrite bind_run.
  pose proof (moist_row_spec K options veg band s) as Hrow.
  pose proof (moist_row_state K options veg band s) as Hst.
  destruct (moist_row K options veg band s) as [[row|k] s1];
    cbn [fst snd] in Hrow, Hst; subst s1.
  2:{ destruct Hrow as [_ Hn]. exfalso. exact (Hn _ Hs). }
  rewrite bind_run. unfold call_distribute.
  destruct (distribute_node_moisture_properties _ _ _ _ _ _ _ _ _ _ _ _ _ _
              _ _ _ _ _ _ _) as [flag out].
  destruct (Z.eqb_spec flag (ERROR K)) as [->|Hflag];
    cbn [when log_err ret fst snd].
  - split; [repeat split|]. split; [discriminate|]. split; [discriminate|].
    eexists. cbn [trace emit set_ErrorFlag set_energy].
    rewrite <- app_assoc. split; [reflexivity|].
    split; [forall_list tile_event_ok|].
    split; [forall_list no_layers|].
    split; [reflexivity|]. split; [discriminate|].
    exists []. eexists. split; [reflexivity|].
    split; [constructor|apply alarm_node_properties].
  - split; [repeat split|]. split; [discriminate|]. split; [discriminate|].
    eexists. cbn [trace emit set_ErrorFlag set_energy].
    split; [reflexivity|].
    split; [forall_list tile_event_ok|].
    split; [forall_list no_layers|].
    split; [reflexivity|]. split; [reflexivity|].
    forall_list ltac:(exact Hflag).
Qed.

(** Lines 158-183. *)
Lemma check_node_spacing_step veg band c :
  tile_step veg band c []
    (check_node_spacing X options global_param veg band).
Proof.
  unfold check_node_spacing.
  destruct (FROZEN_SOIL options) eqn:Hfs; [|apply tile_step_ret].
  destruct (QUICK_FLUX options) eqn:Hqf; [apply tile_step_ret|].
  destruct (IMPLICIT options) eqn:Him; [apply tile_step_ret|].
  intros s Hs. cbn [andb negb when bind get modify].
  destruct (double_gt _ _) eqn:Hgt; cbn [when log_err ret fst snd].
  - split; [repeat split|]. split; [discriminate|]. split; [discriminate|].
    eexists. cbn [trace emit set_dt_thresh]. split; [reflexivity|].
    split; [forall_list tile_event_ok|].
    split; [forall_list no_layers|].
    split; [reflexivity|]. split; [discriminate|].
    exists []. eexists. split; [reflexivity|]. split; [constructor|].
    apply alarm_explicit_step; assumption.
  - split; [repeat split|]. split; [discriminate|]. split; [discriminate|].
    exists []. cbn [trace set_dt_thresh]. rewrite app_nil_r.
    split; [reflexivity|apply tile_events_nil].
Qed.


Lemma restored_layers veg band c s s3 :
  holds_tile veg band c s ->
  (forall lidx, lidx < Nlayer options ->
     moist s !! (veg, band, lidx)
     = Some (Layer.moist (layer (cell s3 veg band) lidx)) /\
     forall frost_area, frost_area < Nfrost options ->
       ice s !! (veg, band, lidx, frost_area)
       = Some (Layer.ice (layer (cell s3 veg band) lidx) frost_area)) ->
  forall e v b l,
    layer_in_of e = Some (v, b, l) ->
    (v, b, l) = (veg, band, layer (cell s3 veg band)) ->
    (v, b) = (veg, band) /\
    forall lidx, lidx < Nlayer options ->
      Layer.moist (l lidx) = Layer.moist (layer c lidx) /\
      forall frost_area, frost_area < Nfrost options ->
        Layer.ice (l lidx) frost_area = Layer.ice (layer c lidx) frost_area.
Proof.
  intros Hs HR e v b l _ E. inversion E; subst. split; [reflexivity|].
  intros lidx Hl. destruct (Hs lidx Hl) as [[_ Hm] Hi].
  destruct (HR lidx Hl) as [Hm' Hi']. split; [congruence|].
  intros fa Hfa. destruct (Hi fa Hfa) as [_ Hv].
  specialize (Hi' fa Hfa). congruence.
Qed.

(** Lines 186-230: the write-back and the estimator. *)
Lemma restore_estimate_step veg band c :
  tile_step veg band c [(veg, band)]
    (restore_tile K options veg band ;; ice_content K X options veg band).
Proof.
  intros s Hs. rewrite bind_run.
  pose proof (restore_tile_spec K options veg band (s0:=s) eq_refl) as H.
  destruct (restore_tile K options veg band s) as [r s3].
  cbn [fst snd] in H. destruct H as [HS HR].
  destruct r as [[]|k]; [|destruct HR as [_ Hn]; exfalso; exact (Hn _ Hs)].
  destruct HS as (_ & _ & _ & He & Hc & Hf & Ht & Hm & Hi).
  pose proof (@restored_layers veg band c s s3 Hs HR) as Hlay.
  unfold ice_content.
  destruct (QUICK_FLUX options); rewrite bind_run;
    unfold call_quick_flux, call_ice_content;
    match goal with
    | |- context [estimate_layer_ice_content_quick_flux X ?a1 ?a2 ?a3 ?a4
                    ?a5 ?a6 ?a7 ?a8 ?a9 ?a10 ?a11 ?a12] =>
        destruct (estimate_layer_ice_content_quick_flux X a1 a2 a3 a4 a5 a6
                    a7 a8 a9 a10 a11 a12) as [flag l']
    | |- context [estimate_layer_ice_content X ?a1 ?a2 ?a3 ?a4
                    ?a5 ?a6 ?a7 ?a8 ?a9 ?a10 ?a11 ?a12] =>
        destruct (estimate_layer_ice_content X a1 a2 a3 a4 a5 a6
                    a7 a8 a9 a10 a11 a12) as [flag l']
    end;
    (destruct (Z.eqb_spec flag (ERROR K)) as [->|Hflag];
     cbn [when log_err ret fst snd];
     (split; [repeat split; assumption|]);
     (split; [discriminate|]); (split; [discriminate|]);
     eexists; cbn [trace emit set_ErrorFlag set_cell];
     rewrite ?Ht, <- ?app_assoc, ?Hc;
     (split; [reflexivity|]);
     (split; [forall_list tile_event_ok|]);
     (split;
      [forall_list
         ltac:(first [no_layers
                     | intros v b l E; apply (Hlay _ v b l E);
                       cbn in E; congruence])|]);
     (split; [reflexivity|])).
  - split; [discriminate|]. exists []. eexists. split; [reflexivity|].
    split; [constructor|apply alarm_quick_flux].
  - split; [reflexivity|]. forall_list ltac:(exact Hflag).
  - split; [discriminate|]. exists []. eexists. split; [reflexivity|].
    split; [constructor|apply alarm_ice_content].
  - split; [reflexivity|]. forall_list ltac:(exact Hflag).
Qed.

(** Lines 233-238. *)
Lemma fronts_step veg band c :
  tile_step veg band c [] (fronts X options veg band).
Proof.
  intros s Hs. unfold fronts. cbn [bind get].
  destruct (negb (QUICK_FLUX options) && FS_ACTIVE (soil_con s));
    cbn [when modify ret fst snd].
  - split; [repeat split|]. split; [discriminate|]. split; [discriminate|].
    eexists. cbn [trace emit call_find_0_degree_fronts set_energy].
    split; [reflexivity|].
    split; [forall_list tile_event_ok|].
    split; [forall_list no_layers|].
    split; [reflexivity|]. split; [reflexivity|].
    forall_list ltac:(exact I).
  - apply (tile_step_ret (veg:=veg) (band:=band) (c:=c) Hs).
Qed.

Lemma tile_step_ext veg band c ts (m m' : M unit) :
  (forall s, m s = m' s) -> tile_step veg band c ts m ->
  tile_step veg band c ts m'.
Proof. intros E H s Hs. rewrite <- E. apply H, Hs. Qed.

(** Lines 126-238: the tile's steps once the node parameters are set. *)
Definition tile_after_parameters (veg band : nat) : M unit :=
  node_moisture K X options veg band ;;
  check_node_spacing X options global_param veg band ;;
  restore_tile K options veg band ;;
  ice_content K X options veg band ;;
  fronts X options veg band.

Lemma tile_after_parameters_step veg band c :
  tile_step veg band c [(veg, band)] (tile_after_parameters veg band).
Proof.
  unfold tile_after_parameters.
  apply (tile_step_seq (ts1:=[])); [apply node_moisture_step|].
  apply (tile_step_seq (ts1:=[])); [apply check_node_spacing_step|].
  apply (tile_step_ext
           (m := (restore_tile K options veg band ;;
                  ice_content K X options veg band) ;;
                 fronts X options veg band));
    [intros s; apply bind_assoc|].
  apply (tile_step_seq (ts1:=[(veg, band)]) (ts2:=[]));
    [apply restore_estimate_step|].
  apply fronts_step.
Qed.

End TileSteps.

Section SecondPassTile.

Context (K : constants) (X : collaborators).
Context (options : option_struct) (global_param : global_param_struct).

(** Lines 111-238: the second pass on one tile whose entries of the
    automatic arrays were filled by the first pass. *)
Lemma second_pass_tile_spec veg band c s fv :
  FIRST_VEG s = Some fv ->
  holds_tile K options veg band c s ->
  let soil' :=
    if fv then node_parameters_set X options (soil_con s) else soil_con s in
  let rs := second_pass_tile K X options global_param veg band s in
  moist (snd rs) = moist s /\ ice (snd rs) = ice s /\
  FIRST_VEG (snd rs) = Some false /\ soil_con (snd rs) = soil' /\
  fst rs <> Stop Uninitialised /\ fst rs <> Stop OutOfRange /\
  exists new,
    trace (snd rs)
    = trace s ++ (if fv then [node_parameters_call] else []) ++ new /\
    tile_events K X options global_param veg band c soil' [(veg, band)]
      (fst rs) new.
Proof.
  intros Hfv Hs soil' rs. subst rs. unfold second_pass_tile.
  rewrite bind_run. unfold node_parameters_once. cbn [bind get].
  rewrite Hfv.
  set (rest := (node_moisture K X options veg band ;; _)).
  change rest with (tile_after_parameters K X options global_param veg band).
  clear rest.
  destruct fv; cbn [bind modify ret fst snd].
  - set (s1 := call_set_node_parameters X options (set_FIRST_VEG false s)).
    assert (Hs1 : holds_tile K options veg band c s1).
    { eapply holds_tile_same; [| |exact Hs]; reflexivity. }
    destruct (@tile_after_parameters_step K X options global_param veg
                band c s1 Hs1)
      as ((Hm & Hi & Hf & Hc) & Hu & Ho & new & Ht & He).
    split; [exact Hm|]. split; [exact Hi|]. split; [exact Hf|].
    split; [exact Hc|]. split; [exact Hu|]. split; [exact Ho|].
    exists new. split; [|exact He].
    rewrite Ht. subst s1. cbn [trace emit call_set_node_parameters
                                 set_soil_con set_FIRST_VEG].
    now rewrite <- app_assoc.
  - destruct (@tile_after_parameters_step K X options global_param veg
                band c s Hs)
      as ((Hm & Hi & Hf & Hc) & Hu & Ho & new & Ht & He).
    split; [exact Hm|]. split; [exact Hi|]. split; [congruence|].
    split; [exact Hc|]. split; [exact Hu|]. split; [exact Ho|].
    exists new. split; [exact Ht|exact He].
Qed.

End SecondPassTile.

(** *** The two passes over the selected tiles *)

Lemma holds_tile_other K options veg band v b c s s' :
  keeps_other_tiles veg band s s' -> (v, b) <> (veg, band) ->
  holds_tile K options v b c s -> holds_tile K options v b c s'.
Proof.
  intros HK Hne H l Hl. destruct (HK v b Hne) as [Hm Hi].
  destruct (H l Hl) as [[Ho Hv] Hice].
  split; [split; [exact Ho|rewrite Hm; exact Hv]|].
  intros fa Hfa. rewrite Hi. apply Hice, Hfa.
Qed.

Lemma first_pass_events_tiles tr :
  Forall is_first_pass_event tr -> second_pass_tiles tr = [].
Proof.
  induction 1 as [|e tr He _ IH]; [reflexivity|].
  destruct e; try contradiction; exact IH.
Qed.

Lemma first_pass_events_layers tr e v b l :
  Forall is_first_pass_event tr -> In e tr -> layer_in_of e <> Some (v, b, l).
Proof.
  intros H Hin. rewrite List.Forall_forall in H. specialize (H e Hin).
  destruct e; try contradiction; discriminate.
Qed.

Section Run.

Context (K : constants) (X : collaborators).
Context (options : option_struct) (global_param : global_param_struct).
Context (veg_con : nat -> veg_con_struct).
Context (all_vars : AllVars.all_vars_struct) (soil0 : soil_con_struct).

Local Abbreviation s0 := (entry all_vars soil0).
Local Abbreviation sel := (selected_tiles options veg_con (AreaFract soil0)).
Local Abbreviation cell0 := (AllVars.cell all_vars).
Local Abbreviation P1 :=
  (fun t : nat * nat => first_pass_tile K X options (fst t) (snd t)).
Local Abbreviation P2 :=
  (fun t : nat * nat =>
     second_pass_tile K X options global_param (fst t) (snd t)).
Local Abbreviation holds_tile := (holds_tile K options).

(** The function as two loops over the tiles selected on entry. *)
Lemma body_flat s :
  body K X options global_param veg_con s =
  (for_each (selected_tiles options veg_con (AreaFract (soil_con s))) P1 ;;
   modify (set_FIRST_VEG true) ;;
   for_each (selected_tiles options veg_con (AreaFract (soil_con s))) P2) s.
Proof.
  unfold body. rewrite !bind_run.
  rewrite for_tiles_flat
    by (intros veg band s'; apply first_pass_tile_rel).
  assert (Hk : changes keeps_AreaFract
    (for_each (selected_tiles options veg_con (AreaFract (soil_con s))) P1)).
  { apply changes_for_each; unfold keeps_AreaFract;
      [reflexivity|congruence|].
    intros t _ s'. apply first_pass_tile_rel. }
  specialize (Hk s). unfold keeps_AreaFract in Hk.
  destruct (for_each _ P1 s) as [[[]|k] s1]; [|reflexivity].
  cbn [snd] in Hk. rewrite !bind_run. cbn [modify].
  rewrite for_tiles_flat
    by (intros veg band s'; apply second_pass_tile_rel).
  cbn [soil_con set_FIRST_VEG]. rewrite Hk. reflexivity.
Qed.

(** Lines 68-96. *)
Lemma first_pass_run :
  let rs := for_each sel P1 s0 in
  soil_con (snd rs) = soil0 /\ energy (snd rs) = AllVars.energy all_vars /\
  FIRST_VEG (snd rs) = None /\
  Forall is_first_pass_event (trace (snd rs)) /\
  match fst rs with
  | Ret _ =>
      (forall v b, In (v, b) sel -> holds_tile v b (cell0 v b) (snd rs)) /\
      first_pass_tiles (trace (snd rs)) = sel
  | Stop k => k = OutOfRange
  end.
Proof.
  pose (F := fun s =>
    soil_con s = soil0 /\ energy s = AllVars.energy all_vars /\
    FIRST_VEG s = None /\ Forall is_first_pass_event (trace s)).
  pose (Inv := fun (done : list (nat * nat)) s =>
    F s /\
    (forall v b, ~ In (v, b) done -> cell s v b = cell0 v b) /\
    (forall v b, In (v, b) done -> holds_tile v b (cell0 v b) s) /\
    first_pass_tiles (trace s) = done).
  assert (H : hoare (Inv []) (for_each sel P1)
    (fun r s => match r with
                | Ret _ => Inv sel s
                | Stop k => F s /\ k = OutOfRange
                end)).
  { apply hoare_for_list with (I := Inv).
    intros done [veg band] rest Hsel s ((Hc & He & Hf & Ht) & Hcell & Hh & Hd).
    assert (Hnew : ~ In (veg, band) done).
    { pose proof (NoDup_selected_tiles options veg_con (AreaFract soil0))
        as Hnd.
      rewrite Hsel in Hnd. apply NoDup_remove_2 in Hnd.
      intros Hin. apply Hnd, in_or_app. now left. }
    cbn [fst snd].
    pose proof (first_pass_tile_spec K X options veg band (s0:=s) eq_refl)
      as H.
    destruct (first_pass_tile K X options veg band s) as [r s1].
    cbn [fst snd] in H.
    destruct H as (HK & Hcell1 & He1 & Hc1 & Hf1 & HR).
    destruct r as [[]|k]; cbn [fst snd].
    - destruct HR as [Hh1 [row Ht1]]. split; [|split; [|split]].
      + split; [congruence|]. split; [congruence|]. split; [congruence|].
        rewrite Ht1. apply Forall_app. split; [exact Ht|].
        forall_list ltac:(exact I).
      + intros v b Hvb. rewrite Hcell1; [apply Hcell|].
        * intros Hin. apply Hvb, in_or_app. now left.
        * intros E. apply Hvb, in_or_app. right. left. now symmetry.
      + intros v b Hvb. apply in_app_or in Hvb as [Hvb|[E|[]]].
        * apply (holds_tile_other HK); [congruence|]. apply Hh, Hvb.
        * inversion E; subst. rewrite <- (Hcell v b Hnew). exact Hh1.
      + rewrite Ht1. unfold first_pass_tiles in *. rewrite omap_app, Hd.
        reflexivity.
    - destruct HR as [-> Ht1]. split; [|reflexivity].
      split; [congruence|]. split; [congruence|]. split; [congruence|].
      rewrite Ht1. exact Ht. }
  intros rs. subst rs.
  assert (H0 : Inv [] s0).
  { split; [repeat split; constructor|]. split; [reflexivity|].
    split; [intros v b []|reflexivity]. }
  specialize (H s0 H0). destruct (for_each sel P1 s0) as [[[]|k] s1];
    cbn [fst snd] in *.
  - destruct H as ((Hc & He & Hf & Ht) & _ & Hh & Hd). auto 10.
  - destruct H as ((Hc & He & Hf & Ht) & ->). auto 10.
Qed.


(** The soil parameters once line 114 has run. *)
Definition soil_after_parameters : soil_con_struct :=
  node_parameters_set X options soil0.

(** The layers handed to an estimator carry the moisture and ice that the
    tile had on entry. *)
Definition restored_entry (e : event) : Prop :=
  forall v b l, layer_in_of e = Some (v, b, l) ->
    In (v, b) sel /\
    forall lidx, lidx < Nlayer options ->
      Layer.moist (l lidx) = Layer.moist (layer (cell0 v b) lidx) /\
      forall frost_area, frost_area < Nfrost options ->
        Layer.ice (l lidx) frost_area
        = Layer.ice (layer (cell0 v b) lidx) frost_area.

Lemma restored_from_entry veg band e :
  In (veg, band) sel ->
  restored_from options veg band (cell0 veg band) e -> restored_entry e.
Proof.
  intros Hin H v b l E. destruct (H v b l E) as [Evb Hl].
  inversion Evb; subst. split; [exact Hin|exact Hl].
Qed.

Local Abbreviation G := soil_after_parameters.
Local Abbreviation quiet := (quiet K).
Local Abbreviation disciplined := (disciplined K X options global_param).

(** Lines 102-242. *)
Lemma second_pass_run s1 :
  FIRST_VEG s1 = Some true -> soil_con s1 = soil0 ->
  (forall v b, In (v, b) sel -> holds_tile v b (cell0 v b) s1) ->
  let rs := for_each sel P2 s1 in
  fst rs <> Stop Uninitialised /\ fst rs <> Stop OutOfRange /\
  moist (snd rs) = moist s1 /\ ice (snd rs) = ice s1 /\
  match sel with
  | [] => rs = (Ret tt, s1)
  | _ :: _ =>
      soil_con (snd rs) = G /\
      exists rest,
        trace (snd rs) = trace s1 ++ node_parameters_call :: rest /\
        Forall (is_tile_event G) rest /\
        Forall restored_entry rest /\
        first_pass_tiles rest = [] /\
        (fst rs = Ret tt -> second_pass_tiles rest = sel) /\
        disciplined (fst rs) rest
  end.
Proof.
  intros Hfv Hsoil Hh.
  pose (Later := fun (ts : list (nat * nat)) (r : result unit) s =>
    soil_con s = G /\
    exists rest,
      trace s = trace s1 ++ node_parameters_call :: rest /\
      Forall (is_tile_event G) rest /\
      Forall restored_entry rest /\
      first_pass_tiles rest = [] /\
      (r = Ret tt -> second_pass_tiles rest = ts) /\
      disciplined r rest).
  pose (Inv := fun (done : list (nat * nat)) s =>
    moist s = moist s1 /\ ice s = ice s1 /\
    match done with
    | [] => s = s1
    | _ :: _ => FIRST_VEG s = Some false /\ Later done (Ret tt) s
    end).
  assert (H : hoare (Inv []) (for_each sel P2)
    (fun r s => match r with
                | Ret _ => Inv sel s
                | Stop k =>
                    k = Exited /\ moist s = moist s1 /\ ice s = ice s1 /\
                    Later sel (Stop k) s
                end)).
  { apply hoare_for_list with (I := Inv).
    intros done [veg band] rest Hsel s (Hm & Hi & HI).
    assert (Hin : In (veg, band) sel).
    { rewrite Hsel. apply in_or_app. right. now left. }
    assert (Hs : holds_tile veg band (cell0 veg band) s).
    { eapply holds_tile_same; [exact Hm|exact Hi|]. apply Hh, Hin. }
    cbn [fst snd].
    assert (Hfv' : FIRST_VEG s = Some (match done with [] => true
                                                  | _ => false end)).
    { destruct done; [now subst s|apply HI]. }
    pose proof (second_pass_tile_spec X global_param Hfv' Hs) as Hspec.
    cbn zeta in Hspec.
    destruct (second_pass_tile K X options global_param veg band s)
      as [r s2].
    cbn [fst snd] in Hspec.
    destruct Hspec as (Hm2 & Hi2 & Hf2 & Hc2 & Hu & Ho & new & Ht2 & Hev).
    destruct Hev as (Hte & Hre & Hfp & Hsp & Hdi).
    assert (Hre' : Forall restored_entry new).
    { eapply Forall_impl; [exact Hre|]. intros e. cbn beta.
      apply restored_from_entry, Hin. }
    assert (Hlater : Later (done ++ [(veg, band)]) r s2).
    { destruct done as [|d ds].
      - subst s. rewrite Hsoil in Hc2, Hte. split; [exact Hc2|].
        exists new. cbn [app] in Ht2. split; [exact Ht2|].
        split; [exact Hte|]. split; [exact Hre'|]. split; [exact Hfp|].
        split; [exact Hsp|exact Hdi].
      - destruct HI as [_ (Hc & old & Ht & Hte0 & Hre0 & Hfp0 & Hsp0 & Hq0)].
        rewrite Hc in Hc2, Hte. split; [exact Hc2|].
        exists (old ++ new). cbn [app] in Ht2.
        split; [rewrite Ht2, Ht, <- app_assoc; reflexivity|].
        split; [apply Forall_app; split; assumption|].
        split; [apply Forall_app; split; assumption|].
        unfold first_pass_tiles, second_pass_tiles in *.
        rewrite !omap_app, Hfp0, Hfp, (Hsp0 eq_refl).
        split; [reflexivity|]. split.
        + intros Hr. now rewrite (Hsp Hr).
        + apply disciplined_app; assumption. }
    destruct r as [[]|k]; cbn [fst snd].
    - split; [congruence|]. split; [congruence|].
      destruct done; cbn [app]; split; assumption.
    - destruct k; try congruence. split; [reflexivity|].
      split; [congruence|]. split; [congruence|].
      destruct Hlater as (Hc & old & Ht & Hte0 & Hre0 & Hfp0 & _ & Hq0).
      split; [exact Hc|]. exists old. repeat split; try assumption.
      discriminate. }
  intros rs. subst rs.
  assert (H0 : Inv [] s1) by (repeat split).
  specialize (H s1 H0).
  destruct sel as [|t ts] eqn:Esel.
  { cbn [for_each ret fst snd]. split; [discriminate|].
    split; [discriminate|]. auto. }
  destruct (for_each (t :: ts) P2 s1) as [[[]|k] s2]; cbn [fst snd] in *.
  - split; [discriminate|]. split; [discriminate|].
    destruct H as (Hm & Hi & H). split; [exact Hm|]. split; [exact Hi|].
    apply H.
  - destruct H as (-> & Hm & Hi & H). split; [discriminate|].
    split; [discriminate|]. auto.
Qed.


(** The shape of every run of the function. *)
Lemma run_summary :
  let rs :=
    compute_derived_state_vars K X options global_param veg_con all_vars
      soil0 in
  fst rs <> Stop Uninitialised /\
  exists first,
    Forall is_first_pass_event first /\
    match fst rs with
    | Stop OutOfRange => trace (snd rs) = first /\ soil_con (snd rs) = soil0
    | _ =>
        first_pass_tiles first = sel /\
        (forall v b, In (v, b) sel ->
           holds_tile v b (cell0 v b) (snd rs)) /\
        match sel with
        | [] =>
            fst rs = Ret tt /\ trace (snd rs) = first /\
            soil_con (snd rs) = soil0
        | _ :: _ =>
            soil_con (snd rs) = G /\
            exists rest,
              trace (snd rs) = first ++ node_parameters_call :: rest /\
              Forall (is_tile_event G) rest /\
              Forall restored_entry rest /\
              first_pass_tiles rest = [] /\
              (fst rs = Ret tt -> second_pass_tiles rest = sel) /\
              disciplined (fst rs) rest
        end
    end.
Proof.
  intros rs. subst rs. unfold compute_derived_state_vars.
  rewrite body_flat. change (soil_con s0) with soil0. rewrite bind_run.
  pose proof first_pass_run as H1. cbn zeta in H1.
  destruct (for_each sel P1 s0) as [r1 s1]. cbn [fst snd] in H1.
  destruct H1 as (Hc & He & Hf & Ht & HR).
  destruct r1 as [[]|k]; cbn [fst snd].
  2:{ subst k. split; [discriminate|]. exists (trace s1). auto. }
  destruct HR as [Hh Hfp]. rewrite bind_run. cbn [modify].
  set (s1' := set_FIRST_VEG true s1).
  assert (Hh' : forall v b, In (v, b) sel -> holds_tile v b (cell0 v b) s1').
  { intros v b Hin. eapply holds_tile_same; [| |apply Hh, Hin]; reflexivity. }
  pose proof (@second_pass_run s1' eq_refl Hc Hh') as H2. cbn zeta in H2.
  destruct (for_each sel P2 s1') as [r2 s2]. cbn [fst snd] in H2.
  destruct H2 as (Hu & Ho & Hm2 & Hi2 & H2). split; [exact Hu|].
  exists (trace s1). split; [exact Ht|].
  assert (Hgoal :
    first_pass_tiles (trace s1) = sel /\
    (forall v b, In (v, b) sel -> holds_tile v b (cell0 v b) s2) /\
    match sel with
    | [] => r2 = Ret tt /\ trace s2 = trace s1 /\ soil_con s2 = soil0
    | _ :: _ =>
        soil_con s2 = G /\
        exists rest,
          trace s2 = trace s1 ++ node_parameters_call :: rest /\
          Forall (is_tile_event G) rest /\
          Forall restored_entry rest /\
          first_pass_tiles rest = [] /\
          (r2 = Ret tt -> second_pass_tiles rest = sel) /\
          disciplined r2 rest
    end).
  { split; [exact Hfp|]. split.
    { intros v b Hin. eapply holds_tile_same; [exact Hm2|exact Hi2|].
      apply Hh', Hin. }
    destruct sel; [|exact H2]. inversion H2; subst. auto. }
  destruct r2 as [[]|[]]; try exact Hgoal; congruence.
Qed.

End Run.

(** [all_tiles] is vegetation-major: the pair [(veg, band)] stands at place
    [veg * SNOW_BAND + band]. *)
Lemma all_tiles_order options veg_con veg band :
  veg <= Nveg veg_con -> band < SNOW_BAND options ->
  nth_error (all_tiles options veg_con) (veg * SNOW_BAND options + band)
  = Some (veg, band).
Proof.
  unfold all_tiles. generalize (SNOW_BAND options) as m. intros m Hv Hb.
  assert (G : forall len start i, i < len ->
    nth_error (list_prod (seq start len) (seq 0 m)) (i * m + band)
    = Some (start + i, band)).
  { clear Hv. induction len as [|len IH]; intros start i Hi; [lia|].
    cbn [seq list_prod]. destruct i as [|i].
    - cbn [Nat.mul Nat.add]. rewrite nth_error_app1
        by (rewrite length_map, length_seq; exact Hb).
      rewrite nth_error_map, nth_error_seq.
      destruct (Nat.ltb_spec band m); [|lia].
      cbn. now rewrite Nat.add_0_r.
    - rewrite nth_error_app2 by (rewrite length_map, length_seq; lia).
      rewrite length_map, length_seq.
      replace (S i * m + band - m) with (i * m + band) by lia.
      rewrite (IH (S start) i) by lia. f_equal. f_equal. lia. }
  rewrite (G (S (Nveg veg_con)) 0 veg) by lia. reflexivity.
Qed.

(** ** Properties of the function *)

Lemma node_parameters_set_AreaFract X options c :
  AreaFract (node_parameters_set X options c) = AreaFract c.
Proof.
  unfold node_parameters_set, with_node_parameters.
  destruct (set_node_parameters _ _ _ _ _ _ _ _ _ _ _ _ _ _)
    as [[[[[[z mm] ex] bu] al] be] ga].
  reflexivity.
Qed.

Lemma first_pass_event_quiet K e : is_first_pass_event e -> quiet K e.
Proof. destruct e; cbn; auto. Qed.

(** Calls of [set_node_parameters] in a trace. *)
Definition is_node_parameters_call (e : event) : bool :=
  match e with node_parameters_call => true | _ => false end.
Definition node_parameters_calls (tr : list event) : nat :=
  length (List.filter is_node_parameters_call tr).

Lemma first_pass_no_parameters tr :
  Forall is_first_pass_event tr -> node_parameters_calls tr = 0.
Proof.
  induction 1 as [|e tr He _ IH]; [reflexivity|].
  destruct e; try contradiction; exact IH.
Qed.

Lemma tile_events_no_parameters soil tr :
  Forall (is_tile_event soil) tr -> node_parameters_calls tr = 0.
Proof.
  induction 1 as [|e tr He _ IH]; [reflexivity|].
  destruct e; try contradiction; exact IH.
Qed.

Lemma node_parameters_calls_app tr1 tr2 :
  node_parameters_calls (tr1 ++ tr2)
  = node_parameters_calls tr1 + node_parameters_calls tr2.
Proof.
  unfold node_parameters_calls. now rewrite List.filter_app, length_app.
Qed.

(** A call that came back with [ERROR], and the report that follows it. *)
Definition failed_call (K : constants) (e : event) : Prop :=
  match e with
  | distribute_call _ _ _ _ flag => flag = ERROR K
  | quick_flux_call _ _ _ _ _ _ flag _ => flag = ERROR K
  | ice_content_call _ _ _ _ _ flag _ => flag = ERROR K
  | _ => False
  end.

Definition report_of (e : event) : option message :=
  match e with
  | distribute_call _ _ _ _ _ => Some node_properties_failed
  | quick_flux_call _ _ _ _ _ _ _ _ => Some quick_flux_failed
  | ice_content_call _ _ _ _ _ _ _ => Some ice_content_failed
  | _ => None
  end.

Lemma failed_call_not_quiet K e : failed_call K e -> ~ quiet K e.
Proof. destruct e; cbn; auto. Qed.

(** Where an event that is not quiet sits in a trace that is quiet up to
    its last part. *)
Lemma not_quiet_in_tail K (before tail pre post : list event) e :
  Forall (quiet K) before -> ~ quiet K e ->
  before ++ tail = pre ++ e :: post ->
  exists mid, tail = mid ++ e :: post /\ pre = before ++ mid.
Proof.
  revert pre. induction before as [|b before IH]; intros pre Hq He E.
  - exists pre. auto.
  - apply Forall_cons in Hq as [Hb Hq]. destruct pre as [|p pre].
    + inversion E; subst. contradiction.
    + inversion E; subst. destruct (IH pre Hq He H1) as (mid & -> & ->).
      exists mid. auto.
Qed.

(** The combined weight of a tile: cover fraction times band area
    fraction. *)
Definition tile_weight (veg_con : nat -> veg_con_struct)
  (soil_con : soil_con_struct) (t : nat * nat) : float :=
  (Cv (veg_con (fst t)) * AreaFract soil_con (snd t))%float.

(** The tiles of strictly positive weight, in the order of [all_tiles]. *)
Definition weighted_tiles (options : option_struct)
  (veg_con : nat -> veg_con_struct) (soil_con : soil_con_struct) :
  list (nat * nat) :=
  List.filter (fun t => double_gt (tile_weight veg_con soil_con t) 0)
    (all_tiles options veg_con).

Lemma estimate_tile_layers e t :
  estimate_tile e = Some t -> exists l, layer_in_of e = Some (fst t, snd t, l).
Proof.
  destruct e; cbn; intros E; inversion E; subst; cbn [fst snd]; eauto.
Qed.

(** The soil parameters that lines 114-122 leave, written out from the
    call: [set_node_parameters] is handed the seven node arrays of [c], the
    four layer arrays, [Nnode] and [Nlayer]; the seven arrays it returns
    take the place of those of [c]; every other member is the one of [c]. *)
Definition stored_node_arrays (X : collaborators) (options : option_struct)
  (c : soil_con_struct) : soil_con_struct :=
  let '(Zsum_node', max_moist_node', expt_node', bubble_node', alpha', beta',
        gamma') :=
    set_node_parameters X (Zsum_node c) (max_moist_node c) (expt_node c)
      (bubble_node c) (alpha c) (beta c) (gamma c) (depth c) (max_moist c)
      (expt c) (bubble c) (Nnode options) (Nlayer options) in
  {| AreaFract := AreaFract c;
     Zsum_node := Zsum_node';
     max_moist_node := max_moist_node';
     expt_node := expt_node';
     bubble_node := bubble_node';
     alpha := alpha';
     beta := beta';
     gamma := gamma';
     depth := depth c;
     max_moist := max_moist c;
     expt := expt c;
     bubble := bubble c;
     soil_dens_min := soil_dens_min c;
     bulk_dens_min := bulk_dens_min c;
     quartz := quartz c;
     soil_density := soil_density c;
     bulk_density := bulk_density c;
     organic := organic c;
     dz_node := dz_node c;
     frost_fract := frost_fract c;
     frost_slope := frost_slope c;
     dp := dp c;
     avg_temp := avg_temp c;
     FS_ACTIVE := FS_ACTIVE c |}.

(** The program stores what the call returned. *)
Lemma soil_after_parameters_stored (X : collaborators)
  (options : option_struct) (c : soil_con_struct) :
  soil_after_parameters X options c = stored_node_arrays X options c.
Proof.
  unfold soil_after_parameters, node_parameters_set, stored_node_arrays.
  destruct (set_node_parameters X _ _ _ _ _ _ _ _ _ _ _ _ _)
    as [[[[[[z mm] ex] bu] al] be] ga].
  reflexivity.
Qed.

Section Properties.

Context (K : constants) (X : collaborators).
Context (options : option_struct) (global_param : global_param_struct).
Context (veg_con : nat -> veg_con_struct).
Context (all_vars : AllVars.all_vars_struct) (soil_con0 : soil_con_struct).

Local Abbreviation run :=
  (compute_derived_state_vars K X options global_param veg_con all_vars
     soil_con0).
Local Abbreviation sel :=
  (selected_tiles options veg_con (AreaFract soil_con0)).
Local Abbreviation G := (soil_after_parameters X options soil_con0).

(** Every run keeps the reporting discipline: its events are quiet, unless
    it ended in [log_err], and then the report and its cause come last. *)
Lemma run_disciplined :
  disciplined K X options global_param (fst run) (trace (snd run)).
Proof.
  pose proof (run_summary K X options global_param veg_con all_vars soil_con0)
    as H.
  cbn zeta in H. destruct H as (_ & first & Hf & H).
  assert (Hq : Forall (quiet K) first).
  { eapply Forall_impl; [exact Hf|]. intros e. apply first_pass_event_quiet. }
  assert (Hk : forall r,
    first_pass_tiles first = sel /\
    (forall v b, In (v, b) sel ->
       holds_tile K options v b (AllVars.cell all_vars v b) (snd run)) /\
    match sel with
    | [] => r = Ret tt /\ trace (snd run) = first /\
            soil_con (snd run) = soil_con0
    | _ :: _ =>
        soil_con (snd run) = G /\
        exists rest,
          trace (snd run) = first ++ node_parameters_call :: rest /\
          Forall (is_tile_event G) rest /\
          Forall (restored_entry options veg_con all_vars soil_con0) rest /\
          first_pass_tiles rest = [] /\
          (r = Ret tt -> second_pass_tiles rest = sel) /\
          disciplined K X options global_param r rest
    end ->
    disciplined K X options global_param r (trace (snd run))).
  { intros r (_ & _ & Hs). destruct sel.
    - destruct Hs as (-> & -> & _). exact Hq.
    - destruct Hs as (_ & rest & -> & _ & _ & _ & _ & Hd).
      apply disciplined_app; [exact Hq|].
      apply (@disciplined_app K X options global_param _ [node_parameters_call]);
        [|exact Hd].
      forall_list ltac:(exact I). }
  destruct (fst run) as [[]|[]]; try (apply Hk; exact H).
  destruct H as [-> _]. exact Hq.
Qed.


(** The summary of [run_summary], for a run that stayed inside the
    automatic arrays. *)
Definition in_range_summary (r : result unit) (s : state)
  (first : list event) : Prop :=
  first_pass_tiles first = sel /\
  (forall v b, In (v, b) sel ->
     holds_tile K options v b (AllVars.cell all_vars v b) s) /\
  match sel with
  | [] => r = Ret tt /\ trace s = first /\ soil_con s = soil_con0
  | _ :: _ =>
      soil_con s = G /\
      exists rest,
        trace s = first ++ node_parameters_call :: rest /\
        Forall (is_tile_event G) rest /\
        Forall (restored_entry options veg_con all_vars soil_con0) rest /\
        first_pass_tiles rest = [] /\
        (r = Ret tt -> second_pass_tiles rest = sel) /\
        disciplined K X options global_param r rest
  end.

Lemma run_cases :
  exists first,
    Forall is_first_pass_event first /\
    ((fst run = Stop OutOfRange /\ trace (snd run) = first /\
      soil_con (snd run) = soil_con0) \/
     ((fst run = Ret tt \/ fst run = Stop Exited) /\
      in_range_summary (fst run) (snd run) first)).
Proof.
  pose proof (run_summary K X options global_param veg_con all_vars soil_con0)
    as H.
  cbn zeta in H. destruct H as (Hu & first & Hf & H).
  exists first. split; [exact Hf|].
  destruct (fst run) as [[]|[]]; try congruence.
  - right. split; [now left|exact H].
  - right. split; [now right|exact H].
  - left. destruct H. auto.
Qed.

(** C3: in a run that stays inside the automatic arrays,
    [set_node_parameters] is called once if at least one tile is selected
    and not at all otherwise; the call comes after the events of the first
    pass and before every other event of the second pass, whichever tile
    is first; the soil parameters handed to every routine called afterwards,
    and those at the end, hold the seven node arrays that the call returned
    for the arrays on entry, and every other member as on entry
    ([stored_node_arrays]). *)
Theorem node_parameters_set_once :
  fst run <> Stop OutOfRange ->
  match sel with
  | [] =>
      node_parameters_calls (trace (snd run)) = 0 /\
      soil_con (snd run) = soil_con0
  | _ :: _ =>
      node_parameters_calls (trace (snd run)) = 1 /\
      soil_con (snd run) = stored_node_arrays X options soil_con0 /\
      exists first rest,
        trace (snd run) = first ++ node_parameters_call :: rest /\
        Forall is_first_pass_event first /\
        Forall (is_tile_event (stored_node_arrays X options soil_con0)) rest
  end.
Proof.
  intros Hin. destruct run_cases as (first & Hf & [(E & _)|(_ & H)]);
    [congruence|].
  destruct H as (_ & _ & H). rewrite <- soil_after_parameters_stored.
  destruct sel.
  - destruct H as (_ & -> & ->). split; [|reflexivity].
    apply first_pass_no_parameters, Hf.
  - destruct H as (Hc & rest & -> & Ht & _). split; [|split; [exact Hc|]].
    + rewrite node_parameters_calls_app, (first_pass_no_parameters Hf).
      change (node_parameters_calls (node_parameters_call :: rest))
        with (S (node_parameters_calls rest)).
      now rewrite (tile_events_no_parameters Ht).
    + exists first, rest. auto.
Qed.

(** C4: a run that returns has processed, in each pass, exactly the pairs
    of a vegetation index from 0 to Nveg inclusive and a band index below
    the number of bands whose cover fraction is above 0 and whose band area
    fraction is above 0, each tested on its own (lines 72 and 75, 107 and
    110), in vegetation-major, band-minor order: the order of
    [list_prod].  The product of the two fractions is not formed. *)
Theorem tiles_processed :
  fst run = Ret tt ->
  let guard (t : nat * nat) :=
    PrimFloat.ltb 0 (Cv (veg_con (fst t)))
    && PrimFloat.ltb 0 (AreaFract soil_con0 (snd t)) in
  let pairs :=
    list_prod (seq 0 (S (vegetat_type_num (veg_con 0))))
      (seq 0 (SNOW_BAND options)) in
  first_pass_tiles (trace (snd run)) = List.filter guard pairs /\
  second_pass_tiles (trace (snd run)) = List.filter guard pairs.
Proof.
  intros Hr guard pairs. change (List.filter guard pairs) with sel.
  destruct run_cases as (first & Hf & [(E & _)|(_ & H)]); [congruence|].
  destruct H as (Hfp & _ & H). destruct sel eqn:Esel.
  - destruct H as (_ & -> & _). split; [exact Hfp|].
    apply first_pass_events_tiles, Hf.
  - destruct H as (_ & rest & -> & Ht & _ & Hfr & Hsp & _).
    unfold first_pass_tiles, second_pass_tiles in *.
    rewrite !omap_app. cbn [omap list_omap pass1_tile estimate_tile].
    rewrite Hfp, Hfr, (Hsp Hr), app_nil_r.
    split; [reflexivity|].
    pose proof (first_pass_events_tiles Hf) as E0.
    unfold second_pass_tiles in E0. now rewrite E0.
Qed.

(** C5: a tile whose cover fraction or band area fraction is not strictly
    positive keeps, whatever the outcome of the run, the [cell] and [energy]
    entries it had on entry: saturated area, water table, layer moisture and
    ice, node moisture, ice, conductivity and heat capacity, and front
    depths. *)
Theorem unselected_tile_untouched veg band :
  PrimFloat.leb (Cv (veg_con veg)) 0 = true \/
  PrimFloat.leb (AreaFract soil_con0 band) 0 = true ->
  let final :=
    snd (compute_derived_state_vars K X options global_param veg_con
           all_vars soil_con0) in
  cell final veg band = AllVars.cell all_vars veg band /\
  energy final veg band = AllVars.energy all_vars veg band.
Proof.
  intros Hw final. subst final.
  assert (Hout : ~ In (veg, band) sel).
  { intros Hin. apply selected_tiles_spec in Hin as (_ & _ & Hs).
    unfold selected in Hs. apply andb_true_iff in Hs as [Hc Ha].
    destruct Hw as [Hw|Hw]; apply leb_zero_not_gt in Hw; congruence. }
  pose (Rel := fun s s' : state =>
    cell s' veg band = cell s veg band /\
    energy s' veg band = energy s veg band).
  assert (Rr : forall s, Rel s s) by (intros s; split; reflexivity).
  assert (Rt : forall s1 s2 s3, Rel s1 s2 -> Rel s2 s3 -> Rel s1 s3).
  { intros s1 s2 s3 [A1 B1] [A2 B2]. split; congruence. }
  assert (Hne : forall t, In t sel -> (veg, band) <> (fst t, snd t)).
  { intros [v b] Hin E. cbn [fst snd] in E. congruence. }
  assert (H : changes Rel
    (for_each sel
       (fun t => first_pass_tile K X options (fst t) (snd t)) ;;
     modify (set_FIRST_VEG true) ;;
     for_each sel
       (fun t => second_pass_tile K X options global_param (fst t) (snd t)))).
  { apply changes_bind; [exact Rt| |intros _; apply changes_bind;
                                      [exact Rt| |intros _]].
    - apply changes_for_each; [exact Rr|exact Rt|]. intros t Hin s.
      apply (first_pass_tile_rel K X options (fst t) (snd t)), Hne, Hin.
    - apply changes_modify. intros s. split; reflexivity.
    - apply changes_for_each; [exact Rr|exact Rt|]. intros t Hin s.
      apply (second_pass_tile_rel K X options global_param (fst t) (snd t)),
        Hne, Hin. }
  unfold compute_derived_state_vars. rewrite body_flat.
  exact (H (entry all_vars soil_con0)).
Qed.

(** C6: when the node distribution or one of the two ice-content
    estimators comes back with ERROR for a tile, the run ends there: the
    report of the error follows the call at once and is the last event, so
    no later step of the tile and no later tile is processed, and the run
    ends in [log_err] instead of returning. *)
Theorem error_flag_ends_run before e after :
  trace (snd run) = before ++ e :: after ->
  failed_call K e ->
  fst run = Stop Exited /\
  exists m, report_of e = Some m /\ after = [logged m].
Proof.
  intros Ht He. pose proof run_disciplined as Hd.
  pose proof (@failed_call_not_quiet K e He) as Hnq.
  assert (Hex : fst run = Stop Exited).
  { destruct (fst run) as [[]|[]]; try reflexivity; cbn in Hd;
      rewrite Ht in Hd; apply Forall_app in Hd as [_ Hd];
      apply Forall_cons in Hd as [Hq _]; contradiction. }
  split; [exact Hex|]. rewrite Hex in Hd.
  destruct Hd as (bef & tail & E & Hq & Ha). rewrite Ht in E. symmetry in E.
  destruct (@not_quiet_in_tail K _ _ _ _ _ Hq Hnq E) as (mid & Etail & _).
  destruct Ha; destruct mid as [|m1 [|m2 [|m3 mid]]]; inversion Etail; subst;
    try contradiction; cbn; eauto.
Qed.

(** C7: the layers that an ice-content estimator is handed for a tile carry,
    for every layer and frost area, the moisture and ice that the tile had
    on entry, and these are the values that the first pass stored in the
    tile's entries of the automatic arrays. *)
Theorem write_back_restores_entry e veg band l :
  In e (trace (snd run)) ->
  layer_in_of e = Some (veg, band, l) ->
  forall lidx, lidx < Nlayer options ->
    (Layer.moist (l lidx)
     = Layer.moist (layer (AllVars.cell all_vars veg band) lidx) /\
     moist (snd run) !! (veg, band, lidx) = Some (Layer.moist (l lidx))) /\
    forall frost_area, frost_area < Nfrost options ->
      Layer.ice (l lidx) frost_area
      = Layer.ice (layer (AllVars.cell all_vars veg band) lidx) frost_area /\
      ice (snd run) !! (veg, band, lidx, frost_area)
      = Some (Layer.ice (l lidx) frost_area).
Proof.
  intros Hin Hl lidx Hlidx.
  destruct run_cases as (first & Hf & [(_ & Ht & _)|(_ & H)]).
  { rewrite Ht in Hin. exfalso.
    exact (@first_pass_events_layers _ _ _ _ _ Hf Hin Hl). }
  destruct H as (_ & Hh & H).
  assert (Hr : restored_entry options veg_con all_vars soil_con0 e).
  { destruct sel.
    - destruct H as (_ & Ht & _). rewrite Ht in Hin. exfalso.
      exact (@first_pass_events_layers _ _ _ _ _ Hf Hin Hl).
    - destruct H as (_ & rest & Ht & _ & Hre & _). rewrite Ht in Hin.
      apply in_app_or in Hin as [Hin|[<-|Hin]].
      + exfalso. exact (@first_pass_events_layers _ _ _ _ _ Hf Hin Hl).
      + discriminate Hl.
      + rewrite List.Forall_forall in Hre. apply Hre, Hin. }
  destruct (Hr veg band l Hl) as [Hsel Hv].
  destruct (Hv lidx Hlidx) as [Hm Hi].
  destruct (Hh veg band Hsel lidx Hlidx) as [[_ Hsm] Hsi].
  split; [split; [exact Hm|rewrite Hm; exact Hsm]|].
  intros fa Hfa. split; [apply Hi, Hfa|].
  rewrite (Hi fa Hfa). apply Hsi, Hfa.
Qed.

(** C10: no run reads a local or an entry of the automatic arrays that was
    never assigned ([load_moist] and [load_ice] stop with [Uninitialised]
    on such an entry, at whichever tile and statement of the second pass
    the read is made); the band area fractions at the end are those of the
    entry (the cover fractions are not reachable from the state at all);
    and every tile whose write-back was completed, so that its estimator
    was called, passed the selection guard and was stored by the first
    pass, and its entries still hold the tile's values on entry. *)
Theorem second_pass_reads_stored :
  fst run <> Stop Uninitialised /\
  AreaFract (soil_con (snd run)) = AreaFract soil_con0 /\
  forall t, In t (second_pass_tiles (trace (snd run))) ->
    selected veg_con (AreaFract soil_con0) (fst t) (snd t) = true /\
    In t (first_pass_tiles (trace (snd run))) /\
    holds_tile K options (fst t) (snd t)
      (AllVars.cell all_vars (fst t) (snd t)) (snd run).
Proof.
  split.
  { apply (run_summary K X options global_param veg_con all_vars soil_con0). }
  destruct run_cases as (first & Hf & [(_ & Ht & Hc)|(_ & H)]).
  { split; [now rewrite Hc|]. intros t Hin. rewrite Ht in Hin.
    rewrite (first_pass_events_tiles Hf) in Hin. destruct Hin. }
  destruct H as (Hfp & Hh & H). destruct sel eqn:Esel.
  - destruct H as (_ & Ht & Hc). split; [now rewrite Hc|].
    intros t Hin. rewrite Ht in Hin.
    rewrite (first_pass_events_tiles Hf) in Hin. destruct Hin.
  - destruct H as (Hc & rest & Ht & _ & Hre & _).
    split; [rewrite Hc; apply node_parameters_set_AreaFract|].
    intros [v b] Hin. rewrite Ht in Hin |- *.
    unfold second_pass_tiles, first_pass_tiles in *.
    rewrite omap_app in Hin |- *. rewrite Hfp.
    pose proof (first_pass_events_tiles Hf) as E0.
    unfold second_pass_tiles in E0. rewrite E0 in Hin. cbn [app] in Hin.
    change (omap estimate_tile (node_parameters_call :: rest))
      with (omap estimate_tile rest) in Hin.
    apply list_elem_of_In, list_elem_of_omap in Hin as (e & He & Het).
    apply list_elem_of_In in He.
    apply estimate_tile_layers in Het as [lay Hl]. cbn [fst snd] in Hl |- *.
    rewrite List.Forall_forall in Hre.
    destruct (Hre e He v b lay Hl) as [Hsel _].
    pose proof Hsel as Hsel'. rewrite Esel in Hsel'.
    split; [|split; [apply in_or_app; now left|apply Hh, Hsel']].
    apply selected_tiles_spec in Hsel. apply Hsel.
Qed.

End Properties.

(** *** Runs that stay inside the automatic arrays *)

Definition never_out {A} (m : M A) : Prop :=
  forall s, fst (m s) <> Stop OutOfRange.

Lemma never_out_ret {A} (a : A) : never_out (ret a).
Proof. intros s. discriminate. Qed.

Lemma never_out_halt {A} k : k <> OutOfRange -> never_out (@halt A k).
Proof. intros H s E. apply H. inversion E. reflexivity. Qed.

Lemma never_out_modify f : never_out (modify f).
Proof. intros s. discriminate. Qed.

Lemma never_out_bind {A B} (m : M A) (f : A -> M B) :
  never_out m -> (forall a, never_out (f a)) -> never_out (bind m f).
Proof.
  intros Hm Hf s. rewrite bind_run. specialize (Hm s).
  destruct (m s) as [[a|k] s']; [apply Hf|].
  cbn [fst] in *. intros E. apply Hm. inversion E. reflexivity.
Qed.

Lemma never_out_get_bind {B} (f : state -> M B) :
  (forall s, never_out (f s)) -> never_out (bind get f).
Proof. intros H s. apply H. Qed.

Lemma never_out_when b m : never_out m -> never_out (when b m).
Proof. intros H. destruct b; [exact H|apply never_out_ret]. Qed.

Lemma never_out_for_each {X} (l : list X) (body : X -> M unit) :
  (forall x, In x l -> never_out (body x)) -> never_out (for_each l body).
Proof.
  induction l as [|x l IH]; intros H; cbn [for_each].
  - apply never_out_ret.
  - apply never_out_bind; [apply H; now left|].
    intros _. apply IH. intros y Hy. apply H. now right.
Qed.

Section InRange.

Context (K : constants) (X : collaborators).
Context (options : option_struct) (global_param : global_param_struct).
Context (veg_con : nat -> veg_con_struct).

Lemma never_out_log_err m : never_out (log_err m).
Proof. intros s. discriminate. Qed.

Lemma never_out_store_moist veg band lidx x :
  moist_index_ok K veg band lidx = true ->
  never_out (store_moist K veg band lidx x).
Proof. intros H s. unfold store_moist. rewrite H. discriminate. Qed.

Lemma never_out_store_ice veg band lidx frost_area x :
  ice_index_ok K veg band lidx frost_area = true ->
  never_out (store_ice K veg band lidx frost_area x).
Proof. intros H s. unfold store_ice. rewrite H. discriminate. Qed.

Lemma never_out_load_moist veg band lidx :
  moist_index_ok K veg band lidx = true ->
  never_out (load_moist K veg band lidx).
Proof.
  intros H s. unfold load_moist. rewrite H.
  destruct (moist s !! (veg, band, lidx)); discriminate.
Qed.

Lemma never_out_load_ice veg band lidx frost_area :
  ice_index_ok K veg band lidx frost_area = true ->
  never_out (load_ice K veg band lidx frost_area).
Proof.
  intros H s. unfold load_ice. rewrite H.
  destruct (ice s !! (veg, band, lidx, frost_area)); discriminate.
Qed.

Lemma never_out_load_row veg band lidxs :
  (forall lidx, In lidx lidxs -> moist_index_ok K veg band lidx = true) ->
  never_out (load_row K veg band lidxs).
Proof.
  induction lidxs as [|lidx rest IH]; intros H; cbn [load_row].
  - apply never_out_ret.
  - apply never_out_bind; [apply never_out_load_moist, H; now left|].
    intros x. apply never_out_bind; [|intros xs; apply never_out_ret].
    apply IH. intros l Hl. apply H. now right.
Qed.

Section Tile.

Context (veg band : nat).
Context (Hveg : veg < MAX_VEG K) (Hband : band < MAX_BANDS K).
Context (Hlayer : Nlayer options <= MAX_LAYERS K).
Context (Hfrost : Nfrost options <= MAX_FROST_AREAS K).

Lemma moist_index_in_range lidx :
  In lidx (seq 0 (Nlayer options)) -> moist_index_ok K veg band lidx = true.
Proof.
  intros H. apply in_seq in H. unfold moist_index_ok.
  rewrite !andb_true_iff, !Nat.ltb_lt. lia.
Qed.

Lemma ice_index_in_range lidx frost_area :
  In lidx (seq 0 (Nlayer options)) ->
  In frost_area (seq 0 (Nfrost options)) ->
  ice_index_ok K veg band lidx frost_area = true.
Proof.
  intros Hl Hf. unfold ice_index_ok. rewrite (moist_index_in_range _ Hl).
  apply in_seq in Hf. cbn [andb]. apply Nat.ltb_lt. lia.
Qed.

Lemma never_out_moist_row : never_out (moist_row K options veg band).
Proof. apply never_out_load_row, moist_index_in_range. Qed.

Lemma never_out_first_pass_tile :
  never_out (first_pass_tile K X options veg band).
Proof.
  unfold first_pass_tile.
  apply never_out_bind; [|intros _; apply never_out_bind;
                          [apply never_out_moist_row|]].
  - apply never_out_for_each. intros lidx Hl. unfold snapshot_layer.
    apply never_out_get_bind. intros s.
    apply never_out_bind;
      [apply never_out_store_moist, moist_index_in_range, Hl|].
    intros _. apply never_out_for_each. intros fa Hfa.
    apply never_out_get_bind. intros s'.
    apply never_out_store_ice, ice_index_in_range; assumption.
  - intros row. apply never_out_bind; [apply never_out_modify|].
    intros _. apply never_out_modify.
Qed.

Lemma never_out_second_pass_tile :
  never_out (second_pass_tile K X options global_param veg band).
Proof.
  unfold second_pass_tile.
  apply never_out_bind; [|intros _].
  { unfold node_parameters_once. apply never_out_get_bind. intros s.
    destruct (FIRST_VEG s) as [[]|].
    - apply never_out_bind; [apply never_out_modify|].
      intros _. apply never_out_modify.
    - apply never_out_ret.
    - apply never_out_halt. discriminate. }
  apply never_out_bind; [|intros _].
  { unfold node_moisture. apply never_out_when.
    apply never_out_bind; [apply never_out_moist_row|]. intros row.
    apply never_out_bind.
    - intros s. unfold call_distribute.
      destruct (distribute_node_moisture_properties _ _ _ _ _ _ _ _ _ _ _ _
                  _ _ _ _ _ _ _ _ _); discriminate.
    - intros flag. apply never_out_when, never_out_log_err. }
  apply never_out_bind; [|intros _].
  { unfold check_node_spacing. apply never_out_when.
    apply never_out_get_bind. intros s.
    apply never_out_bind; [apply never_out_modify|].
    intros _. apply never_out_when, never_out_log_err. }
  apply never_out_bind; [|intros _].
  { apply never_out_for_each. intros lidx Hl. unfold restore_layer.
    apply never_out_bind;
      [apply never_out_load_moist, moist_index_in_range, Hl|].
    intros x. apply never_out_bind; [apply never_out_modify|].
    intros _. apply never_out_for_each. intros fa Hfa.
    apply never_out_bind;
      [apply never_out_load_ice, ice_index_in_range; assumption|].
    intros y. apply never_out_modify. }
  apply never_out_bind; [|intros _].
  { unfold ice_content. destruct (QUICK_FLUX options).
    - apply never_out_bind.
      + intros s. unfold call_quick_flux.
        destruct (estimate_layer_ice_content_quick_flux _ _ _ _ _ _ _ _ _ _
                    _ _ _); discriminate.
      + intros flag. apply never_out_when, never_out_log_err.
    - apply never_out_bind.
      + intros s. unfold call_ice_content.
        destruct (estimate_layer_ice_content _ _ _ _ _ _ _ _ _ _ _ _ _);
          discriminate.
      + intros flag. apply never_out_when, never_out_log_err. }
  unfold fronts. apply never_out_get_bind. intros s.
  apply never_out_when, never_out_modify.
Qed.

End Tile.

Lemma never_out_for_tiles (body : nat -> nat -> M unit) :
  (forall veg band, veg <= Nveg veg_con -> band < SNOW_BAND options ->
     never_out (body veg band)) ->
  never_out (for_tiles options veg_con body).
Proof.
  intros H. unfold for_tiles. apply never_out_for_each. intros veg Hv.
  apply in_seq in Hv. apply never_out_when. apply never_out_for_each.
  intros band Hb. apply in_seq in Hb. apply never_out_get_bind. intros s.
  apply never_out_when, H; lia.
Qed.

Context (all_vars : AllVars.all_vars_struct) (soil_con0 : soil_con_struct).

(** C9: the function does not compare its indices with the dimensions of
    [moist] and [ice]; when the number of vegetation classes plus one, of
    snow bands, of layers and of frost areas are within MAX_VEG, MAX_BANDS,
    MAX_LAYERS and MAX_FROST_AREAS, no run leaves the two arrays. *)
Theorem arrays_in_range :
  S (Nveg veg_con) <= MAX_VEG K ->
  SNOW_BAND options <= MAX_BANDS K ->
  Nlayer options <= MAX_LAYERS K ->
  Nfrost options <= MAX_FROST_AREAS K ->
  fst (compute_derived_state_vars K X options global_param veg_con all_vars
         soil_con0) <> Stop OutOfRange.
Proof.
  intros Hv Hb Hl Hf. unfold compute_derived_state_vars, body.
  apply never_out_bind; [|intros _; apply never_out_bind;
                          [apply never_out_modify|intros _]].
  - apply never_out_for_tiles. intros veg band Hveg Hband.
    apply never_out_first_pass_tile; lia.
  - apply never_out_for_tiles. intros veg band Hveg Hband.
    apply never_out_second_pass_tile; lia.
Qed.

(** X8: the converse on what a run exercises: a run that stays inside the
    arrays formed only index tuples below the four dimensions, so for a
    selected tile and a layer below [options.Nlayer] the four bounds are
    needed. *)
Lemma in_range_indices veg band lidx :
  fst (compute_derived_state_vars K X options global_param veg_con all_vars
         soil_con0) <> Stop OutOfRange ->
  In (veg, band) (selected_tiles options veg_con (AreaFract soil_con0)) ->
  lidx < Nlayer options ->
  veg < MAX_VEG K /\ band < MAX_BANDS K /\ lidx < MAX_LAYERS K /\
  forall frost_area, frost_area < Nfrost options ->
    frost_area < MAX_FROST_AREAS K.
Proof.
  intros Hr Hin Hl.
  destruct (run_cases K X options global_param veg_con all_vars soil_con0)
    as (first & _ & [(E & _)|(_ & H)]); [contradiction|].
  destruct H as (_ & Hh & _).
  destruct (Hh veg band Hin lidx Hl) as [[Ho _] Hi].
  unfold moist_index_ok in Ho. rewrite !andb_true_iff, !Nat.ltb_lt in Ho.
  split; [lia|]. split; [lia|]. split; [lia|].
  intros fa Hfa. destruct (Hi fa Hfa) as [Hoi _].
  unfold ice_index_ok in Hoi. rewrite andb_true_iff, Nat.ltb_lt in Hoi. lia.
Qed.

End InRange.

(** *** Two runs that differ in the deeper node temperatures *)

(** Two states that agree on everything but [energy], the locals that no
    later step reads and the trace, and whose [energy] entries agree on the
    temperatures of nodes 0 and 1. *)
Definition agree (s1 s2 : state) : Prop :=
  (forall v b, cell s1 v b = cell s2 v b) /\
  soil_con s1 = soil_con s2 /\ moist s1 = moist s2 /\ ice s1 = ice s2 /\
  FIRST_VEG s1 = FIRST_VEG s2 /\
  forall v b,
    Energy.T (energy s1 v b) 0 = Energy.T (energy s2 v b) 0 /\
    Energy.T (energy s1 v b) 1 = Energy.T (energy s2 v b) 1.

(** From two such states, [m1] and [m2], when both return, return the same
    value in two such states. *)
Definition alike_at {A} (s1 s2 : state) (m1 m2 : M A) : Prop :=
  forall a1 a2 s1' s2',
    m1 s1 = (Ret a1, s1') -> m2 s2 = (Ret a2, s2') ->
    a1 = a2 /\ agree s1' s2'.

Definition alike {A} (m1 m2 : M A) : Prop :=
  forall s1 s2, agree s1 s2 -> alike_at s1 s2 m1 m2.

Lemma alike_ret {A} (a : A) : alike (ret a) (ret a).
Proof.
  intros s1 s2 H a1 a2 s1' s2' E1 E2. inversion E1; inversion E2; subst. auto.
Qed.

Lemma alike_halt {A} k1 k2 : alike (@halt A k1) (@halt A k2).
Proof. intros s1 s2 H a1 a2 s1' s2' E1 E2. discriminate E1. Qed.

Lemma alike_modify f1 f2 :
  (forall s1 s2, agree s1 s2 -> agree (f1 s1) (f2 s2)) ->
  alike (modify f1) (modify f2).
Proof.
  intros Hf s1 s2 H a1 a2 s1' s2' E1 E2. inversion E1; inversion E2; subst.
  auto.
Qed.

Lemma alike_bind {A B} (m1 m2 : M A) (f1 f2 : A -> M B) :
  alike m1 m2 -> (forall a, alike (f1 a) (f2 a)) ->
  alike (bind m1 f1) (bind m2 f2).
Proof.
  intros Hm Hf s1 s2 H b1 b2 s1' s2'. rewrite !bind_run.
  specialize (Hm s1 s2 H).
  destruct (m1 s1) as [[a1|k1] t1] eqn:E1; [|discriminate].
  destruct (m2 s2) as [[a2|k2] t2] eqn:E2; [|discriminate].
  destruct (Hm a1 a2 t1 t2 E1 E2) as [<- Ht].
  apply (Hf a1 t1 t2 Ht).
Qed.

Lemma alike_get_bind {B} (f1 f2 : state -> M B) :
  (forall s1 s2, agree s1 s2 -> alike_at s1 s2 (f1 s1) (f2 s2)) ->
  alike (bind get f1) (bind get f2).
Proof. intros Hf s1 s2 H. exact (Hf s1 s2 H). Qed.

Lemma alike_when b m1 m2 : alike m1 m2 -> alike (when b m1) (when b m2).
Proof. intros H. destruct b; [exact H|apply alike_ret]. Qed.

Lemma alike_for_each {X} (l : list X) (body1 body2 : X -> M unit) :
  (forall x, In x l -> alike (body1 x) (body2 x)) ->
  alike (for_each l body1) (for_each l body2).
Proof.
  induction l as [|x l IH]; intros H; cbn [for_each].
  - apply alike_ret.
  - apply alike_bind; [apply H; now left|].
    intros _. apply IH. intros y Hy. apply H. now right.
Qed.

Section Alike.

Context (K : constants) (X : collaborators).
Context (options : option_struct) (global_param : global_param_struct).
Context (veg_con : nat -> veg_con_struct).

Lemma alike_log_err m1 m2 : alike (log_err m1) (log_err m2).
Proof. intros s1 s2 H a1 a2 s1' s2' E1 E2. discriminate E1. Qed.

Lemma alike_load_moist veg band lidx :
  alike (load_moist K veg band lidx) (load_moist K veg band lidx).
Proof.
  intros s1 s2 H a1 a2 s1' s2'. unfold load_moist, halt.
  destruct H as (Hc & Hs & Hm & Hi & Hf & Ht).
  destruct (moist_index_ok K veg band lidx); [|discriminate].
  cbn beta. rewrite <- Hm.
  destruct (moist s1 !! (veg, band, lidx)); [|discriminate].
  intros E1 E2. inversion E1; inversion E2; subst.
  split; [reflexivity|]. repeat split; try assumption; apply Ht.
Qed.

Lemma alike_load_ice veg band lidx frost_area :
  alike (load_ice K veg band lidx frost_area)
    (load_ice K veg band lidx frost_area).
Proof.
  intros s1 s2 H a1 a2 s1' s2'. unfold load_ice, halt.
  destruct H as (Hc & Hs & Hm & Hi & Hf & Ht).
  destruct (ice_index_ok K veg band lidx frost_area); [|discriminate].
  cbn beta. rewrite <- Hi.
  destruct (ice s1 !! (veg, band, lidx, frost_area)); [|discriminate].
  intros E1 E2. inversion E1; inversion E2; subst.
  split; [reflexivity|]. repeat split; try assumption; apply Ht.
Qed.

Lemma alike_load_row veg band lidxs :
  alike (load_row K veg band lidxs) (load_row K veg band lidxs).
Proof.
  induction lidxs as [|lidx rest IH]; cbn [load_row].
  - apply alike_ret.
  - apply alike_bind; [apply alike_load_moist|]. intros x.
    apply alike_bind; [exact IH|]. intros xs. apply alike_ret.
Qed.

Lemma alike_store_moist veg band lidx x :
  alike (store_moist K veg band lidx x) (store_moist K veg band lidx x).
Proof.
  unfold store_moist. destruct (moist_index_ok K veg band lidx);
    [|apply alike_halt].
  apply alike_modify. intros s1 s2 (Hc & Hs & Hm & Hi & Hf & Ht).
  unfold agree. cbn [cell soil_con moist ice FIRST_VEG energy set_moist].
  rewrite Hm. auto 10.
Qed.

Lemma alike_store_ice veg band lidx frost_area x :
  alike (store_ice K veg band lidx frost_area x)
    (store_ice K veg band lidx frost_area x).
Proof.
  unfold store_ice. destruct (ice_index_ok K veg band lidx frost_area);
    [|apply alike_halt].
  apply alike_modify. intros s1 s2 (Hc & Hs & Hm & Hi & Hf & Ht).
  unfold agree. cbn [cell soil_con moist ice FIRST_VEG energy set_ice].
  rewrite Hi. auto 10.
Qed.

(** An assignment to [cell[veg][band]] of a value computed from what the two
    states agree on. *)
Lemma agree_set_cell veg band c s1 s2 :
  agree s1 s2 ->
  agree (set_cell (upd2 (cell s1) veg band c) s1)
    (set_cell (upd2 (cell s2) veg band c) s2).
Proof.
  intros (Hc & Hs & Hm & Hi & Hf & Ht). unfold agree.
  cbn [cell soil_con moist ice FIRST_VEG energy set_cell].
  split; [|auto 10]. intros v b. unfold upd2.
  destruct ((v =? veg) && (b =? band)); [reflexivity|apply Hc].
Qed.

Lemma alike_first_pass_tile veg band :
  alike (first_pass_tile K X options veg band)
    (first_pass_tile K X options veg band).
Proof.
  unfold first_pass_tile.
  apply alike_bind; [|intros _; apply alike_bind;
                      [apply alike_load_row|intros row]].
  - apply alike_for_each. intros lidx _. unfold snapshot_layer.
    apply alike_get_bind. intros s1 s2 H.
    pose proof H as (Hc & _). rewrite (Hc veg band).
    apply alike_bind; [apply alike_store_moist| |exact H]. intros _.
    apply alike_for_each. intros fa _. apply alike_get_bind.
    intros t1 t2 H'. pose proof H' as (Hc' & _).
    rewrite (Hc' veg band). apply alike_store_ice, H'.
  - apply alike_bind; [|intros _]; apply alike_modify;
      intros s1 s2 H; pose proof H as (Hc & Hs & Hm & Hi & Hf & Ht).
    + unfold call_compute_runoff_and_asat. rewrite Hs, (Hc veg band).
      destruct (compute_runoff_and_asat X (soil_con s2) row 0) as [A r].
      destruct (agree_set_cell veg band (with_asat A (cell s2 veg band)) H)
        as (Hc' & Hs' & Hm' & Hi' & Hf' & Ht').
      repeat split; try assumption; apply Ht'.
    + unfold call_wrap_compute_zwt. rewrite Hs, (Hc veg band).
      destruct (agree_set_cell veg band
                  (wrap_compute_zwt X (soil_con s2) (cell s2 veg band)) H)
        as (Hc' & Hs' & Hm' & Hi' & Hf' & Ht').
      repeat split; try assumption; apply Ht'.
Qed.


Context (Hquick : QUICK_FLUX options = true).

Lemma alike_node_moisture veg band :
  alike (node_moisture K X options veg band)
    (node_moisture K X options veg band).
Proof.
  unfold node_moisture. apply alike_when.
  apply alike_bind; [apply alike_load_row|]. intros row.
  intros s1 s2 H b1 b2 s1' s2'. rewrite !bind_run. unfold call_distribute.
  do 2 match goal with
    | |- context [distribute_node_moisture_properties X ?a1 ?a2 ?a3 ?a4 ?a5
                    ?a6 ?a7 ?a8 ?a9 ?a10 ?a11 ?a12 ?a13 ?a14 ?a15 ?a16 ?a17
                    ?a18 ?a19 ?a20] =>
        destruct (distribute_node_moisture_properties X a1 a2 a3 a4 a5 a6 a7
                    a8 a9 a10 a11 a12 a13 a14 a15 a16 a17 a18 a19 a20)
          as [? [[[? ?] ?] ?]]
    end.
  do 2 match goal with
    | |- context [(?z =? ERROR K)%Z] => destruct (z =? ERROR K)%Z
    end;
    cbn [when log_err ret]; intros E1 E2; try discriminate.
  inversion E1; inversion E2; subst. split; [reflexivity|].
  destruct H as (Hc & Hs & Hm & Hi & Hf & Ht). unfold agree.
  cbn [cell soil_con moist ice FIRST_VEG energy emit set_ErrorFlag
         set_energy].
  repeat (split; [assumption|]). intros v b. unfold upd2.
  destruct ((v =? veg) && (b =? band)) eqn:E; [|apply Ht].
  apply andb_true_iff in E as [Ev Eb].
  apply Nat.eqb_eq in Ev, Eb. subst. cbn [Energy.T with_node_properties].
  apply Ht.
Qed.

Lemma alike_check_node_spacing veg band :
  alike (check_node_spacing X options global_param veg band)
    (check_node_spacing X options global_param veg band).
Proof.
  unfold check_node_spacing. rewrite Hquick.
  replace (FROZEN_SOIL options && negb true && negb (IMPLICIT options))
    with false by (destruct (FROZEN_SOIL options); reflexivity).
  apply alike_ret.
Qed.

Lemma alike_restore_tile veg band :
  alike (restore_tile K options veg band) (restore_tile K options veg band).
Proof.
  apply alike_for_each. intros lidx _. unfold restore_layer.
  apply alike_bind; [apply alike_load_moist|]. intros x.
  apply alike_bind.
  { apply alike_modify. intros s1 s2 H. unfold assign_layer_moist.
    pose proof H as (Hc & _). rewrite (Hc veg band).
    apply agree_set_cell, H. }
  intros _. apply alike_for_each. intros fa _.
  apply alike_bind; [apply alike_load_ice|]. intros y.
  apply alike_modify. intros s1 s2 H. unfold assign_layer_ice.
  pose proof H as (Hc & _). rewrite (Hc veg band).
  apply agree_set_cell, H.
Qed.

Lemma alike_call_quick_flux veg band :
  alike (call_quick_flux X veg band) (call_quick_flux X veg band).
Proof.
  intros s1 s2 H a1 a2 s1' s2'. unfold call_quick_flux.
  pose proof H as (Hc & Hs & Hm & Hi & Hf & Ht).
  destruct (Ht veg band) as [-> ->]. rewrite Hs, (Hc veg band).
  destruct (estimate_layer_ice_content_quick_flux _ _ _ _ _ _ _ _ _ _ _ _ _)
    as [flag l'].
  intros E1 E2. inversion E1; inversion E2; subst. split; [reflexivity|].
  destruct (agree_set_cell veg band (with_layer l' (cell s2 veg band)) H)
    as (Hc' & Hs' & Hm' & Hi' & Hf' & Ht').
  repeat split; try assumption; apply Ht'.
Qed.

Lemma alike_second_pass_tile veg band :
  alike (second_pass_tile K X options global_param veg band)
    (second_pass_tile K X options global_param veg band).
Proof.
  unfold second_pass_tile.
  apply alike_bind; [|intros _].
  { unfold node_parameters_once. apply alike_get_bind. intros s1 s2 H.
    pose proof H as (Hc & Hs & Hm & Hi & Hf & Ht). rewrite Hf.
    destruct (FIRST_VEG s2) as [[]|]; [|apply alike_ret, H|apply alike_halt, H].
    apply alike_bind; [| |exact H].
    - apply alike_modify. intros t1 t2 (Hc1 & Hs1 & Hm1 & Hi1 & Hf1 & Ht1).
      repeat split; try assumption; apply Ht1.
    - intros _. apply alike_modify.
      intros t1 t2 (Hc1 & Hs1 & Hm1 & Hi1 & Hf1 & Ht1).
      unfold call_set_node_parameters, agree.
      cbn [cell soil_con moist ice FIRST_VEG energy emit set_soil_con].
      rewrite Hs1. repeat split; try assumption; apply Ht1. }
  apply alike_bind; [apply alike_node_moisture|intros _].
  apply alike_bind; [apply alike_check_node_spacing|intros _].
  apply alike_bind; [apply alike_restore_tile|intros _].
  apply alike_bind; [|intros _].
  { unfold ice_content. rewrite Hquick.
    apply alike_bind; [apply alike_call_quick_flux|]. intros flag.
    apply alike_when, alike_log_err. }
  unfold fronts. apply alike_get_bind. intros s1 s2 H. rewrite Hquick.
  cbn [negb andb]. apply alike_ret, H.
Qed.

Lemma alike_for_tiles (body : nat -> nat -> M unit) :
  (forall veg band, alike (body veg band) (body veg band)) ->
  alike (for_tiles options veg_con body) (for_tiles options veg_con body).
Proof.
  intros Hb. unfold for_tiles. apply alike_for_each. intros veg _.
  apply alike_when. apply alike_for_each. intros band _.
  apply alike_get_bind. intros s1 s2 H. pose proof H as (_ & Hs & _).
  rewrite Hs. apply alike_when; [apply Hb|exact H].
Qed.

Lemma alike_body :
  alike (body K X options global_param veg_con)
    (body K X options global_param veg_con).
Proof.
  unfold body.
  apply alike_bind;
    [apply alike_for_tiles, alike_first_pass_tile|intros _].
  apply alike_bind; [|intros _; apply alike_for_tiles, alike_second_pass_tile].
  apply alike_modify. intros s1 s2 (Hc & Hs & Hm & Hi & Hf & Ht).
  repeat split; try assumption; apply Ht.
Qed.

(** C8: with quick-flux on, two runs of the function from inputs that agree
    on everything but the [energy] entries, and agree there on the
    temperatures of nodes 0 and 1, leave, when both return, the same [cell]
    entries: the same layer moisture and the same ice content in every layer
    and frost area.  The temperatures of the deeper nodes have no part in
    what the quick-flux estimator writes. *)
Theorem quick_flux_reads_two_temperatures
  (all_vars1 all_vars2 : AllVars.all_vars_struct)
  (soil_con0 : soil_con_struct) :
  (forall v b, AllVars.cell all_vars1 v b = AllVars.cell all_vars2 v b) ->
  (forall v b,
     Energy.T (AllVars.energy all_vars1 v b) 0
     = Energy.T (AllVars.energy all_vars2 v b) 0 /\
     Energy.T (AllVars.energy all_vars1 v b) 1
     = Energy.T (AllVars.energy all_vars2 v b) 1) ->
  let run1 :=
    compute_derived_state_vars K X options global_param veg_con all_vars1
      soil_con0 in
  let run2 :=
    compute_derived_state_vars K X options global_param veg_con all_vars2
      soil_con0 in
  fst run1 = Ret tt -> fst run2 = Ret tt ->
  forall v b,
    cell (snd run1) v b = cell (snd run2) v b /\
    forall lidx frost_area,
      Layer.ice (layer (cell (snd run1) v b) lidx) frost_area
      = Layer.ice (layer (cell (snd run2) v b) lidx) frost_area.
Proof.
  intros Hc Ht run1 run2 H1 H2 v b.
  assert (H0 : agree (entry all_vars1 soil_con0) (entry all_vars2 soil_con0)).
  { unfold agree, entry. cbn [cell soil_con moist ice FIRST_VEG energy].
    auto 10. }
  subst run1 run2. unfold compute_derived_state_vars in *.
  destruct (body K X options global_param veg_con (entry all_vars1 soil_con0))
    as [r1 s1] eqn:E1.
  destruct (body K X options global_param veg_con (entry all_vars2 soil_con0))
    as [r2 s2] eqn:E2.
  cbn [fst snd] in *. subst r1 r2.
  destruct (alike_body H0 E1 E2) as [_ (Hcell & _)].
  rewrite (Hcell v b). auto.
Qed.

End Alike.

(** ** Further properties of the function *)

(** The moisture of the first [options.Nlayer] layers of [c]: what a
    callee reads in the row [moist[veg][band]] once the first pass has
    copied the layers of [c] into it. *)
Definition layer_moist_row (options : option_struct) (c : cell_data_struct) :
  list float :=
  map (fun lidx => Layer.moist (layer c lidx)) (seq 0 (Nlayer options)).

(** The cell entry of a tile when the first pass is done with it
    (lines 89-92), written out from the two calls: [asat] is the first
    result of [compute_runoff_and_asat] on the tile's row with no inflow,
    [zwt] and [layer] are those of [c], and the entry is then whatever
    [wrap_compute_zwt] makes of that. *)
Definition first_pass_cell (X : collaborators) (options : option_struct)
  (soil : soil_con_struct) (c : cell_data_struct) : cell_data_struct :=
  wrap_compute_zwt X soil
    {| asat :=
         fst (compute_runoff_and_asat X soil (layer_moist_row options c) 0);
       zwt := zwt c;
       layer := layer c |}.

Section RowValue.

Context (K : constants) (options : option_struct).

Lemma load_row_value veg band c s lidxs :
  (forall lidx, In lidx lidxs -> holds_moist K veg band lidx c s) ->
  load_row K veg band lidxs s
  = (Ret (map (fun lidx => Layer.moist (layer c lidx)) lidxs), s).
Proof.
  induction lidxs as [|lidx rest IH]; intros H; cbn [load_row map];
    [reflexivity|].
  rewrite bind_run. unfold load_moist at 1.
  destruct (H lidx (or_introl eq_refl)) as [Hok Hv]. rewrite Hok, Hv.
  rewrite bind_run, IH by (intros l Hl; apply H; now right).
  reflexivity.
Qed.

Lemma moist_row_value veg band c s :
  holds_tile K options veg band c s ->
  moist_row K options veg band s = (Ret (layer_moist_row options c), s).
Proof.
  intros H. apply load_row_value. intros lidx Hl. apply in_seq in Hl.
  apply H. lia.
Qed.

End RowValue.

Section FirstPassResult.

Context (K : constants) (X : collaborators) (options : option_struct).

(** Lines 76-92 on one tile: what a completed first pass leaves in the
    tile's cell entry and in the trace. *)
Lemma first_pass_tile_result veg band s :
  let rs := first_pass_tile K X options veg band s in
  fst rs = Ret tt ->
  cell (snd rs) veg band
  = first_pass_cell X options (soil_con s) (cell s veg band) /\
  trace (snd rs)
  = trace s ++ [runoff_asat_call veg band
                  (layer_moist_row options (cell s veg band));
                zwt_call veg band].
Proof.
  intros rs. subst rs. unfold first_pass_tile. rewrite bind_run.
  pose proof (snapshot_tile_spec K options veg band (s0:=s) eq_refl) as H.
  destruct (snapshot_tile K options veg band s) as [r s1].
  cbn [fst snd] in H. destruct H as ((Hc & He & Hs & Hf & Ht) & HK & HR).
  destruct r as [[]|k]; [|discriminate].
  rewrite bind_run, (moist_row_value HR).
  cbn [bind modify fst snd]. intros _.
  unfold call_wrap_compute_zwt, call_compute_runoff_and_asat,
    first_pass_cell.
  rewrite Hs, Hc.
  destruct (compute_runoff_and_asat X (soil_con s)
              (layer_moist_row options (cell s veg band)) 0) as [A runoff].
  cbn [cell soil_con trace emit set_tmp_runoff set_cell fst].
  rewrite !upd2_same, Ht, ?Hs, <- app_assoc. split; reflexivity.
Qed.

End FirstPassResult.

Section FirstPassRun.

Context (K : constants) (X : collaborators) (options : option_struct).
Context (veg_con : nat -> veg_con_struct).
Context (all_vars : AllVars.all_vars_struct) (soil0 : soil_con_struct).

Local Abbreviation sel := (selected_tiles options veg_con (AreaFract soil0)).
Local Abbreviation cell0 := (AllVars.cell all_vars).

(** The two events of the first pass on tile [t]. *)
Definition first_pass_events (t : nat * nat) : list event :=
  [runoff_asat_call (fst t) (snd t)
     (layer_moist_row options (cell0 (fst t) (snd t)));
   zwt_call (fst t) (snd t)].

(** Lines 68-96, when the loop nest runs to its end: the cell entries and
    the trace it leaves. *)
Lemma first_pass_run_result :
  let rs :=
    for_each sel (fun t => first_pass_tile K X options (fst t) (snd t))
      (entry all_vars soil0) in
  fst rs = Ret tt ->
  (forall v b, ~ In (v, b) sel -> cell (snd rs) v b = cell0 v b) /\
  (forall v b, In (v, b) sel ->
     cell (snd rs) v b = first_pass_cell X options soil0 (cell0 v b)) /\
  trace (snd rs) = flat_map first_pass_events sel.
Proof.
  pose (Inv := fun (done : list (nat * nat)) s =>
    soil_con s = soil0 /\
    (forall v b, ~ In (v, b) done -> cell s v b = cell0 v b) /\
    (forall v b, In (v, b) done ->
       cell s v b = first_pass_cell X options soil0 (cell0 v b)) /\
    trace s = flat_map first_pass_events done).
  assert (H : hoare (Inv [])
    (for_each sel (fun t => first_pass_tile K X options (fst t) (snd t)))
    (fun r s => match r with Ret _ => Inv sel s | Stop _ => True end)).
  { apply hoare_for_list with (I := Inv) (E := fun _ _ => True).
    intros done [veg band] rest Hsel s (Hc & Hcell & Hd & Ht).
    assert (Hnew : ~ In (veg, band) done).
    { pose proof (NoDup_selected_tiles options veg_con (AreaFract soil0))
        as Hnd.
      rewrite Hsel in Hnd. apply NoDup_remove_2 in Hnd.
      intros Hin. apply Hnd, in_or_app. now left. }
    cbn [fst snd].
    pose proof (first_pass_tile_spec K X options veg band (s0:=s) eq_refl)
      as Hf.
    pose proof (first_pass_tile_result K X options veg band s) as Hr.
    cbn zeta in Hr.
    destruct (first_pass_tile K X options veg band s) as [r s1].
    cbn [fst snd] in Hf, Hr. destruct r as [[]|k]; [|exact I].
    destruct Hf as (_ & Hcell1 & _ & Hc1 & _).
    destruct (Hr eq_refl) as [Hv Ht1]. unfold Inv. cbn [fst snd].
    split; [congruence|]. split; [|split].
    - intros v b Hvb. rewrite Hcell1; [apply Hcell|].
      + intros Hin. apply Hvb, in_or_app. now left.
      + intros E. apply Hvb, in_or_app. right. left. now symmetry.
    - intros v b Hvb. apply in_app_or in Hvb as [Hvb|[E|[]]].
      + rewrite Hcell1; [apply Hd, Hvb|].
        intros E. inversion E; subst v b. contradiction.
      + inversion E; subst v b. rewrite Hv, Hc, (Hcell veg band Hnew).
        reflexivity.
    - rewrite Ht1, Ht, flat_map_app, (Hcell veg band Hnew). cbn [flat_map].
      now rewrite app_nil_r. }
  intros rs. subst rs.
  assert (H0 : Inv [] (entry all_vars soil0)).
  { repeat split. intros v b []. }
  specialize (H _ H0).
  destruct (for_each sel _ (entry all_vars soil0)) as [[[]|k] s1];
    cbn [fst snd] in *; [|discriminate].
  intros _. destruct H as (_ & Hcell & Hd & Ht). auto.
Qed.

End FirstPassRun.

(** *** What a completed second pass leaves in a tile *)

(** The routines called, and [log_err]. *)
Inductive callee :=
| to_compute_runoff_and_asat
| to_wrap_compute_zwt
| to_set_node_parameters
| to_distribute_node_moisture_properties
| to_estimate_layer_ice_content_quick_flux
| to_estimate_layer_ice_content
| to_find_0_degree_fronts
| to_log_err.

(** The routine an event is a call of, and the tile it was called for. *)
Definition call_of (e : event) : callee * option (nat * nat) :=
  match e with
  | runoff_asat_call veg band _ =>
      (to_compute_runoff_and_asat, Some (veg, band))
  | zwt_call veg band => (to_wrap_compute_zwt, Some (veg, band))
  | node_parameters_call => (to_set_node_parameters, None)
  | distribute_call veg band _ _ _ =>
      (to_distribute_node_moisture_properties, Some (veg, band))
  | quick_flux_call veg band _ _ _ _ _ _ =>
      (to_estimate_layer_ice_content_quick_flux, Some (veg, band))
  | ice_content_call veg band _ _ _ _ _ =>
      (to_estimate_layer_ice_content, Some (veg, band))
  | fronts_call veg band _ => (to_find_0_degree_fronts, Some (veg, band))
  | logged _ => (to_log_err, None)
  end.

(** The layers [l] carry the moisture and ice of [c] in the first
    [options.Nlayer] layers and [options.Nfrost] frost areas. *)
Definition carries (options : option_struct) (c : cell_data_struct)
  (l : nat -> Layer.layer_data_struct) : Prop :=
  forall lidx, lidx < Nlayer options ->
    Layer.moist (l lidx) = Layer.moist (layer c lidx) /\
    forall frost_area, frost_area < Nfrost options ->
      Layer.ice (l lidx) frost_area = Layer.ice (layer c lidx) frost_area.

Section TileValues.

Context (X : collaborators) (options : option_struct).
Context (soil : soil_con_struct).

(** The [energy] entry after lines 126-152, from the entry [e] and the
    row [row] of [moist], written out from the call: with either option
    on, the four node arrays are those that
    [distribute_node_moisture_properties] returned and every other member
    is the one of [e]; with both off, the entry is [e]. *)
Definition node_moisture_energy (row : list float)
  (e : Energy.energy_bal_struct) : Energy.energy_bal_struct :=
  if FULL_ENERGY options || FROZEN_SOIL options
  then
    let '(_, (moist_node, ice_node, kappa_node', Cs_node')) :=
      distribute_node_moisture_properties X
        (Energy.moist e) (Energy.ice e) (Energy.kappa_node e)
        (Energy.Cs_node e) (Zsum_node soil) (Energy.T e)
        (max_moist_node soil) (expt_node soil) (bubble_node soil)
        row (depth soil) (soil_dens_min soil) (bulk_dens_min soil)
        (quartz soil) (soil_density soil) (bulk_density soil)
        (organic soil) (Nnode options) (Nlayer options)
        (FS_ACTIVE soil) in
    {| Energy.moist := moist_node;
       Energy.ice := ice_node;
       Energy.kappa_node := kappa_node';
       Energy.Cs_node := Cs_node';
       Energy.T := Energy.T e;
       Energy.fdepth := Energy.fdepth e;
       Energy.tdepth := Energy.tdepth e |}
  else e.

(** The bound of lines 161-164 for a tile, written out from the source:
    [0.5 * Cs_node[1] / kappa_node[1] * pow(dz_node[1], 2)] on the node
    properties that lines 126-152 leave for the entry [e] and the row
    [row], each operation rounded as written. *)
Definition tile_bound (row : list float) (e : Energy.energy_bal_struct) :
  float :=
  let e' := node_moisture_energy row e in
  (0.5 * Energy.Cs_node e' 1%nat / Energy.kappa_node e' 1%nat
   * pow X (dz_node soil 1%nat) 2)%float.

(** The layers that the estimator of lines 196-230 returns for the layers
    [l], with the [energy] entry [e]. *)
Definition estimated_layers (e : Energy.energy_bal_struct)
  (l : nat -> Layer.layer_data_struct) : nat -> Layer.layer_data_struct :=
  if QUICK_FLUX options
  then snd (estimate_layer_ice_content_quick_flux X l (depth soil) (dp soil)
              (Energy.T e 0) (Energy.T e 1) (avg_temp soil) (max_moist soil)
              (expt soil) (bubble soil) (frost_fract soil) (frost_slope soil)
              (FS_ACTIVE soil))
  else snd (estimate_layer_ice_content X l (Zsum_node soil) (Energy.T e)
              (depth soil) (max_moist soil) (expt soil) (bubble soil)
              (frost_fract soil) (frost_slope soil) (Nnode options)
              (Nlayer options) (FS_ACTIVE soil)).

(** The [energy] entry after lines 233-238. *)
Definition fronts_energy (e : Energy.energy_bal_struct) :
  Energy.energy_bal_struct :=
  if negb (QUICK_FLUX options) && FS_ACTIVE soil
  then find_0_degree_fronts X e (Zsum_node soil) (Energy.T e) (Nnode options)
  else e.

(** The calls of lines 126-238 for tile [t], in a run that goes through
    them. *)
Definition tile_schedule (t : nat * nat) : list (callee * option (nat * nat)) :=
  (if FULL_ENERGY options || FROZEN_SOIL options
   then [(to_distribute_node_moisture_properties, Some t)] else []) ++
  [(if QUICK_FLUX options then to_estimate_layer_ice_content_quick_flux
    else to_estimate_layer_ice_content, Some t)] ++
  (if negb (QUICK_FLUX options) && FS_ACTIVE soil
   then [(to_find_0_degree_fronts, Some t)] else []).

End TileValues.

Section TileResults.

Context (K : constants) (X : collaborators).
Context (options : option_struct) (global_param : global_param_struct).

Local Abbreviation holds_tile := (holds_tile K options).

(** Lines 126-152. *)
Lemma node_moisture_result veg band c s :
  holds_tile veg band c s ->
  let rs := node_moisture K X options veg band s in
  fst rs = Ret tt ->
  cell (snd rs) = cell s /\
  energy (snd rs) veg band
  = node_moisture_energy X options (soil_con s) (layer_moist_row options c)
      (energy s veg band) /\
  exists new,
    trace (snd rs) = trace s ++ new /\
    map call_of new
    = if FULL_ENERGY options || FROZEN_SOIL options
      then [(to_distribute_node_moisture_properties, Some (veg, band))]
      else [].
Proof.
  intros Hs rs. subst rs. unfold node_moisture, node_moisture_energy.
  destruct (FULL_ENERGY options || FROZEN_SOIL options); cbn [when].
  2:{ intros _. cbn [ret fst snd]. split; [reflexivity|].
      split; [reflexivity|]. exists []. now rewrite app_nil_r. }
  rewrite bind_run, (moist_row_value Hs), bind_run. unfold call_distribute.
  destruct (distribute_node_moisture_properties _ _ _ _ _ _ _ _ _ _ _ _ _ _
              _ _ _ _ _ _ _) as [flag out].
  destruct (Z.eqb_spec flag (ERROR K)) as [->|Hflag];
    cbn [when log_err ret fst snd]; [discriminate|].
  intros _. cbn [cell energy trace emit set_ErrorFlag set_energy].
  rewrite upd2_same. split; [reflexivity|]. split; [reflexivity|].
  eexists. split; reflexivity.
Qed.

(** Lines 158-183. *)
Lemma check_node_spacing_result veg band s :
  let rs := check_node_spacing X options global_param veg band s in
  fst rs = Ret tt ->
  cell (snd rs) = cell s /\ energy (snd rs) = energy s /\
  trace (snd rs) = trace s.
Proof.
  intros rs. subst rs. unfold check_node_spacing.
  destruct (FROZEN_SOIL options && negb (QUICK_FLUX options)
            && negb (IMPLICIT options)); cbn [when ret fst snd]; [|auto].
  cbn [bind get modify].
  destruct (double_gt _ _); cbn [when log_err ret fst snd]; [discriminate|].
  auto.
Qed.

(** Lines 186-195. *)
Lemma restore_tile_result veg band c s :
  holds_tile veg band c s ->
  let rs := restore_tile K options veg band s in
  fst rs = Ret tt ->
  same_but_layers veg band s (snd rs) /\
  carries options c (layer (cell (snd rs) veg band)).
Proof.
  intros Hs rs. subst rs.
  pose proof (restore_tile_spec K options veg band (s0:=s) eq_refl) as H.
  destruct (restore_tile K options veg band s) as [r s3].
  cbn [fst snd] in *. intros ->. destruct H as [HS HR].
  split; [exact HS|]. intros lidx Hl.
  destruct (Hs lidx Hl) as [[_ Hm] Hi]. destruct (HR lidx Hl) as [Hm' Hi'].
  split; [congruence|]. intros fa Hfa.
  destruct (Hi fa Hfa) as [_ Hv]. specialize (Hi' fa Hfa). congruence.
Qed.

(** Lines 196-230. *)
Lemma ice_content_result veg band s :
  let rs := ice_content K X options veg band s in
  fst rs = Ret tt ->
  energy (snd rs) = energy s /\ soil_con (snd rs) = soil_con s /\
  asat (cell (snd rs) veg band) = asat (cell s veg band) /\
  zwt (cell (snd rs) veg band) = zwt (cell s veg band) /\
  layer (cell (snd rs) veg band)
  = estimated_layers X options (soil_con s) (energy s veg band)
      (layer (cell s veg band)) /\
  exists new,
    trace (snd rs) = trace s ++ new /\
    map call_of new
    = [(if QUICK_FLUX options then to_estimate_layer_ice_content_quick_flux
        else to_estimate_layer_ice_content, Some (veg, band))].
Proof.
  intros rs. subst rs. unfold ice_content, estimated_layers.
  destruct (QUICK_FLUX options); rewrite bind_run;
    unfold call_quick_flux, call_ice_content;
    match goal with
    | |- context [estimate_layer_ice_content_quick_flux X ?a1 ?a2 ?a3 ?a4
                    ?a5 ?a6 ?a7 ?a8 ?a9 ?a10 ?a11 ?a12] =>
        destruct (estimate_layer_ice_content_quick_flux X a1 a2 a3 a4 a5 a6
                    a7 a8 a9 a10 a11 a12) as [flag l']
    | |- context [estimate_layer_ice_content X ?a1 ?a2 ?a3 ?a4
                    ?a5 ?a6 ?a7 ?a8 ?a9 ?a10 ?a11 ?a12] =>
        destruct (estimate_layer_ice_content X a1 a2 a3 a4 a5 a6
                    a7 a8 a9 a10 a11 a12) as [flag l']
    end;
    (destruct (Z.eqb_spec flag (ERROR K)) as [->|Hflag];
     cbn [when log_err ret fst snd]; [discriminate|]);
    intros _; cbn [cell energy soil_con trace emit set_ErrorFlag set_cell];
    rewrite upd2_same; cbn [asat zwt layer with_layer];
    (split; [reflexivity|]); (split; [reflexivity|]);
    (split; [reflexivity|]);
    (split; [reflexivity|]); (split; [reflexivity|]);
    eexists; split; reflexivity.
Qed.

(** Lines 233-238. *)
Lemma fronts_result veg band s :
  let rs := fronts X options veg band s in
  fst rs = Ret tt /\ cell (snd rs) = cell s /\
  energy (snd rs) veg band
  = fronts_energy X options (soil_con s) (energy s veg band) /\
  exists new,
    trace (snd rs) = trace s ++ new /\
    map call_of new
    = if negb (QUICK_FLUX options) && FS_ACTIVE (soil_con s)
      then [(to_find_0_degree_fronts, Some (veg, band))] else [].
Proof.
  intros rs. subst rs. unfold fronts, fronts_energy. cbn [bind get].
  destruct (negb (QUICK_FLUX options) && FS_ACTIVE (soil_con s));
    cbn [when modify ret fst snd].
  - unfold call_find_0_degree_fronts.
    cbn [cell energy trace emit set_energy]. rewrite upd2_same.
    split; [reflexivity|]. split; [reflexivity|]. split; [reflexivity|].
    eexists. split; reflexivity.
  - split; [reflexivity|]. split; [reflexivity|]. split; [reflexivity|].
    exists []. now rewrite app_nil_r.
Qed.

End TileResults.

Section TileResult.

Context (K : constants) (X : collaborators).
Context (options : option_struct) (global_param : global_param_struct).

Local Abbreviation holds_tile := (holds_tile K options).

(** Lines 126-238 on one tile, when they run to their end. *)
Lemma tile_after_parameters_result veg band c s :
  holds_tile veg band c s ->
  let soil := soil_con s in
  let e1 :=
    node_moisture_energy X options soil (layer_moist_row options c)
      (energy s veg band) in
  let rs := tile_after_parameters K X options global_param veg band s in
  fst rs = Ret tt ->
  energy (snd rs) veg band = fronts_energy X options soil e1 /\
  asat (cell (snd rs) veg band) = asat (cell s veg band) /\
  zwt (cell (snd rs) veg band) = zwt (cell s veg band) /\
  (exists l,
     carries options c l /\
     layer (cell (snd rs) veg band) = estimated_layers X options soil e1 l) /\
  exists new,
    trace (snd rs) = trace s ++ new /\
    map call_of new = tile_schedule options soil (veg, band).
Proof.
  intros Hs soil e1 rs. subst rs. unfold tile_after_parameters.
  (* lines 126-152 *)
  rewrite bind_run.
  destruct (@node_moisture_step K X options global_param veg band c s Hs)
    as ((Hm1 & Hi1 & _ & Hc1) & _).
  pose proof (@node_moisture_result K X options veg band c s Hs) as R1.
  cbn zeta in R1.
  destruct (node_moisture K X options veg band s) as [[[]|k1] s1];
    cbn [fst snd] in *; [|discriminate].
  destruct (R1 eq_refl) as (Hcell1 & He1 & new1 & Ht1 & Hk1). clear R1.
  assert (Hs1 : holds_tile veg band c s1).
  { eapply holds_tile_same; eassumption. }
  (* lines 158-183 *)
  rewrite bind_run.
  destruct (@check_node_spacing_step K X options global_param veg band c s1
              Hs1) as ((Hm2 & Hi2 & _ & Hc2) & _).
  pose proof (check_node_spacing_result X options global_param veg band s1)
    as R2.
  cbn zeta in R2.
  destruct (check_node_spacing X options global_param veg band s1)
    as [[[]|k2] s2]; cbn [fst snd] in *; [|discriminate].
  destruct (R2 eq_refl) as (Hcell2 & He2 & Ht2). clear R2.
  assert (Hs2 : holds_tile veg band c s2).
  { eapply holds_tile_same; eassumption. }
  (* lines 186-195 *)
  rewrite bind_run.
  pose proof (@restore_tile_result K options veg band c s2 Hs2) as R3.
  cbn zeta in R3.
  destruct (restore_tile K options veg band s2) as [[[]|k3] s3];
    cbn [fst snd] in *; [|discriminate].
  destruct (R3 eq_refl) as (HS3 & Hcar). clear R3.
  destruct HS3 as (_ & Ha3 & Hz3 & He3 & Hc3 & _ & Ht3 & _ & _).
  (* lines 196-230 *)
  rewrite bind_run.
  pose proof (ice_content_result K X options veg band s3) as R4.
  cbn zeta in R4.
  destruct (ice_content K X options veg band s3) as [[[]|k4] s4];
    cbn [fst snd] in *; [|discriminate].
  destruct (R4 eq_refl) as (He4 & Hc4 & Ha4 & Hz4 & Hl4 & new4 & Ht4 & Hk4).
  clear R4.
  (* lines 233-238 *)
  intros _.
  pose proof (fronts_result X options veg band s4) as R5. cbn zeta in R5.
  destruct (fronts X options veg band s4) as [r5 s5]. cbn [fst snd] in *.
  destruct R5 as (_ & Hcell5 & He5 & new5 & Ht5 & Hk5).
  assert (Esoil : soil_con s4 = soil).
  { subst soil. congruence. }
  assert (Een : energy s4 veg band = e1).
  { subst e1 soil. rewrite He4, He3, He2. exact He1. }
  rewrite Esoil, Een in He5. split; [exact He5|].
  rewrite Hcell5, Ha4, Hz4, Ha3, Hz3, Hcell2, Hcell1.
  split; [reflexivity|]. split; [reflexivity|]. split.
  - exists (layer (cell s3 veg band)). split; [exact Hcar|].
    rewrite Hl4. f_equal; [|subst e1 soil; rewrite He3, He2; exact He1].
    subst soil. congruence.
  - exists (new1 ++ new4 ++ new5).
    rewrite Ht5, Ht4, Ht3, Ht2, Ht1, <- !app_assoc.
    split; [reflexivity|].
    rewrite !map_app, Hk1, Hk4, Hk5, Esoil. reflexivity.
Qed.

(** Lines 111-238 on one tile, when they run to their end. *)
Lemma second_pass_tile_result veg band c s fv :
  FIRST_VEG s = Some fv ->
  holds_tile veg band c s ->
  let soil :=
    if fv then node_parameters_set X options (soil_con s) else soil_con s in
  let e1 :=
    node_moisture_energy X options soil (layer_moist_row options c)
      (energy s veg band) in
  let rs := second_pass_tile K X options global_param veg band s in
  fst rs = Ret tt ->
  energy (snd rs) veg band = fronts_energy X options soil e1 /\
  asat (cell (snd rs) veg band) = asat (cell s veg band) /\
  zwt (cell (snd rs) veg band) = zwt (cell s veg band) /\
  (exists l,
     carries options c l /\
     layer (cell (snd rs) veg band) = estimated_layers X options soil e1 l) /\
  exists new,
    trace (snd rs)
    = trace s ++ (if fv then [node_parameters_call] else []) ++ new /\
    map call_of new = tile_schedule options soil (veg, band).
Proof.
  intros Hfv Hs soil e1 rs. subst rs. unfold second_pass_tile.
  rewrite bind_run. unfold node_parameters_once. cbn [bind get].
  rewrite Hfv.
  set (rest := (node_moisture K X options veg band ;; _)).
  change rest with (tile_after_parameters K X options global_param veg band).
  clear rest.
  destruct fv; cbn [bind modify ret fst snd].
  - set (s1 := call_set_node_parameters X options (set_FIRST_VEG false s)).
    assert (Hs1 : holds_tile veg band c s1).
    { eapply holds_tile_same; [| |exact Hs]; reflexivity. }
    intros Hr.
    destruct (tile_after_parameters_result Hs1 Hr)
      as (He & Ha & Hz & Hl & new & Ht & Hk).
    split; [exact He|]. split; [exact Ha|]. split; [exact Hz|].
    split; [exact Hl|]. exists new. split; [|exact Hk].
    rewrite Ht. subst s1. cbn [trace emit call_set_node_parameters
                                 set_soil_con set_FIRST_VEG].
    now rewrite <- app_assoc.
  - intros Hr.
    destruct (tile_after_parameters_result Hs Hr)
      as (He & Ha & Hz & Hl & new & Ht & Hk).
    split; [exact He|]. split; [exact Ha|]. split; [exact Hz|].
    split; [exact Hl|]. exists new. split; [exact Ht|exact Hk].
Qed.

End TileResult.

Section RunResult.

Context (K : constants) (X : collaborators).
Context (options : option_struct) (global_param : global_param_struct).
Context (veg_con : nat -> veg_con_struct).
Context (all_vars : AllVars.all_vars_struct) (soil0 : soil_con_struct).

Local Abbreviation sel := (selected_tiles options veg_con (AreaFract soil0)).
Local Abbreviation cell0 := (AllVars.cell all_vars).
Local Abbreviation G := (soil_after_parameters X options soil0).
Local Abbreviation P2 :=
  (fun t : nat * nat =>
     second_pass_tile K X options global_param (fst t) (snd t)).

(** What a completed second pass has made, in [s], of a tile whose cell
    entry was [c0] on entry and [c1] after the first pass, and whose
    [energy] entry was [e0]. *)
Definition tile_result (c0 c1 : cell_data_struct)
  (e0 : Energy.energy_bal_struct) (veg band : nat) (s : state) : Prop :=
  let e1 :=
    node_moisture_energy X options G (layer_moist_row options c0) e0 in
  energy s veg band = fronts_energy X options G e1 /\
  asat (cell s veg band) = asat c1 /\ zwt (cell s veg band) = zwt c1 /\
  exists l,
    carries options c0 l /\
    layer (cell s veg band) = estimated_layers X options G e1 l.

(** The calls of the second pass, in a run that goes through them. *)
Definition second_pass_schedule (tiles : list (nat * nat)) :
  list (callee * option (nat * nat)) :=
  match tiles with
  | [] => []
  | _ :: _ =>
      (to_set_node_parameters, None)
      :: flat_map (tile_schedule options G) tiles
  end.

(** Lines 102-242, when the loop nest runs to its end. *)
Lemma second_pass_run_result s1 :
  FIRST_VEG s1 = Some true -> soil_con s1 = soil0 ->
  (forall v b, In (v, b) sel -> holds_tile K options v b (cell0 v b) s1) ->
  let rs := for_each sel P2 s1 in
  fst rs = Ret tt ->
  (forall v b, In (v, b) sel ->
     tile_result (cell0 v b) (cell s1 v b) (energy s1 v b) v b (snd rs)) /\
  map call_of (trace (snd rs))
  = map call_of (trace s1) ++ second_pass_schedule sel.
Proof.
  intros Hfv Hsoil Hh.
  pose (Inv := fun (done : list (nat * nat)) s =>
    moist s = moist s1 /\ ice s = ice s1 /\
    (forall v b, ~ In (v, b) done ->
       cell s v b = cell s1 v b /\ energy s v b = energy s1 v b) /\
    (forall v b, In (v, b) done ->
       tile_result (cell0 v b) (cell s1 v b) (energy s1 v b) v b s) /\
    map call_of (trace s)
    = map call_of (trace s1) ++ second_pass_schedule done /\
    match done with
    | [] => s = s1
    | _ :: _ => FIRST_VEG s = Some false /\ soil_con s = G
    end).
  assert (H : hoare (Inv []) (for_each sel P2)
    (fun r s => match r with Ret _ => Inv sel s | Stop _ => True end)).
  { apply hoare_for_list with (I := Inv) (E := fun _ _ => True).
    intros done [veg band] rest Hsel s (Hm & Hi & Hnot & Hdone & Htr & HI).
    assert (Hin : In (veg, band) sel).
    { rewrite Hsel. apply in_or_app. right. now left. }
    assert (Hnew : ~ In (veg, band) done).
    { pose proof (NoDup_selected_tiles options veg_con (AreaFract soil0))
        as Hnd.
      rewrite Hsel in Hnd. apply NoDup_remove_2 in Hnd.
      intros Hd. apply Hnd, in_or_app. now left. }
    assert (Hs : holds_tile K options veg band (cell0 veg band) s).
    { eapply holds_tile_same; [exact Hm|exact Hi|]. apply Hh, Hin. }
    cbn [fst snd].
    assert (Hfv' : FIRST_VEG s = Some (match done with [] => true
                                                  | _ => false end)).
    { destruct done; [now subst s|apply HI]. }
    assert (Hsoil' :
      (if match done with [] => true | _ => false end
       then node_parameters_set X options (soil_con s) else soil_con s) = G).
    { destruct done; [subst s; now rewrite Hsoil|apply HI]. }
    pose proof (second_pass_tile_spec X global_param Hfv' Hs) as Hspec.
    pose proof (second_pass_tile_result X global_param Hfv' Hs) as Hres.
    pose proof (second_pass_tile_rel K X options global_param veg band s)
      as Hrel.
    cbn zeta in Hspec, Hres. rewrite Hsoil' in Hspec, Hres.
    destruct (second_pass_tile K X options global_param veg band s)
      as [r s2].
    cbn [fst snd] in Hspec, Hres, Hrel. destruct r as [[]|k]; [|exact I].
    destruct Hspec as (Hm2 & Hi2 & Hf2 & Hc2 & _).
    destruct (Hres eq_refl) as (He & Ha & Hz & Hl & new & Ht & Hk).
    destruct Hrel as [_ Hother].
    destruct (Hnot veg band Hnew) as [Hcell_s He_s].
    unfold Inv. cbn [fst snd]. split; [congruence|]. split; [congruence|].
    split; [|split; [|split]].
    - intros v b Hvb.
      assert (Hne : (v, b) <> (veg, band)).
      { intros E. apply Hvb, in_or_app. right. left. now symmetry. }
      destruct (Hother v b Hne) as [-> ->]. apply Hnot.
      intros Hd. apply Hvb, in_or_app. now left.
    - intros v b Hvb. apply in_app_or in Hvb as [Hvb|[E|[]]].
      + assert (Hne : (v, b) <> (veg, band)).
        { intros E. inversion E; subst v b. contradiction. }
        destruct (Hother v b Hne) as [Ec Ee].
        unfold tile_result. rewrite Ec, Ee. apply Hdone, Hvb.
      + inversion E; subst v b. unfold tile_result.
        rewrite <- Hcell_s, <- He_s. auto.
    - rewrite Ht, !map_app, Htr, Hk, <- app_assoc. f_equal.
      destruct done as [|d ds].
      + cbn [app map call_of second_pass_schedule flat_map].
        now rewrite app_nil_r.
      + change (second_pass_schedule ((d :: ds) ++ [(veg, band)]))
          with ((to_set_node_parameters, None)
                :: flat_map (tile_schedule options G)
                     ((d :: ds) ++ [(veg, band)])).
        rewrite flat_map_app. cbn [app map second_pass_schedule flat_map].
        now rewrite app_nil_r.
    - destruct done; cbn [app]; split; assumption. }
  intros rs. subst rs.
  assert (H0 : Inv [] s1).
  { unfold Inv. cbn [second_pass_schedule]. rewrite app_nil_r.
    split; [reflexivity|]. split; [reflexivity|].
    split; [intros v b _; split; reflexivity|].
    split; [intros v b []|]. split; reflexivity. }
  specialize (H s1 H0).
  destruct (for_each sel P2 s1) as [[[]|k] s2]; cbn [fst snd] in *;
    [|discriminate].
  intros _. destruct H as (_ & _ & _ & Hdone & Htr & _). auto.
Qed.

End RunResult.

(** The calls of a run that goes through both passes over [tiles]: the
    first pass tile by tile, [set_node_parameters] once if there is a tile,
    then the second pass tile by tile. *)
Definition run_schedule (options : option_struct) (soil : soil_con_struct)
  (tiles : list (nat * nat)) : list (callee * option (nat * nat)) :=
  flat_map
    (fun t => [(to_compute_runoff_and_asat, Some t);
               (to_wrap_compute_zwt, Some t)]) tiles ++
  match tiles with
  | [] => []
  | _ :: _ =>
      (to_set_node_parameters, None)
      :: flat_map (tile_schedule options soil) tiles
  end.

Lemma node_parameters_set_FS_ACTIVE X options c :
  FS_ACTIVE (node_parameters_set X options c) = FS_ACTIVE c.
Proof.
  unfold node_parameters_set, with_node_parameters.
  destruct (set_node_parameters _ _ _ _ _ _ _ _ _ _ _ _ _ _)
    as [[[[[[z mm] ex] bu] al] be] ga].
  reflexivity.
Qed.

(** No step of the second pass assigns to [asat] or to what stands for
    the water table. *)
Definition keeps_asat_zwt (s s' : state) : Prop :=
  forall v b,
    asat (cell s' v b) = asat (cell s v b) /\
    zwt (cell s' v b) = zwt (cell s v b).

Lemma keeps_asat_zwt_refl s : keeps_asat_zwt s s.
Proof. intros v b. auto. Qed.

Lemma keeps_asat_zwt_trans s1 s2 s3 :
  keeps_asat_zwt s1 s2 -> keeps_asat_zwt s2 s3 -> keeps_asat_zwt s1 s3.
Proof.
  intros H1 H2 v b. destruct (H1 v b), (H2 v b). split; congruence.
Qed.

Ltac keeps_asat_zwt_leaf :=
  let s := fresh "s" in
  let v := fresh "v" in
  let b := fresh "b" in
  intros s; unfold_calls; simpl; break_match; simpl; intros v b;
  unfold upd2; simpl;
  match goal with
  | |- context [(v =? ?veg) && (b =? ?band)] =>
      destruct (Nat.eqb_spec v veg), (Nat.eqb_spec b band); subst; simpl;
      auto
  | _ => auto
  end.

Section Returned.

Context (K : constants) (X : collaborators).
Context (options : option_struct) (global_param : global_param_struct).
Context (veg_con : nat -> veg_con_struct).
Context (all_vars : AllVars.all_vars_struct) (soil_con0 : soil_con_struct).

Local Abbreviation run :=
  (compute_derived_state_vars K X options global_param veg_con all_vars
     soil_con0).
Local Abbreviation sel :=
  (selected_tiles options veg_con (AreaFract soil_con0)).
Local Abbreviation G := (soil_after_parameters X options soil_con0).
Local Abbreviation cell0 := (AllVars.cell all_vars).
Local Abbreviation energy0 := (AllVars.energy all_vars).

Lemma second_pass_tile_keeps_asat_zwt veg band :
  changes keeps_asat_zwt
    (second_pass_tile K X options global_param veg band).
Proof.
  unfold second_pass_tile, node_parameters_once, node_moisture,
    check_node_spacing, restore_tile, restore_layer, restore_ice,
    ice_content, fronts.
  changes_walk keeps_asat_zwt_refl keeps_asat_zwt_trans;
    keeps_asat_zwt_leaf.
Qed.

Lemma run_schedule_first_pass tiles :
  map call_of (flat_map (first_pass_events options all_vars) tiles)
  = flat_map
      (fun t => [(to_compute_runoff_and_asat, Some t);
                 (to_wrap_compute_zwt, Some t)]) tiles.
Proof.
  induction tiles as [|[v b] tiles IH]; [reflexivity|].
  cbn [flat_map first_pass_events app map call_of fst snd]. now rewrite IH.
Qed.

Lemma tile_schedule_soil t :
  tile_schedule options G t = tile_schedule options soil_con0 t.
Proof.
  unfold tile_schedule, soil_after_parameters.
  now rewrite node_parameters_set_FS_ACTIVE.
Qed.

(** A run that stays inside the automatic arrays goes through the whole
    first pass; what it leaves is the state in which the second pass
    starts. *)
Lemma after_first_pass :
  fst run <> Stop OutOfRange ->
  exists s1,
    for_each sel (fun t => first_pass_tile K X options (fst t) (snd t))
      (entry all_vars soil_con0) = (Ret tt, s1) /\
    run
    = for_each sel
        (fun t => second_pass_tile K X options global_param (fst t) (snd t))
        (set_FIRST_VEG true s1) /\
    soil_con s1 = soil_con0 /\ energy s1 = energy0 /\
    (forall v b, In (v, b) sel -> holds_tile K options v b (cell0 v b) s1) /\
    (forall v b, ~ In (v, b) sel -> cell s1 v b = cell0 v b) /\
    (forall v b, In (v, b) sel ->
       cell s1 v b = first_pass_cell X options soil_con0 (cell0 v b)) /\
    trace s1 = flat_map (first_pass_events options all_vars) sel.
Proof.
  unfold compute_derived_state_vars. rewrite body_flat.
  change (soil_con (entry all_vars soil_con0)) with soil_con0.
  rewrite bind_run.
  pose proof (first_pass_run K X options veg_con all_vars soil_con0) as H1.
  pose proof (first_pass_run_result K X options veg_con all_vars soil_con0)
    as H2.
  cbn zeta in H1, H2.
  destruct (for_each sel _ (entry all_vars soil_con0)) as [r1 s1].
  cbn [fst snd] in H1, H2. destruct H1 as (Hc & He & _ & _ & HR).
  destruct r1 as [[]|k]; cbn [fst snd].
  2:{ subst k. intros H. now contradiction H. }
  intros _. destruct HR as [Hh _]. destruct (H2 eq_refl) as (Hn & Hd & Ht).
  exists s1. rewrite bind_run. cbn [modify]. auto 10.
Qed.

Lemma returned_run :
  fst run = Ret tt ->
  (forall v b, In (v, b) sel ->
     tile_result X options soil_con0 (cell0 v b)
       (first_pass_cell X options soil_con0 (cell0 v b)) (energy0 v b)
       v b (snd run)) /\
  map call_of (trace (snd run)) = run_schedule options soil_con0 sel.
Proof.
  intros Hr.
  destruct after_first_pass as (s1 & _ & E & Hc & He & Hh & _ & Hd & Ht).
  { rewrite Hr. discriminate. }
  rewrite E in Hr |- *.
  assert (Hh' : forall v b, In (v, b) sel ->
            holds_tile K options v b (cell0 v b) (set_FIRST_VEG true s1)).
  { intros v b Hin. eapply holds_tile_same; [| |apply Hh, Hin]; reflexivity. }
  destruct (@second_pass_run_result K X options global_param veg_con
              all_vars soil_con0 (set_FIRST_VEG true s1) eq_refl Hc Hh' Hr)
    as [Hres Htr].
  split.
  - intros v b Hin. specialize (Hres v b Hin).
    cbn [cell energy set_FIRST_VEG] in Hres.
    now rewrite (Hd v b Hin), He in Hres.
  - rewrite Htr. cbn [trace set_FIRST_VEG].
    rewrite Ht, run_schedule_first_pass. unfold run_schedule. f_equal.
    unfold second_pass_schedule. destruct sel; [reflexivity|]. f_equal.
    apply flat_map_ext. intros t. apply tile_schedule_soil.
Qed.

(** X1: a run that returns has made exactly the calls of [run_schedule],
    in that order: for every selected tile [compute_runoff_and_asat] and
    [wrap_compute_zwt]; then, if a tile is selected, [set_node_parameters]
    once; then for every selected tile
    [distribute_node_moisture_properties] (with FULL_ENERGY or
    FROZEN_SOIL), one of the two estimators (by QUICK_FLUX) and
    [find_0_degree_fronts] (without QUICK_FLUX, with FS_ACTIVE); nothing
    was reported. *)
Theorem returned_run_calls :
  fst run = Ret tt ->
  map call_of (trace (snd run)) = run_schedule options soil_con0 sel.
Proof. intros Hr. apply returned_run, Hr. Qed.

(** X2: in a run that returns, the [energy] entry of a selected tile is
    what [find_0_degree_fronts] (if it is called) made of what
    [distribute_node_moisture_properties] (if it is called) made of the
    entry on entry: the four node arrays that the distribution returned,
    every other member as on entry ([node_moisture_energy]).  The
    distribution was handed the tile's layer moisture on entry and the soil
    parameters with the seven node arrays that [set_node_parameters]
    returned ([stored_node_arrays]).  The tile's layers are those that the
    estimator returned for layers that carried the tile's moisture and ice
    on entry. *)
Theorem returned_tile_state veg band :
  fst run = Ret tt -> In (veg, band) sel ->
  let c0 := AllVars.cell all_vars veg band in
  let soil := stored_node_arrays X options soil_con0 in
  let e1 :=
    node_moisture_energy X options soil (layer_moist_row options c0)
      (AllVars.energy all_vars veg band) in
  energy (snd run) veg band = fronts_energy X options soil e1 /\
  exists l,
    carries options c0 l /\
    layer (cell (snd run) veg band) = estimated_layers X options soil e1 l.
Proof.
  intros Hr Hin c0 soil e1. subst soil e1.
  rewrite <- soil_after_parameters_stored.
  destruct (proj1 (returned_run Hr) veg band Hin) as (He & _ & _ & Hl).
  split; [exact He|exact Hl].
Qed.

(** X3: in a run that stays inside the automatic arrays, whether it
    returns or ends in [log_err], [asat] and the water table of a selected
    tile are at the end what the first pass computed ([first_pass_cell]):
    those of the entry that [wrap_compute_zwt] returned, with the soil
    parameters on entry, for the tile's entry on entry with [asat]
    replaced by the first result of [compute_runoff_and_asat] on the
    tile's layer moisture on entry with an inflow of 0.  The second pass
    assigns to neither. *)
Theorem first_pass_results_stand veg band :
  fst run <> Stop OutOfRange -> In (veg, band) sel ->
  let c1 :=
    first_pass_cell X options soil_con0 (AllVars.cell all_vars veg band) in
  asat (cell (snd run) veg band) = asat c1 /\
  zwt (cell (snd run) veg band) = zwt c1.
Proof.
  intros Hr Hin c1.
  destruct (after_first_pass Hr) as (s1 & _ & E & _ & _ & _ & _ & Hd & _).
  rewrite E. subst c1. rewrite <- (Hd veg band Hin).
  assert (Hk : changes keeps_asat_zwt
    (for_each sel
       (fun t => second_pass_tile K X options global_param (fst t) (snd t)))).
  { apply changes_for_each;
      [apply keeps_asat_zwt_refl|apply keeps_asat_zwt_trans|].
    intros t _. apply second_pass_tile_keeps_asat_zwt. }
  apply (Hk (set_FIRST_VEG true s1) veg band).
Qed.

End Returned.

(** *** The rows of [moist] that the callees read *)

(** The tile and the row of a call that is handed a row of [moist]. *)
Definition row_read (e : event) : option (nat * nat * list float) :=
  match e with
  | runoff_asat_call veg band row => Some (veg, band, row)
  | distribute_call veg band _ row _ => Some (veg, band, row)
  | _ => None
  end.

(** The trace grows by events that satisfy [Q]. *)
Definition appends (Q : event -> Prop) (s s' : state) : Prop :=
  exists new, trace s' = trace s ++ new /\ Forall Q new.

Lemma appends_refl Q s : appends Q s s.
Proof. exists []. split; [symmetry; apply app_nil_r|constructor]. Qed.

Lemma appends_trans Q s1 s2 s3 :
  appends Q s1 s2 -> appends Q s2 s3 -> appends Q s1 s3.
Proof.
  intros (n1 & E1 & H1) (n2 & E2 & H2). exists (n1 ++ n2).
  split; [rewrite E2, E1; symmetry; apply app_assoc|].
  apply Forall_app. split; assumption.
Qed.

Lemma appends_impl (Q Q' : event -> Prop) s s' :
  (forall e, Q e -> Q' e) -> appends Q s s' -> appends Q' s s'.
Proof.
  intros H (new & E & HQ). exists new. split; [exact E|].
  eapply Forall_impl; [exact HQ|exact H].
Qed.

Ltac appends_leaf :=
  let s := fresh "s" in
  intros s; unfold_calls; simpl; break_match; unfold appends; simpl;
  first [ exists []; split; [symmetry; apply app_nil_r|constructor]
        | eexists; split; [reflexivity|forall_list ltac:(reflexivity)] ].

(** The automatic arrays are as they were. *)
Definition keeps_arrays (s s' : state) : Prop :=
  moist s' = moist s /\ ice s' = ice s.

Lemma keeps_arrays_refl s : keeps_arrays s s.
Proof. split; reflexivity. Qed.

Lemma keeps_arrays_trans s1 s2 s3 :
  keeps_arrays s1 s2 -> keeps_arrays s2 s3 -> keeps_arrays s1 s3.
Proof. intros [? ?] [? ?]. split; congruence. Qed.

Ltac keeps_arrays_leaf :=
  let s := fresh "s" in
  intros s; unfold_calls; simpl; break_match; simpl; split; reflexivity.

Section Rows.

Context (K : constants) (X : collaborators).
Context (options : option_struct) (global_param : global_param_struct).
Context (veg_con : nat -> veg_con_struct).
Context (all_vars : AllVars.all_vars_struct) (soil_con0 : soil_con_struct).

Local Abbreviation run :=
  (compute_derived_state_vars K X options global_param veg_con all_vars
     soil_con0).
Local Abbreviation sel :=
  (selected_tiles options veg_con (AreaFract soil_con0)).
Local Abbreviation cell0 := (AllVars.cell all_vars).

(** A row that a call was handed is the layer moisture of its tile on
    entry. *)
Definition reads_entry_row (e : event) : Prop :=
  forall veg band row, row_read e = Some (veg, band, row) ->
    row = layer_moist_row options (cell0 veg band).

Definition no_row (e : event) : Prop := row_read e = None.

Lemma no_row_reads_entry_row e : no_row e -> reads_entry_row e.
Proof. intros H veg band row E. unfold no_row in H. congruence. Qed.

(** The second pass only reads the automatic arrays. *)
Lemma second_pass_tile_keeps_arrays veg band :
  changes keeps_arrays (second_pass_tile K X options global_param veg band).
Proof.
  unfold second_pass_tile, node_parameters_once, node_moisture,
    check_node_spacing, restore_tile, restore_layer, restore_ice,
    ice_content, fronts.
  changes_walk keeps_arrays_refl keeps_arrays_trans; keeps_arrays_leaf.
Qed.

(** Lines 112-123. *)
Lemma node_parameters_once_no_row :
  changes (appends no_row) (node_parameters_once X options).
Proof.
  unfold node_parameters_once.
  changes_walk (appends_refl no_row) (@appends_trans no_row); appends_leaf.
Qed.

(** Lines 158-238. *)
Lemma after_node_moisture_no_row veg band :
  changes (appends no_row)
    (check_node_spacing X options global_param veg band ;;
     restore_tile K options veg band ;;
     ice_content K X options veg band ;;
     fronts X options veg band).
Proof.
  unfold check_node_spacing, restore_tile, restore_layer, restore_ice,
    ice_content, fronts.
  changes_walk (appends_refl no_row) (@appends_trans no_row); appends_leaf.
Qed.

(** Lines 126-152. *)
Lemma node_moisture_rows veg band s :
  holds_tile K options veg band (cell0 veg band) s ->
  appends reads_entry_row s (snd (node_moisture K X options veg band s)).
Proof.
  intros Hs. unfold node_moisture.
  destruct (FULL_ENERGY options || FROZEN_SOIL options); cbn [when];
    [|apply appends_refl].
  rewrite bind_run, (moist_row_value Hs), bind_run. unfold call_distribute.
  destruct (distribute_node_moisture_properties _ _ _ _ _ _ _ _ _ _ _ _ _ _
              _ _ _ _ _ _ _) as [flag out].
  assert (Hrow : reads_entry_row
    (distribute_call veg band (soil_con s)
       (layer_moist_row options (cell0 veg band)) flag)).
  { intros v b row E. cbn in E. congruence. }
  destruct (flag =? ERROR K)%Z; cbn [when log_err ret fst snd];
    eexists; cbn [trace emit set_ErrorFlag set_energy];
    rewrite <- ?app_assoc; (split; [reflexivity|]);
    forall_list ltac:(first [exact Hrow|apply no_row_reads_entry_row;
                                        reflexivity]).
Qed.

(** Lines 111-238 on one tile. *)
Lemma second_pass_tile_rows veg band s :
  holds_tile K options veg band (cell0 veg band) s ->
  appends reads_entry_row s
    (snd (second_pass_tile K X options global_param veg band s)).
Proof.
  intros Hs. unfold second_pass_tile. rewrite bind_run.
  pose proof (node_parameters_once_no_row s) as H0.
  assert (Hsame : moist (snd (node_parameters_once X options s)) = moist s /\
                  ice (snd (node_parameters_once X options s)) = ice s).
  { unfold node_parameters_once. cbn [bind get].
    destruct (FIRST_VEG s) as [[]|]; split; reflexivity. }
  destruct (node_parameters_once X options s) as [[[]|k0] s0];
    cbn [fst snd] in *.
  2:{ eapply appends_impl; [apply no_row_reads_entry_row|exact H0]. }
  apply appends_trans with s0.
  { eapply appends_impl; [apply no_row_reads_entry_row|exact H0]. }
  assert (Hs0 : holds_tile K options veg band (cell0 veg band) s0).
  { destruct Hsame. eapply holds_tile_same; eassumption. }
  rewrite bind_run. pose proof (node_moisture_rows Hs0) as H1.
  destruct (node_moisture K X options veg band s0) as [[[]|k1] s1];
    cbn [fst snd] in *; [|exact H1].
  apply appends_trans with s1; [exact H1|].
  eapply appends_impl; [apply no_row_reads_entry_row|].
  apply after_node_moisture_no_row.
Qed.

(** X4: in a run that stays inside the automatic arrays, every row of
    [moist] that [compute_runoff_and_asat] or
    [distribute_node_moisture_properties] was handed is the moisture that
    the layers of its tile had on entry, whatever [wrap_compute_zwt] did
    to the tile's layers between the two calls. *)
Theorem callees_read_entry_moisture e veg band row :
  fst run <> Stop OutOfRange ->
  In e (trace (snd run)) -> row_read e = Some (veg, band, row) ->
  row = layer_moist_row options (AllVars.cell all_vars veg band).
Proof.
  intros Hr Hin Hrow.
  destruct (@after_first_pass K X options global_param veg_con all_vars
              soil_con0 Hr) as (s1 & _ & E & _ & _ & Hh & _ & _ & Ht).
  assert (H1 : Forall reads_entry_row (trace (set_FIRST_VEG true s1))).
  { cbn [trace set_FIRST_VEG]. rewrite Ht. apply List.Forall_forall.
    intros e' He'. apply in_flat_map in He' as ([v b] & _ & He').
    cbn [first_pass_events fst snd] in He'.
    destruct He' as [<-|[<-|[]]]; intros v' b' row' E'; cbn in E';
      congruence. }
  assert (H : hoare
    (fun s => moist s = moist s1 /\ ice s = ice s1 /\
              Forall reads_entry_row (trace s))
    (for_each sel
       (fun t => second_pass_tile K X options global_param (fst t) (snd t)))
    (fun _ s => Forall reads_entry_row (trace s))).
  { eapply hoare_conseq with
      (Q' := fun r s => match r with
                        | Ret _ =>
                            moist s = moist s1 /\ ice s = ice s1 /\
                            Forall reads_entry_row (trace s)
                        | Stop _ => Forall reads_entry_row (trace s)
                        end);
      [intros s Hs; exact Hs| |intros [[]|k] s Hs; [apply Hs|exact Hs]].
    apply hoare_for_list with
      (I := fun (_ : list (nat * nat)) s =>
              moist s = moist s1 /\ ice s = ice s1 /\
              Forall reads_entry_row (trace s))
      (E := fun (_ : stop) s => Forall reads_entry_row (trace s)).
    intros done [v b] rest Hsel s (Hm & Hi & Hf). cbn [fst snd].
    assert (Hs : holds_tile K options v b (cell0 v b) s).
    { eapply holds_tile_same; [exact Hm|exact Hi|]. apply Hh.
      rewrite Hsel. apply in_or_app. right. now left. }
    destruct (second_pass_tile_rows Hs) as (new & Et & Hnew).
    destruct (second_pass_tile_keeps_arrays v b s) as [Hm2 Hi2].
    assert (Hall : Forall reads_entry_row
      (trace (snd (second_pass_tile K X options global_param v b s)))).
    { rewrite Et. apply Forall_app. split; assumption. }
    destruct (second_pass_tile K X options global_param v b s) as [[[]|k] s2];
      cbn [fst snd] in *; [|exact Hall].
    split; [congruence|]. split; [congruence|exact Hall]. }
  rewrite E in Hin.
  specialize (H (set_FIRST_VEG true s1) (conj eq_refl (conj eq_refl H1))).
  rewrite List.Forall_forall in H. exact (H e Hin veg band row Hrow).
Qed.

End Rows.

(** *** Runs without a selected tile, and runs without energy physics *)

Section NoTile.

Context (K : constants) (X : collaborators).
Context (options : option_struct) (global_param : global_param_struct).
Context (veg_con : nat -> veg_con_struct).
Context (all_vars : AllVars.all_vars_struct) (soil_con0 : soil_con_struct).

Local Abbreviation run :=
  (compute_derived_state_vars K X options global_param veg_con all_vars
     soil_con0).

(** X5: when no (vegetation, band) pair passes the guard of lines 72 and
    75 (no cover fraction or no band area fraction above 0, or no band at
    all), the function returns without a call and without a report, and
    leaves [cell], [energy] and the soil parameters as they were. *)
Theorem no_selected_tile_no_effect :
  (forall veg band, veg <= Nveg veg_con -> band < SNOW_BAND options ->
     selected veg_con (AreaFract soil_con0) veg band = false) ->
  fst run = Ret tt /\ trace (snd run) = [] /\
  cell (snd run) = AllVars.cell all_vars /\
  energy (snd run) = AllVars.energy all_vars /\
  soil_con (snd run) = soil_con0.
Proof.
  intros H. unfold compute_derived_state_vars. rewrite body_flat.
  change (soil_con (entry all_vars soil_con0)) with soil_con0.
  assert (E : selected_tiles options veg_con (AreaFract soil_con0) = []).
  { destruct (selected_tiles options veg_con (AreaFract soil_con0))
      as [|[v b] l] eqn:Ef; [reflexivity|].
    assert (Hin : In (v, b)
                    (selected_tiles options veg_con (AreaFract soil_con0))).
    { rewrite Ef. now left. }
    apply selected_tiles_spec in Hin as (Hv & Hb & Hs).
    rewrite H in Hs by assumption. discriminate. }
  rewrite E. cbn. auto.
Qed.

End NoTile.

(** No [energy] entry is assigned to. *)
Definition keeps_energy (s s' : state) : Prop := energy s' = energy s.

Lemma keeps_energy_refl s : keeps_energy s s.
Proof. reflexivity. Qed.

Lemma keeps_energy_trans s1 s2 s3 :
  keeps_energy s1 s2 -> keeps_energy s2 s3 -> keeps_energy s1 s3.
Proof. unfold keeps_energy. congruence. Qed.

Ltac keeps_energy_leaf :=
  let s := fresh "s" in
  intros s; unfold_calls; simpl; break_match; reflexivity.

Section WaterBalance.

Context (K : constants) (X : collaborators).
Context (options : option_struct) (global_param : global_param_struct).
Context (veg_con : nat -> veg_con_struct).
Context (all_vars : AllVars.all_vars_struct) (soil_con0 : soil_con_struct).

(** X6: with FULL_ENERGY and FROZEN_SOIL off and QUICK_FLUX on, no run
    assigns to an [energy] entry: [distribute_node_moisture_properties]
    and [find_0_degree_fronts], the two routines handed a pointer into
    one, are not called, and the quick-flux estimator is handed two node
    temperatures by value. *)
Theorem energy_untouched_without_energy_physics :
  FULL_ENERGY options = false -> FROZEN_SOIL options = false ->
  QUICK_FLUX options = true ->
  energy
    (snd (compute_derived_state_vars K X options global_param veg_con
            all_vars soil_con0))
  = AllVars.energy all_vars.
Proof.
  intros Hfe Hfs Hq.
  assert (H : changes keeps_energy (body K X options global_param veg_con)).
  { unfold body, for_tiles, first_pass_tile, snapshot_tile, snapshot_layer,
      snapshot_ice, second_pass_tile, node_parameters_once, node_moisture,
      check_node_spacing, restore_tile, restore_layer, restore_ice,
      ice_content, fronts.
    rewrite Hfe, Hfs, Hq. cbn [orb andb negb when]. cbv zeta.
    changes_walk keeps_energy_refl keeps_energy_trans; keeps_energy_leaf. }
  exact (H (entry all_vars soil_con0)).
Qed.

End WaterBalance.

(** *** Runs that return *)














Section Returns.

Context (K : constants) (X : collaborators).
Context (options : option_struct) (global_param : global_param_struct).
Context (veg_con : nat -> veg_con_struct).
Context (all_vars : AllVars.all_vars_struct) (soil_con0 : soil_con_struct).



Lemma node_parameters_set_dz_node c :
  dz_node (node_parameters_set X options c) = dz_node c.
Proof.
  unfold node_parameters_set, with_node_parameters.
  destruct (set_node_parameters _ _ _ _ _ _ _ _ _ _ _ _ _ _)
    as [[[[[[z mm] ex] bu] al] be] ga].
  reflexivity.
Qed.


(** A report of the check, with the five values it prints. *)
Definition step_report (e : event) :
  option (float * float * float * float * float) :=
  match e with
  | logged (explicit_step_too_large d z C k th) => Some (d, z, C, k, th)
  | _ => None
  end.

Definition no_step_report (e : event) : Prop := step_report e = None.



(** Lines 112-123. *)
Lemma node_parameters_once_no_report :
  changes (appends no_step_report) (node_parameters_once X options).
Proof.
  unfold node_parameters_once.
  changes_walk (appends_refl no_step_report) (@appends_trans no_step_report);
    appends_leaf.
Qed.









Local Abbreviation sel :=
  (selected_tiles options veg_con (AreaFract soil_con0)).
Local Abbreviation cell0 := (AllVars.cell all_vars).
Local Abbreviation energy0 := (AllVars.energy all_vars).
Local Abbreviation G := (stored_node_arrays X options soil_con0).
Local Abbreviation P2 :=
  (fun t : nat * nat =>
     second_pass_tile K X options global_param (fst t) (snd t)).






Section SecondPass.

Variable s1 : state.
Hypothesis Hfirst : FIRST_VEG s1 = Some true.
Hypothesis Hsoil : soil_con s1 = soil_con0.
Hypothesis Henergy : energy s1 = energy0.
Hypothesis Hholds :
  forall v b, In (v, b) sel -> holds_tile K options v b (cell0 v b) s1.











End SecondPass.

Local Abbreviation run :=
  (compute_derived_state_vars K X options global_param veg_con all_vars
     soil_con0).














End Returns.

(** *** The runoff that [compute_runoff_and_asat] returns *)

(** [X] with [runoff] for what [compute_runoff_and_asat] stores through
    its last argument. *)
Definition with_runoff (runoff : soil_con_struct -> list float -> float -> float)
  (X : collaborators) : collaborators :=
  {| compute_runoff_and_asat := fun c row inflow =>
       (fst (compute_runoff_and_asat X c row inflow), runoff c row inflow);
     wrap_compute_zwt := wrap_compute_zwt X;
     set_node_parameters := set_node_parameters X;
     distribute_node_moisture_properties :=
       distribute_node_moisture_properties X;
     estimate_layer_ice_content_quick_flux :=
       estimate_layer_ice_content_quick_flux X;
     estimate_layer_ice_content := estimate_layer_ice_content X;
     find_0_degree_fronts := find_0_degree_fronts X;
     pow := pow X |}.

(** Two states that differ at most in the local [tmp_runoff]. *)
Definition same_but_runoff (s1 s2 : state) : Prop :=
  cell s1 = cell s2 /\ energy s1 = energy s2 /\ soil_con s1 = soil_con s2 /\
  FIRST_VEG s1 = FIRST_VEG s2 /\ ErrorFlag s1 = ErrorFlag s2 /\
  moist s1 = moist s2 /\ ice s1 = ice s2 /\ dt_thresh s1 = dt_thresh s2 /\
  trace s1 = trace s2.

(** From two such states, [m1] and [m2] end alike in two such states. *)
Definition same_run_at {A} (s1 s2 : state) (m1 m2 : M A) : Prop :=
  fst (m1 s1) = fst (m2 s2) /\ same_but_runoff (snd (m1 s1)) (snd (m2 s2)).

Definition same_run {A} (m1 m2 : M A) : Prop :=
  forall s1 s2, same_but_runoff s1 s2 -> same_run_at s1 s2 m1 m2.

Lemma same_run_ret {A} (a : A) : same_run (ret a) (ret a).
Proof. intros s1 s2 H. split; [reflexivity|exact H]. Qed.

Lemma same_run_halt {A} k : same_run (@halt A k) (@halt A k).
Proof. intros s1 s2 H. split; [reflexivity|exact H]. Qed.

Lemma same_run_modify f1 f2 :
  (forall s1 s2, same_but_runoff s1 s2 -> same_but_runoff (f1 s1) (f2 s2)) ->
  same_run (modify f1) (modify f2).
Proof. intros Hf s1 s2 H. split; [reflexivity|apply Hf, H]. Qed.

Lemma same_run_at_bind {A B} s1 s2 (m1 m2 : M A) (f1 f2 : A -> M B) :
  same_run_at s1 s2 m1 m2 -> (forall a, same_run (f1 a) (f2 a)) ->
  same_run_at s1 s2 (bind m1 f1) (bind m2 f2).
Proof.
  intros [Hr Hs] Hf. unfold same_run_at. rewrite !bind_run.
  destruct (m1 s1) as [[a1|k1] t1], (m2 s2) as [[a2|k2] t2];
    cbn [fst snd] in *; try discriminate.
  - inversion Hr; subst. apply Hf, Hs.
  - split; [inversion Hr; reflexivity|exact Hs].
Qed.

Lemma same_run_bind {A B} (m1 m2 : M A) (f1 f2 : A -> M B) :
  same_run m1 m2 -> (forall a, same_run (f1 a) (f2 a)) ->
  same_run (bind m1 f1) (bind m2 f2).
Proof.
  intros Hm Hf s1 s2 H. apply same_run_at_bind; [apply Hm, H|exact Hf].
Qed.

Lemma same_run_get_bind {B} (f1 f2 : state -> M B) :
  (forall s1 s2, same_but_runoff s1 s2 -> same_run_at s1 s2 (f1 s1) (f2 s2)) ->
  same_run (bind get f1) (bind get f2).
Proof. intros Hf s1 s2 H. exact (Hf s1 s2 H). Qed.

Lemma same_run_when b m1 m2 :
  same_run m1 m2 -> same_run (when b m1) (when b m2).
Proof. intros H. destruct b; [exact H|apply same_run_ret]. Qed.

Lemma same_run_for_each {X} (l : list X) (body1 body2 : X -> M unit) :
  (forall x, same_run (body1 x) (body2 x)) ->
  same_run (for_each l body1) (for_each l body2).
Proof.
  intros H. induction l as [|x l IH]; cbn [for_each].
  - apply same_run_ret.
  - apply same_run_bind; [apply H|intros _; exact IH].
Qed.

(** A step that reads and writes the same members in both states. *)
Ltac same_run_step :=
  let s1 := fresh "s" in
  let s2 := fresh "t" in
  let Hc := fresh "Hc" in
  let He := fresh "He" in
  let Hs := fresh "Hs" in
  let Hf := fresh "Hf" in
  let Hg := fresh "Hg" in
  let Hm := fresh "Hm" in
  let Hi := fresh "Hi" in
  let Hd := fresh "Hd" in
  let Ht := fresh "Ht" in
  unfold same_run; intros s1 s2 (Hc & He & Hs & Hf & Hg & Hm & Hi & Hd & Ht);
  unfold same_run_at, same_but_runoff; unfold_calls;
  unfold load_moist, load_ice, halt, bind, when, ret;
  repeat (simpl; rewrite ?Hc, ?He, ?Hs, ?Hf, ?Hg, ?Hm, ?Hi, ?Hd, ?Ht;
          match goal with
          | |- context [if ?b then _ else _] => destruct b eqn:?
          | |- context [match ?o with Some _ => _ | None => _ end] =>
              destruct o eqn:?
          | |- context [let (_, _) := ?e in _] => destruct e eqn:?
          end);
  simpl; rewrite ?Hc, ?He, ?Hs, ?Hf, ?Hg, ?Hm, ?Hi, ?Hd, ?Ht;
  repeat apply conj; congruence.

Section Runoff.

Context (K : constants) (X : collaborators).
Context (options : option_struct) (global_param : global_param_struct).
Context (veg_con : nat -> veg_con_struct).
Context (runoff : soil_con_struct -> list float -> float -> float).

Local Abbreviation X' := (with_runoff runoff X).

Lemma same_run_load_row veg band lidxs :
  same_run (load_row K veg band lidxs) (load_row K veg band lidxs).
Proof.
  induction lidxs as [|lidx rest IH]; cbn [load_row].
  - apply same_run_ret.
  - apply same_run_bind; [same_run_step|]. intros x.
    apply same_run_bind; [exact IH|]. intros xs. apply same_run_ret.
Qed.

Lemma same_run_store_moist veg band lidx x :
  same_run (store_moist K veg band lidx x) (store_moist K veg band lidx x).
Proof. unfold store_moist. same_run_step. Qed.

Lemma same_run_store_ice veg band lidx frost_area x :
  same_run (store_ice K veg band lidx frost_area x)
    (store_ice K veg band lidx frost_area x).
Proof. unfold store_ice. same_run_step. Qed.

Lemma same_run_first_pass_tile veg band :
  same_run (first_pass_tile K X options veg band)
    (first_pass_tile K X' options veg band).
Proof.
  unfold first_pass_tile.
  apply same_run_bind; [|intros _; apply same_run_bind;
                         [apply same_run_load_row|intros row]].
  - apply same_run_for_each. intros lidx. unfold snapshot_layer.
    apply same_run_get_bind. intros s1 s2 H.
    pose proof H as (Hc & _). rewrite Hc.
    apply same_run_at_bind; [apply same_run_store_moist, H|].
    intros _. apply same_run_for_each. intros fa.
    apply same_run_get_bind. intros t1 t2 H'. pose proof H' as (Hc' & _).
    rewrite Hc'. apply same_run_store_ice, H'.
  - apply same_run_bind; [|intros _]; apply same_run_modify; same_run_step.
Qed.

Lemma same_run_second_pass_tile veg band :
  same_run (second_pass_tile K X options global_param veg band)
    (second_pass_tile K X' options global_param veg band).
Proof.
  unfold second_pass_tile.
  apply same_run_bind; [|intros _].
  { unfold node_parameters_once. apply same_run_get_bind. same_run_step. }
  apply same_run_bind; [|intros _].
  { unfold node_moisture. apply same_run_when.
    apply same_run_bind; [apply same_run_load_row|]. intros row.
    apply same_run_bind; [same_run_step|]. intros flag.
    apply same_run_when. same_run_step. }
  apply same_run_bind; [|intros _].
  { unfold check_node_spacing, stable_step. cbn [pow with_runoff].
    apply same_run_when. apply same_run_get_bind. same_run_step. }
  apply same_run_bind; [|intros _].
  { apply same_run_for_each. intros lidx. unfold restore_layer.
    apply same_run_bind; [same_run_step|]. intros x.
    apply same_run_bind; [apply same_run_modify; same_run_step|]. intros _.
    apply same_run_for_each. intros fa.
    apply same_run_bind; [same_run_step|]. intros y.
    apply same_run_modify. same_run_step. }
  apply same_run_bind; [|intros _].
  { unfold ice_content. destruct (QUICK_FLUX options);
      (apply same_run_bind; [same_run_step|]); intros flag;
      apply same_run_when; same_run_step. }
  unfold fronts. apply same_run_get_bind. same_run_step.
Qed.

Lemma same_run_for_tiles (body1 body2 : nat -> nat -> M unit) :
  (forall veg band, same_run (body1 veg band) (body2 veg band)) ->
  same_run (for_tiles options veg_con body1)
    (for_tiles options veg_con body2).
Proof.
  intros Hb. unfold for_tiles. apply same_run_for_each. intros veg.
  cbv zeta. apply same_run_when. apply same_run_for_each. intros band.
  apply same_run_get_bind. intros s1 s2 H. pose proof H as (_ & _ & Hs & _).
  rewrite Hs. apply same_run_when; [apply Hb|exact H].
Qed.

(** X9: the runoff that [compute_runoff_and_asat] returns through its
    last argument is kept in a local and never read: with any other value
    for it, a run ends the same way, with the same [cell], [energy] and
    soil parameters, after the same calls with the same arguments. *)
Theorem runoff_is_discarded all_vars soil_con0 :
  let run1 :=
    compute_derived_state_vars K X options global_param veg_con all_vars
      soil_con0 in
  let run2 :=
    compute_derived_state_vars K (with_runoff runoff X) options global_param
      veg_con all_vars soil_con0 in
  fst run1 = fst run2 /\ cell (snd run1) = cell (snd run2) /\
  energy (snd run1) = energy (snd run2) /\
  soil_con (snd run1) = soil_con (snd run2) /\
  trace (snd run1) = trace (snd run2).
Proof.
  intros run1 run2. subst run1 run2. unfold compute_derived_state_vars.
  assert (H : same_run (body K X options global_param veg_con)
                (body K X' options global_param veg_con)).
  { unfold body. apply same_run_bind; [|intros _; apply same_run_bind;
                                         [|intros _]].
    - apply same_run_for_tiles, same_run_first_pass_tile.
    - apply same_run_modify. same_run_step.
    - apply same_run_for_tiles, same_run_second_pass_tile. }
  destruct (H (entry all_vars soil_con0) (entry all_vars soil_con0))
    as [Hr (Hc & He & Hs & _ & _ & _ & _ & _ & Ht)].
  { repeat split. }
  auto.
Qed.

End Runoff.

(** *** Why a run ended as it did *)

Section Outcome.

Context (K : constants) (X : collaborators).
Context (options : option_struct) (global_param : global_param_struct).
Context (veg_con : nat -> veg_con_struct).
Context (all_vars : AllVars.all_vars_struct) (soil_con0 : soil_con_struct).

Local Abbreviation run :=
  (compute_derived_state_vars K X options global_param veg_con all_vars
     soil_con0).

(** X10: [log_err] is reached for a reason, and at the first one.  The
    trace of a run that ended in [log_err] ends with one of the four
    shapes of [alarm]: a call of [distribute_node_moisture_properties] or
    of one of the two estimators that returned [ERROR], followed by its
    report; or the report of a time step above the bound, with the
    explicit-scheme check applying; and before that no call returned
    [ERROR] and nothing was reported.  In any other run no call returned
    [ERROR] and nothing was reported. *)
Theorem run_outcome_has_cause :
  match fst run with
  | Stop Exited =>
      exists before tail,
        trace (snd run) = before ++ tail /\
        Forall (quiet K) before /\ alarm K X options global_param tail
  | _ => Forall (quiet K) (trace (snd run))
  end.
Proof.
  pose proof (run_disciplined K X options global_param veg_con all_vars
                soil_con0) as H.
  unfold disciplined in H. destruct (fst run) as [[]|[]]; exact H.
Qed.

End Outcome.

(** ** A grid cell to run the function on *)

(** The values of [vic_def.h]. *)
Definition vic_constants : constants :=
  {| MAX_VEG := 12; MAX_BANDS := 10; MAX_LAYERS := 3; MAX_FROST_AREAS := 10;
     ERROR := (-999)%Z |}.

Definition constant (q : float) : doubles := fun _ => q.

(** The double of a small natural number. *)
Fixpoint double_of_nat (n : nat) : float :=
  match n with
  | 0 => 0%float
  | S n' => (double_of_nat n' + 1)%float
  end.

(** The sum of a row, from its last element up. *)
Definition row_sum (row : list float) : float :=
  fold_right PrimFloat.add 0%float row.

(** Stand-ins for the routines: small, total, and sensitive to each of
    their inputs that a claim is about. *)
Definition sample_routines : collaborators :=
  {| compute_runoff_and_asat := fun _ row _ => (row_sum row, 0%float);
     wrap_compute_zwt := fun _ c =>
       {| asat := asat c; zwt := Layer.moist (layer c 0); layer := layer c |};
     set_node_parameters := fun z mm ex bu al be ga dep mmo exo bub _ _ =>
       (z, constant (mmo 0), constant (exo 0), constant (bub 0), al, be, ga);
     distribute_node_moisture_properties :=
       fun m i k c _ T _ _ _ row _ _ _ _ _ _ _ _ _ _ =>
         (if PrimFloat.leb (T 0) (-100)%float then (-999)%Z else 0%Z,
          (constant (row_sum row), i, constant 1%float, constant 2%float));
     estimate_layer_ice_content_quick_flux :=
       fun l _ _ T0 T1 _ _ _ _ _ _ _ =>
         (0%Z,
          fun lidx =>
            {| Layer.moist := Layer.moist (l lidx);
               Layer.ice := fun _ =>
                 if PrimFloat.leb (T0 + T1) 0 then Layer.moist (l lidx)
                 else 0%float |});
     estimate_layer_ice_content :=
       fun l _ T _ _ _ _ _ _ _ _ _ =>
         (0%Z,
          fun lidx =>
            {| Layer.moist := Layer.moist (l lidx);
               Layer.ice := fun _ =>
                 if PrimFloat.leb (T 2) 0 then Layer.moist (l lidx)
                 else 0%float |});
     find_0_degree_fronts := fun e z _ _ =>
       {| Energy.moist := Energy.moist e; Energy.ice := Energy.ice e;
          Energy.kappa_node := Energy.kappa_node e;
          Energy.Cs_node := Energy.Cs_node e; Energy.T := Energy.T e;
          Energy.fdepth := z; Energy.tdepth := Energy.tdepth e |};
     pow := fun x y =>
       if PrimFloat.eqb y 2 then (x * x)%float else 1%float |}.

(** Frozen soil with the explicit scheme, three bands. *)
Definition explicit_options : option_struct :=
  {| SNOW_BAND := 3; Nlayer := 3; Nfrost := 2; Nnode := 5;
     FULL_ENERGY := true; FROZEN_SOIL := true; QUICK_FLUX := false;
     IMPLICIT := false |}.

Definition quick_flux_options : option_struct :=
  {| SNOW_BAND := 3; Nlayer := 3; Nfrost := 2; Nnode := 5;
     FULL_ENERGY := true; FROZEN_SOIL := false; QUICK_FLUX := true;
     IMPLICIT := false |}.

(** One layer more than [MAX_LAYERS]. *)
Definition four_layer_options : option_struct :=
  {| SNOW_BAND := 3; Nlayer := 4; Nfrost := 2; Nnode := 5;
     FULL_ENERGY := true; FROZEN_SOIL := true; QUICK_FLUX := false;
     IMPLICIT := false |}.

(** The bound of the sample cell is 1/64; 1/32 is above it. *)
Definition long_step : global_param_struct := {| dt := 0.03125 |}.
Definition short_step : global_param_struct := {| dt := 0.015625 |}.

(** Two vegetation classes and bare soil; class 1 covers nothing. *)
Definition sample_veg_con : nat -> veg_con_struct :=
  fun veg =>
    {| vegetat_type_num := 2;
       Cv := match veg with 0 => 0.5 | 2 => 0.5 | _ => 0 end |}.

(** The soil parameters of the sample cell, for the band fractions [a]. *)
Definition sample_soil_with (a : doubles) : soil_con_struct :=
  {| AreaFract := a;
     Zsum_node := fun n => (double_of_nat n * 0.125)%float;
     max_moist_node := constant 0; expt_node := constant 0;
     bubble_node := constant 0; alpha := constant 0; beta := constant 0;
     gamma := constant 0; depth := constant 0.5;
     max_moist := constant 30; expt := constant 4; bubble := constant 7;
     soil_dens_min := constant 0; bulk_dens_min := constant 0;
     quartz := constant 0; soil_density := constant 0;
     bulk_density := constant 0; organic := constant 0;
     dz_node := constant 0.125; frost_fract := constant 0.5;
     frost_slope := 0; dp := 4; avg_temp := 1; FS_ACTIVE := true |}.

(** Bands 0 and 1 share the area; band 2 has none. *)
Definition sample_soil_con : soil_con_struct :=
  sample_soil_with
    (fun band => match band with 0 => 0.75 | 1 => 0.25 | _ => 0 end)%float.

Definition sample_cell : cell_data_struct :=
  {| asat := 0; zwt := 0;
     layer := fun lidx =>
       {| Layer.moist := double_of_nat (10 + lidx);
          Layer.ice := fun frost_area => double_of_nat frost_area |} |}.

(** An [energy] entry whose node temperatures are [T]. *)
Definition sample_energy (T : doubles) : Energy.energy_bal_struct :=
  {| Energy.moist := constant 0; Energy.ice := constant 0;
     Energy.kappa_node := constant 1; Energy.Cs_node := constant 2;
     Energy.T := T; Energy.fdepth := constant 0;
     Energy.tdepth := constant 0 |}.

Definition sample_all_vars (T : doubles) : AllVars.all_vars_struct :=
  {| AllVars.cell := fun _ _ => sample_cell;
     AllVars.energy := fun _ _ => sample_energy T |}.

(** Three temperature profiles: mild, absurdly cold at the surface, and the
    mild one with other temperatures from node 2 down. *)
Definition mild : doubles := constant (-1)%float.
Definition absurd : doubles := constant (-150)%float.
Definition mild_warm_below : doubles :=
  fun n => match n with 0 | 1 => (-1)%float | _ => 3%float end.

Definition unstable_run : result unit * state :=
  compute_derived_state_vars vic_constants sample_routines explicit_options
    long_step sample_veg_con (sample_all_vars mild) sample_soil_con.

Definition stable_run : result unit * state :=
  compute_derived_state_vars vic_constants sample_routines explicit_options
    short_step sample_veg_con (sample_all_vars mild) sample_soil_con.

Definition failing_run : result unit * state :=
  compute_derived_state_vars vic_constants sample_routines explicit_options
    short_step sample_veg_con (sample_all_vars absurd) sample_soil_con.

Definition four_layer_run : result unit * state :=
  compute_derived_state_vars vic_constants sample_routines four_layer_options
    short_step sample_veg_con (sample_all_vars mild) sample_soil_con.

Definition quick_run (T : doubles) : result unit * state :=
  compute_derived_state_vars vic_constants sample_routines quick_flux_options
    short_step sample_veg_con (sample_all_vars T) sample_soil_con.

(** The layers an event handed to an estimator (those of the sample cell
    for another event). *)
Definition handed_layers (e : event) : nat -> Layer.layer_data_struct :=
  match layer_in_of e with
  | Some (_, _, l) => l
  | None => layer sample_cell
  end.

(** The event at place [n] of a trace. *)
Definition event_at (n : nat) (tr : list event) : event :=
  nth n tr node_parameters_call.





(** The bound of every tile of the sample cell:
    0.5 * 2.0 / 1.0 * 0.125^2 = 0.015625. *)
Example sample_tile_bound :
  tile_bound sample_routines explicit_options
    (stored_node_arrays sample_routines explicit_options sample_soil_con)
    (layer_moist_row explicit_options sample_cell) (sample_energy mild)
  = 0.015625%float.
Proof. vm_compute. reflexivity. Qed.

(** The bound is computed in doubles.  With the values of the spec's
    example, a heat capacity of 2.0, a conductivity of 1.0 and a spacing of
    the double nearest to 0.1, it is the double above the one nearest to
    0.01, so a time step of the latter is not above it; and with a
    conductivity of 0 it is infinite, so no time step is above it. *)
Example bound_is_a_double :
  stable_step sample_routines 2 1 0x1.999999999999ap-4
  = 0x1.47ae147ae147cp-7%float /\
  double_gt 0x1.47ae147ae147bp-7 0x1.47ae147ae147cp-7 = false /\
  stable_step sample_routines 2 0 0.125 = infinity /\
  double_gt 0.03125 infinity = false.
Proof. repeat split; vm_compute; reflexivity. Qed.


(** With the time step at the bound the same cell is processed to the
    end. *)
Example stable_step_returns :
  fst stable_run = Ret tt /\
  second_pass_tiles (trace (snd stable_run))
  = [(0, 0); (0, 1); (2, 0); (2, 1)].
Proof. split; vm_compute; reflexivity. Qed.



(** The run with the short step sets the node parameters once. *)
Lemma node_parameters_set_once_sample :
  node_parameters_calls (trace (snd stable_run)) = 1 /\
  soil_con (snd stable_run)
  = stored_node_arrays sample_routines explicit_options sample_soil_con /\
  exists first rest,
    trace (snd stable_run) = first ++ node_parameters_call :: rest /\
    Forall is_first_pass_event first /\
    Forall
      (is_tile_event
         (stored_node_arrays sample_routines explicit_options
            sample_soil_con)) rest.
Proof.
  refine (node_parameters_set_once vic_constants sample_routines
            explicit_options short_step sample_veg_con (sample_all_vars mild)
            sample_soil_con _).
  vm_compute. discriminate.
Defined.

(** The node arrays that the stand-in for [set_node_parameters] returns
    differ from those on entry. *)
Example sample_node_arrays_change :
  max_moist_node sample_soil_con 0 = 0%float /\
  max_moist_node
    (stored_node_arrays sample_routines explicit_options sample_soil_con) 0
  = 30%float.
Proof. split; vm_compute; reflexivity. Qed.

(** The tiles of the run with the short step. *)
Lemma tiles_processed_sample :
  first_pass_tiles (trace (snd stable_run))
  = [(0, 0); (0, 1); (2, 0); (2, 1)] /\
  second_pass_tiles (trace (snd stable_run))
  = [(0, 0); (0, 1); (2, 0); (2, 1)].
Proof.
  pose proof (@tiles_processed vic_constants sample_routines explicit_options
                short_step sample_veg_con (sample_all_vars mild)
                sample_soil_con) as H.
  apply H. vm_compute. reflexivity.
Defined.

(** A cell in which class 0 has a cover fraction of -0.5 and band 0 an
    area fraction of -0.25. *)
Definition negative_veg_con : nat -> veg_con_struct :=
  fun veg =>
    {| vegetat_type_num := 2;
       Cv := match veg with 0 => -0.5 | 2 => 0.5 | _ => 0 end |}.

Definition negative_soil_con : soil_con_struct :=
  sample_soil_with
    (fun band => match band with 0 => -0.25 | 1 => 0.25 | _ => 0 end)%float.

Definition negative_run : result unit * state :=
  compute_derived_state_vars vic_constants sample_routines explicit_options
    short_step negative_veg_con (sample_all_vars mild) negative_soil_con.

(** C4, as stated, fails on that cell: the combined weight of tile (0, 0)
    is 0.125, strictly positive, and the weights of (0, 1) and (2, 0) are
    negative, so the tiles of strictly positive weight are (0, 0) and
    (2, 1); the run returns and has processed (2, 1) alone, in both
    passes. *)
Lemma negative_fractions_tile_skipped :
  tile_weight negative_veg_con negative_soil_con (0, 0) = 0.125%float /\
  weighted_tiles explicit_options negative_veg_con negative_soil_con
  = [(0, 0); (2, 1)] /\
  fst negative_run = Ret tt /\
  first_pass_tiles (trace (snd negative_run)) = [(2, 1)] /\
  second_pass_tiles (trace (snd negative_run)) = [(2, 1)].
Proof. repeat split; vm_compute; reflexivity. Qed.

(** Tile (1, 0) of the sample cell covers nothing. *)
Lemma unselected_tile_untouched_sample :
  cell (snd stable_run) 1 0 = sample_cell /\
  energy (snd stable_run) 1 0 = sample_energy mild.
Proof.
  apply (unselected_tile_untouched vic_constants sample_routines
           explicit_options short_step sample_veg_con (sample_all_vars mild)
           sample_soil_con 1 0).
  left. vm_compute. reflexivity.
Defined.

(** The node distribution fails on the absurd profile: event 9 of the
    run. *)
Lemma error_flag_ends_run_sample :
  fst failing_run = Stop Exited /\
  exists m,
    report_of (event_at 9 (trace (snd failing_run))) = Some m /\
    skipn 10 (trace (snd failing_run)) = [logged m].
Proof.
  apply (error_flag_ends_run vic_constants sample_routines explicit_options
           short_step sample_veg_con (sample_all_vars absurd) sample_soil_con
           (firstn 9 (trace (snd failing_run)))
           (event_at 9 (trace (snd failing_run)))
           (skipn 10 (trace (snd failing_run)))).
  - vm_compute. reflexivity.
  - vm_compute. reflexivity.
Defined.

(** Event 10 of the run with the short step is the estimator call of tile
    (0, 0). *)
Lemma write_back_restores_entry_sample :
  (Layer.moist (handed_layers (event_at 10 (trace (snd stable_run))) 0)
   = Layer.moist (layer sample_cell 0) /\
   moist (snd stable_run) !! (0, 0, 0)
   = Some (Layer.moist
             (handed_layers (event_at 10 (trace (snd stable_run))) 0))) /\
  forall frost_area, frost_area < Nfrost explicit_options ->
    Layer.ice (handed_layers (event_at 10 (trace (snd stable_run))) 0)
      frost_area
    = Layer.ice (layer sample_cell 0) frost_area /\
    ice (snd stable_run) !! (0, 0, 0, frost_area)
    = Some (Layer.ice
              (handed_layers (event_at 10 (trace (snd stable_run))) 0)
              frost_area).
Proof.
  refine (@write_back_restores_entry vic_constants sample_routines
            explicit_options short_step sample_veg_con (sample_all_vars mild)
            sample_soil_con (event_at 10 (trace (snd stable_run))) 0 0
            (handed_layers (event_at 10 (trace (snd stable_run)))) _ _ 0 _).
  - apply nth_In. vm_compute. lia.
  - vm_compute. reflexivity.
  - vm_compute. lia.
Defined.

(** Two quick-flux runs whose profiles differ from node 2 down. *)
Lemma quick_flux_reads_two_temperatures_sample :
  PrimFloat.eqb (mild 2) (mild_warm_below 2) = false /\
  cell (snd (quick_run mild)) 0 0 = cell (snd (quick_run mild_warm_below)) 0 0 /\
  forall lidx frost_area,
    Layer.ice (layer (cell (snd (quick_run mild)) 0 0) lidx) frost_area
    = Layer.ice (layer (cell (snd (quick_run mild_warm_below)) 0 0) lidx)
        frost_area.
Proof.
  split; [reflexivity|].
  apply (quick_flux_reads_two_temperatures vic_constants sample_routines
           quick_flux_options short_step sample_veg_con eq_refl
           (sample_all_vars mild) (sample_all_vars mild_warm_below)
           sample_soil_con).
  - intros v b. reflexivity.
  - intros v b. split; reflexivity.
  - vm_compute. reflexivity.
  - vm_compute. reflexivity.
Defined.

(** The sample cell is within the four capacities. *)
Lemma arrays_in_range_sample :
  (S (Nveg sample_veg_con) <= MAX_VEG vic_constants /\
   SNOW_BAND explicit_options <= MAX_BANDS vic_constants /\
   Nlayer explicit_options <= MAX_LAYERS vic_constants /\
   Nfrost explicit_options <= MAX_FROST_AREAS vic_constants) /\
  fst stable_run <> Stop OutOfRange.
Proof.
  split; [vm_compute; lia|].
  apply (arrays_in_range vic_constants sample_routines explicit_options
           short_step sample_veg_con (sample_all_vars mild) sample_soil_con);
    vm_compute; lia.
Defined.

(** Nothing compares the number of layers with [MAX_LAYERS]: with four
    layers the first store into [moist] of the fourth layer leaves the
    array. *)
Example four_layers_leave_the_array :
  MAX_LAYERS vic_constants < Nlayer four_layer_options /\
  fst four_layer_run = Stop OutOfRange.
Proof. split; [vm_compute; lia|vm_compute; reflexivity]. Qed.

(** *** Further runs of the sample cell *)

(** No vegetation class covers anything. *)
Definition bare_veg_con : nat -> veg_con_struct :=
  fun _ => {| vegetat_type_num := 2; Cv := 0 |}.

(** The water balance alone: no energy balance, no frozen soil. *)
Definition water_balance_options : option_struct :=
  {| SNOW_BAND := 3; Nlayer := 3; Nfrost := 2; Nnode := 5;
     FULL_ENERGY := false; FROZEN_SOIL := false; QUICK_FLUX := true;
     IMPLICIT := false |}.

Definition bare_run : result unit * state :=
  compute_derived_state_vars vic_constants sample_routines explicit_options
    short_step bare_veg_con (sample_all_vars mild) sample_soil_con.

Definition water_balance_run : result unit * state :=
  compute_derived_state_vars vic_constants sample_routines
    water_balance_options short_step sample_veg_con (sample_all_vars mild)
    sample_soil_con.

(** The row an event handed to its callee (none for another event). *)
Definition handed_row (e : event) : list float :=
  match row_read e with
  | Some (_, _, row) => row
  | None => []
  end.

(** The calls of the run with the short step. *)
Lemma returned_run_calls_sample :
  map call_of (trace (snd stable_run))
  = run_schedule explicit_options sample_soil_con
      (selected_tiles explicit_options sample_veg_con
         (AreaFract sample_soil_con)).
Proof.
  apply (@returned_run_calls vic_constants sample_routines explicit_options
           short_step sample_veg_con (sample_all_vars mild) sample_soil_con).
  vm_compute. reflexivity.
Defined.

(** Tile (0, 0) at the end of the run with the short step. *)
Lemma returned_tile_state_sample :
  let soil :=
    stored_node_arrays sample_routines explicit_options sample_soil_con in
  let e1 :=
    node_moisture_energy sample_routines explicit_options soil
      (layer_moist_row explicit_options sample_cell) (sample_energy mild) in
  energy (snd stable_run) 0 0
  = fronts_energy sample_routines explicit_options soil e1 /\
  exists l,
    carries explicit_options sample_cell l /\
    layer (cell (snd stable_run) 0 0)
    = estimated_layers sample_routines explicit_options soil e1 l.
Proof.
  apply (@returned_tile_state vic_constants sample_routines explicit_options
           short_step sample_veg_con (sample_all_vars mild) sample_soil_con
           0 0).
  - vm_compute. reflexivity.
  - vm_compute. auto.
Defined.

(** Tile (2, 1) at the end of the run that the long step ended. *)
Lemma first_pass_results_stand_sample :
  fst unstable_run = Stop Exited /\
  asat (cell (snd unstable_run) 2 1)
  = asat (first_pass_cell sample_routines explicit_options sample_soil_con
            sample_cell) /\
  zwt (cell (snd unstable_run) 2 1)
  = zwt (first_pass_cell sample_routines explicit_options sample_soil_con
           sample_cell).
Proof.
  split; [vm_compute; reflexivity|].
  apply (@first_pass_results_stand vic_constants sample_routines
           explicit_options long_step sample_veg_con (sample_all_vars mild)
           sample_soil_con 2 1).
  - vm_compute. discriminate.
  - vm_compute. auto.
Defined.

(** Event 9 of the run with the short step is the node distribution of
    tile (0, 0). *)
Lemma callees_read_entry_moisture_sample :
  handed_row (event_at 9 (trace (snd stable_run)))
  = layer_moist_row explicit_options sample_cell.
Proof.
  apply (@callees_read_entry_moisture vic_constants sample_routines
           explicit_options short_step sample_veg_con (sample_all_vars mild)
           sample_soil_con (event_at 9 (trace (snd stable_run))) 0 0
           (handed_row (event_at 9 (trace (snd stable_run))))).
  - vm_compute. discriminate.
  - apply nth_In. vm_compute. lia.
  - vm_compute. reflexivity.
Defined.

(** The sample cell without vegetation cover. *)
Lemma no_selected_tile_no_effect_sample :
  fst bare_run = Ret tt /\ trace (snd bare_run) = [] /\
  cell (snd bare_run) = AllVars.cell (sample_all_vars mild) /\
  energy (snd bare_run) = AllVars.energy (sample_all_vars mild) /\
  soil_con (snd bare_run) = sample_soil_con.
Proof.
  apply (@no_selected_tile_no_effect vic_constants sample_routines
           explicit_options short_step bare_veg_con (sample_all_vars mild)
           sample_soil_con).
  intros veg band _ _. reflexivity.
Defined.

(** The sample cell with the water balance alone. *)
Lemma energy_untouched_without_energy_physics_sample :
  second_pass_tiles (trace (snd water_balance_run))
  = [(0, 0); (0, 1); (2, 0); (2, 1)] /\
  energy (snd water_balance_run) = AllVars.energy (sample_all_vars mild).
Proof.
  split; [vm_compute; reflexivity|].
  apply (@energy_untouched_without_energy_physics vic_constants
           sample_routines water_balance_options short_step sample_veg_con
           (sample_all_vars mild) sample_soil_con).
  - reflexivity.
  - reflexivity.
  - reflexivity.
Defined.


(** The indices of layer 2 of tile (0, 0) in the run with the short
    step. *)
Lemma in_range_indices_sample :
  0 < MAX_VEG vic_constants /\ 0 < MAX_BANDS vic_constants /\
  2 < MAX_LAYERS vic_constants /\
  forall frost_area, frost_area < Nfrost explicit_options ->
    frost_area < MAX_FROST_AREAS vic_constants.
Proof.
  apply (@in_range_indices vic_constants sample_routines explicit_options
           short_step sample_veg_con (sample_all_vars mild) sample_soil_con
           0 0 2).
  - vm_compute. discriminate.
  - vm_compute. auto.
  - vm_compute. lia.
Defined.
